(** * Firefly algorithm simulator: a shallow embedding and its properties

    The embedding follows the JavaScript sources

    - [sims/js/objective-functions.js]   (the registry of test functions),
    - [sims/js/firefly.js]               (class [Firefly]),
    - [sims/firefly-algorithms/js/firefly-algorithm.js]
                                         (class [FireflyAlgorithm], and the
                                          simulation part of [Renderer.render]).

    JavaScript numbers are IEEE-754 binary64 values; they are modelled by
    Rocq's primitive floats, so [+], [-], [*], [/], [sqrt] and the
    comparisons round exactly as the engine does.  The transcendental
    functions of [Math] and the stream of [Math.random()] belong to the
    engine, not to the repository: they are the fields of a [JsRuntime].

    Methods mutate their receiver and may throw; a method body is a function
    of the receiver and of the cursor into the random stream, returning a
    completion together with the receiver and cursor it leaves behind. *)

From Stdlib Require Import Floats ZArith List Bool String Lia.
From Stdlib Require Import Permutation Sorted.
Import ListNotations.

Set Warnings "-inexact-float".
Set Implicit Arguments.

Local Open Scope float_scope.

(* ===================================================================== *)
(** ** The engine: numbers, [Math], exceptions                            *)
(* ===================================================================== *)

(** [Math.exp], [Math.sin], [Math.cos], [Math.pow] and the successive
    results of [Math.random()]. *)
Class JsRuntime : Type := {
  Math_exp : float -> float;
  Math_sin : float -> float;
  Math_cos : float -> float;
  Math_pow : float -> float -> float;
  Math_random : nat -> float
}.

Definition Math_PI : float := 3.141592653589793.

Definition is_NaN (a : float) : bool := negb (a =? a).

Definition is_negative_zero (a : float) : bool :=
  match classify a with NZero => true | _ => false end.

(** [Math.max(a, b)]: NaN when either argument is, and [+0] above [-0]. *)
Definition Math_max (a b : float) : float :=
  if is_NaN a || is_NaN b then nan
  else if a <? b then b
  else if b <? a then a
  else if is_negative_zero a then b else a.

(** [Math.min(a, b)]: NaN when either argument is, and [-0] below [+0]. *)
Definition Math_min (a b : float) : float :=
  if is_NaN a || is_NaN b then nan
  else if a <? b then a
  else if b <? a then b
  else if is_negative_zero a then a else b.

(** The errors a call can end with.  The source raises no error of its own:
    every failure is the engine's [TypeError] on a property read of
    [undefined].  [UnknownFunctionKey] and [InvalidParameter] are the two
    error names of the specification's taxonomy; no path of the source
    constructs them. *)
Inductive JsError : Type :=
| TypeError
| UnknownFunctionKey
| InvalidParameter.

Inductive Completion (A : Type) : Type :=
| Normal (a : A)
| Throw (e : JsError).

Arguments Normal {A} a.
Arguments Throw {A} e.

Definition isNormal {A} (c : Completion A) : bool :=
  match c with Normal _ => true | Throw _ => false end.

(** A method body with receiver type [T] and result [A]. *)
Definition Js (T A : Type) : Type := T -> nat -> Completion A * T * nat.

Definition ret {T A} (a : A) : Js T A := fun t k => (Normal a, t, k).

Definition bind {T A B} (m : Js T A) (f : A -> Js T B) : Js T B :=
  fun t k =>
    match m t k with
    | (Normal a, t', k') => f a t' k'
    | (Throw e, t', k') => (Throw e, t', k')
    end.

Definition throw {T A} (e : JsError) : Js T A := fun t k => (Throw e, t, k).

(** Reading [this], and assigning to its fields. *)
Definition this {T} : Js T T := fun t k => (Normal t, t, k).

Definition assign {T} (f : T -> T) : Js T unit := fun t k => (Normal tt, f t, k).

(** One call of [Math.random()]. *)
Definition random {RT : JsRuntime} {T} : Js T float :=
  fun t k => (Normal (Math_random k), t, S k).

(** [if (c) { m }] *)
Definition when {T} (c : bool) (m : Js T unit) : Js T unit :=
  if c then m else ret tt.

(** A method call [obj.m()] on an object other than the receiver: the
    result comes back with the object as the call left it. *)
Definition on {T U A} (obj : U) (m : Js U A) : Js T (A * U) :=
  fun t k =>
    match m obj k with
    | (Normal a, u', k') => (Normal (a, u'), t, k')
    | (Throw e, _, k') => (Throw e, t, k')
    end.

Declare Scope js_scope.
Delimit Scope js_scope with js.
Notation "x <- m ;; k" := (bind m (fun x => k))
  (at level 61, m at next level, right associativity) : js_scope.
Notation "' p <- m ;; k" := (bind m (fun p => k))
  (at level 61, p pattern, m at next level, right associativity) : js_scope.
Notation "m ;; k" := (bind m (fun _ => k))
  (at level 61, right associativity) : js_scope.
Local Open Scope js_scope.

(** What a call leaves: its completion, receiver and cursor. *)
Definition completion {A T} (r : Completion A * T * nat) : Completion A := fst (fst r).
Definition receiver {A T} (r : Completion A * T * nat) : T := snd (fst r).
Definition cursor {A T} (r : Completion A * T * nat) : nat := snd r.

(* ===================================================================== *)
(** ** objective-functions.js                                             *)
(* ===================================================================== *)

Record Domain : Type := {
  xMin : float; xMax : float; yMin : float; yMax : float
}.

Record Optimum : Type := { opt_x : float; opt_y : float; opt_value : float }.

Record ObjectiveFunction : Type := {
  name : string;
  fn : float -> float -> float;
  domain : Domain;
  optima : list Optimum;
  minimize : bool
}.

Section Registry.
Context {RT : JsRuntime}.

Definition michalewicz : ObjectiveFunction := {|
  name := "Michalewicz";
  fn := fun x y =>
    let m := 10 in
    let term1 := Math_sin x * Math_pow (Math_sin ((x * x) / Math_PI)) (2 * m) in
    let term2 := Math_sin y * Math_pow (Math_sin ((2 * y * y) / Math_PI)) (2 * m) in
    - (term1 + term2);
  domain := {| xMin := 0; xMax := Math_PI; yMin := 0; yMax := Math_PI |};
  optima := [ {| opt_x := 2.20; opt_y := 1.57; opt_value := -1.801 |} ];
  minimize := true
|}.

Definition rastrigin : ObjectiveFunction := {|
  name := "Rastrigin";
  fn := fun x y =>
    let A := 10 in
    A * 2 + (x * x - A * Math_cos (2 * Math_PI * x)) +
            (y * y - A * Math_cos (2 * Math_PI * y));
  domain := {| xMin := -5.12; xMax := 5.12; yMin := -5.12; yMax := 5.12 |};
  optima := [ {| opt_x := 0; opt_y := 0; opt_value := 0 |} ];
  minimize := true
|}.

Definition rosenbrock : ObjectiveFunction := {|
  name := "Rosenbrock";
  fn := fun x y =>
    let a := 1 in
    let b := 100 in
    Math_pow (a - x) 2 + b * Math_pow (y - x * x) 2;
  domain := {| xMin := -2; xMax := 2; yMin := -1; yMax := 3 |};
  optima := [ {| opt_x := 1; opt_y := 1; opt_value := 0 |} ];
  minimize := true
|}.

Definition himmelblau : ObjectiveFunction := {|
  name := "Himmelblau";
  fn := fun x y =>
    Math_pow (x * x + y - 11) 2 + Math_pow (x + y * y - 7) 2;
  domain := {| xMin := -5; xMax := 5; yMin := -5; yMax := 5 |};
  optima := [ {| opt_x := 3.0; opt_y := 2.0; opt_value := 0 |};
              {| opt_x := -2.805118; opt_y := 3.131312; opt_value := 0 |};
              {| opt_x := -3.779310; opt_y := -3.283186; opt_value := 0 |};
              {| opt_x := 3.584428; opt_y := -1.848126; opt_value := 0 |} ];
  minimize := true
|}.

Definition sphere : ObjectiveFunction := {|
  name := "Sphere";
  fn := fun x y => x * x + y * y;
  domain := {| xMin := -5; xMax := 5; yMin := -5; yMax := 5 |};
  optima := [ {| opt_x := 0; opt_y := 0; opt_value := 0 |} ];
  minimize := true
|}.

(** [objectiveFunctions[key]]: the registered function, or [undefined]
    ([None]).  Keys are the five own properties of the object literal;
    names inherited from [Object.prototype] are not keys of the model. *)
Definition objectiveFunctions (key : string) : option ObjectiveFunction :=
  if (key =? "michalewicz")%string then Some michalewicz
  else if (key =? "rastrigin")%string then Some rastrigin
  else if (key =? "rosenbrock")%string then Some rosenbrock
  else if (key =? "himmelblau")%string then Some himmelblau
  else if (key =? "sphere")%string then Some sphere
  else None.

End Registry.

(** The five registered identifiers. *)
Definition registeredKeys : list string :=
  ["michalewicz"; "rastrigin"; "rosenbrock"; "himmelblau"; "sphere"]%string.

(* ===================================================================== *)
(** ** firefly.js: class Firefly                                          *)
(* ===================================================================== *)

Inductive Gender : Type := male | female.

Definition Gender_eqb (a b : Gender) : bool :=
  match a, b with
  | male, male | female, female => true
  | _, _ => false
  end.

Record Point : Type := { px : float; py : float }.

Module Firefly.

(** The fields, in the order the constructor creates them ([value] is
    created by [evaluate]). *)
Record t : Type := mk {
  x : float;
  y : float;
  objectiveFunction : option ObjectiveFunction;
  brightness : float;
  trail : list Point;
  maxTrailLength : nat;
  gender : Gender;
  flashPhase : float;
  flashInterval : float;
  flashDuration : float;
  isFlashing : bool;
  flashIntensity : float;
  responseDelay : float;
  isResponding : bool;
  value : float
}.

(** Field assignments [this.field = v]. *)
Definition set_x (v : float) (f : t) : t :=
  mk v (y f) (objectiveFunction f) (brightness f) (trail f) (maxTrailLength f)
     (gender f) (flashPhase f) (flashInterval f) (flashDuration f) (isFlashing f)
     (flashIntensity f) (responseDelay f) (isResponding f) (value f).
Definition set_y (v : float) (f : t) : t :=
  mk (x f) v (objectiveFunction f) (brightness f) (trail f) (maxTrailLength f)
     (gender f) (flashPhase f) (flashInterval f) (flashDuration f) (isFlashing f)
     (flashIntensity f) (responseDelay f) (isResponding f) (value f).
Definition set_objectiveFunction (v : option ObjectiveFunction) (f : t) : t :=
  mk (x f) (y f) v (brightness f) (trail f) (maxTrailLength f)
     (gender f) (flashPhase f) (flashInterval f) (flashDuration f) (isFlashing f)
     (flashIntensity f) (responseDelay f) (isResponding f) (value f).
Definition set_brightness (v : float) (f : t) : t :=
  mk (x f) (y f) (objectiveFunction f) v (trail f) (maxTrailLength f)
     (gender f) (flashPhase f) (flashInterval f) (flashDuration f) (isFlashing f)
     (flashIntensity f) (responseDelay f) (isResponding f) (value f).
Definition set_trail (v : list Point) (f : t) : t :=
  mk (x f) (y f) (objectiveFunction f) (brightness f) v (maxTrailLength f)
     (gender f) (flashPhase f) (flashInterval f) (flashDuration f) (isFlashing f)
     (flashIntensity f) (responseDelay f) (isResponding f) (value f).
Definition set_gender (v : Gender) (f : t) : t :=
  mk (x f) (y f) (objectiveFunction f) (brightness f) (trail f) (maxTrailLength f)
     v (flashPhase f) (flashInterval f) (flashDuration f) (isFlashing f)
     (flashIntensity f) (responseDelay f) (isResponding f) (value f).
Definition set_flashPhase (v : float) (f : t) : t :=
  mk (x f) (y f) (objectiveFunction f) (brightness f) (trail f) (maxTrailLength f)
     (gender f) v (flashInterval f) (flashDuration f) (isFlashing f)
     (flashIntensity f) (responseDelay f) (isResponding f) (value f).
Definition set_flashInterval (v : float) (f : t) : t :=
  mk (x f) (y f) (objectiveFunction f) (brightness f) (trail f) (maxTrailLength f)
     (gender f) (flashPhase f) v (flashDuration f) (isFlashing f)
     (flashIntensity f) (responseDelay f) (isResponding f) (value f).
Definition set_flashDuration (v : float) (f : t) : t :=
  mk (x f) (y f) (objectiveFunction f) (brightness f) (trail f) (maxTrailLength f)
     (gender f) (flashPhase f) (flashInterval f) v (isFlashing f)
     (flashIntensity f) (responseDelay f) (isResponding f) (value f).
Definition set_isFlashing (v : bool) (f : t) : t :=
  mk (x f) (y f) (objectiveFunction f) (brightness f) (trail f) (maxTrailLength f)
     (gender f) (flashPhase f) (flashInterval f) (flashDuration f) v
     (flashIntensity f) (responseDelay f) (isResponding f) (value f).
Definition set_flashIntensity (v : float) (f : t) : t :=
  mk (x f) (y f) (objectiveFunction f) (brightness f) (trail f) (maxTrailLength f)
     (gender f) (flashPhase f) (flashInterval f) (flashDuration f) (isFlashing f)
     v (responseDelay f) (isResponding f) (value f).
Definition set_responseDelay (v : float) (f : t) : t :=
  mk (x f) (y f) (objectiveFunction f) (brightness f) (trail f) (maxTrailLength f)
     (gender f) (flashPhase f) (flashInterval f) (flashDuration f) (isFlashing f)
     (flashIntensity f) v (isResponding f) (value f).
Definition set_isResponding (v : bool) (f : t) : t :=
  mk (x f) (y f) (objectiveFunction f) (brightness f) (trail f) (maxTrailLength f)
     (gender f) (flashPhase f) (flashInterval f) (flashDuration f) (isFlashing f)
     (flashIntensity f) (responseDelay f) v (value f).
Definition set_value (v : float) (f : t) : t :=
  mk (x f) (y f) (objectiveFunction f) (brightness f) (trail f) (maxTrailLength f)
     (gender f) (flashPhase f) (flashInterval f) (flashDuration f) (isFlashing f)
     (flashIntensity f) (responseDelay f) (isResponding f) v.

Section Methods.
Context {RT : JsRuntime}.

(** [evaluate()]: reading [.fn] of an [undefined] objective function is
    a TypeError. *)
Definition evaluate : Js t unit :=
  self <- this ;;
  match objectiveFunction self with
  | None => throw TypeError
  | Some o =>
      assign (set_value (fn o (x self) (y self))) ;;
      self <- this ;;
      assign (set_brightness (- value self))
  end.

(** [distanceTo(other)] *)
Definition distanceTo (self other : t) : float :=
  let dx := x self - x other in
  let dy := y self - y other in
  sqrt (dx * dx + dy * dy).

(** [clampToDomain(domain)] *)
Definition clampToDomain (domain : Domain) : Js t unit :=
  self <- this ;;
  assign (set_x (Math_max (xMin domain) (Math_min (xMax domain) (x self)))) ;;
  self <- this ;;
  assign (set_y (Math_max (yMin domain) (Math_min (yMax domain) (y self)))).

(** [addTrailPoint()]: [push], then [shift] once past the bound. *)
Definition addTrailPoint : Js t unit :=
  self <- this ;;
  assign (set_trail (trail self ++ [ {| px := x self; py := y self |} ])) ;;
  self <- this ;;
  when (Nat.ltb (maxTrailLength self) (List.length (trail self)))
       (assign (set_trail (tl (trail self)))).

(** [clearTrail()] *)
Definition clearTrail : Js t unit := assign (set_trail []).

(** [moveTowards(other, beta0, gamma, alpha, domain)] *)
Definition moveTowards (other : t) (beta0 gamma alpha : float) (domain : Domain)
  : Js t unit :=
  addTrailPoint ;;
  self <- this ;;
  let r := distanceTo self other in
  let rSquared := r * r in
  let beta := beta0 * Math_exp ((- gamma) * rSquared) in
  let dx := x other - x self in
  let dy := y other - y self in
  let domainScaleX := xMax domain - xMin domain in
  let domainScaleY := yMax domain - yMin domain in
  u <- random ;;
  assign (set_x (x self + (beta * dx + alpha * domainScaleX * (u - 0.5)))) ;;
  v <- random ;;
  assign (set_y (y self + (beta * dy + alpha * domainScaleY * (v - 0.5)))) ;;
  clampToDomain domain ;;
  evaluate.

(** [randomWalk(alpha, domain)] *)
Definition randomWalk (alpha : float) (domain : Domain) : Js t unit :=
  addTrailPoint ;;
  self <- this ;;
  let domainScaleX := xMax domain - xMin domain in
  let domainScaleY := yMax domain - yMin domain in
  u <- random ;;
  assign (set_x (x self + alpha * domainScaleX * (u - 0.5))) ;;
  v <- random ;;
  assign (set_y (y self + alpha * domainScaleY * (v - 0.5))) ;;
  clampToDomain domain ;;
  evaluate.

(** [new Firefly(x, y, objectiveFunction)].  Four random draws (gender,
    phase, interval, duration), then [evaluate()] on the new object; when
    that throws no object is produced.  Until [evaluate] runs [value] is
    [undefined], which no caller can observe. *)
Definition new {T} (x0 y0 : float) (o : option ObjectiveFunction) : Js T t :=
  g <- random ;;
  let gender0 := if g <? 0.5 then male else female in
  p <- random ;;
  let flashPhase0 := p * 6000 in
  i <- random ;;
  let flashInterval0 :=
    match gender0 with
    | male => 1500 + i * 1500
    | female => 3000 + i * 3000
    end in
  d <- random ;;
  let flashDuration0 := 150 + d * 100 in
  '(_, f) <- on (mk x0 y0 o 0 [] 20 gender0 flashPhase0 flashInterval0
                    flashDuration0 false 0 0 false nan) evaluate ;;
  ret f.

(** [updateFlash(deltaTime)] *)
Definition updateFlash (deltaTime : float) : Js t unit :=
  self <- this ;;
  when (isResponding self && (0 <? responseDelay self)) (
    assign (set_responseDelay (responseDelay self - deltaTime)) ;;
    self <- this ;;
    when (responseDelay self <=? 0) (
      assign (set_isFlashing true) ;;
      assign (set_flashPhase 0) ;;
      assign (set_responseDelay 0))) ;;
  self <- this ;;
  when (negb (isResponding self) || (responseDelay self <=? 0)) (
    assign (set_flashPhase (flashPhase self + deltaTime)) ;;
    self <- this ;;
    when (flashInterval self <=? flashPhase self) (
      assign (set_isFlashing true) ;;
      assign (set_flashPhase 0))) ;;
  self <- this ;;
  when (isFlashing self) (
    let t := flashPhase self / flashDuration self in
    if t <? 0.2 then
      assign (set_flashIntensity (t / 0.2))
    else if t <? 1.0 then
      assign (set_flashIntensity (Math_exp (-3 * (t - 0.2))))
    else
      assign (set_isFlashing false) ;;
      assign (set_flashIntensity 0) ;;
      assign (set_isResponding false)).

(** The loop of [checkForNearbyFlash] from position [j] on: [others] are
    the elements still to visit, [selfIndex] the position of the
    receiver in the array ([other === this]).  A trigger returns from
    the method. *)
Fixpoint scanForMale (selfIndex j : nat) (others : list t)
         (responseDistance : float) : Js t unit :=
  match others with
  | [] => ret tt
  | other :: rest =>
      if Nat.eqb j selfIndex || negb (Gender_eqb (gender other) male) then
        scanForMale selfIndex (S j) rest responseDistance
      else if 0.5 <? flashIntensity other then
        self <- this ;;
        let distance := distanceTo self other in
        if distance <? responseDistance then
          u <- random ;;
          assign (set_responseDelay (400 + u * 200)) ;;
          assign (set_isResponding true)
        else scanForMale selfIndex (S j) rest responseDistance
      else scanForMale selfIndex (S j) rest responseDistance
  end.

(** [checkForNearbyFlash(fireflies, domain)], called on the element
    [selfIndex] of [fireflies]. *)
Definition checkForNearbyFlash (selfIndex : nat) (fireflies : list t)
           (domain : Domain) : Js t unit :=
  self <- this ;;
  if negb (Gender_eqb (gender self) female) || isFlashing self || isResponding self
  then ret tt
  else
    let timeToNextFlash := flashInterval self - flashPhase self in
    if timeToNextFlash <? 500 then ret tt
    else
      let domainScale :=
        Math_max (xMax domain - xMin domain) (yMax domain - yMin domain) in
      let responseDistance := domainScale * 0.2 in
      scanForMale selfIndex 0 fireflies responseDistance.

(** [clone()]: a new object from the constructor, then the copied
    fields.  The trail is the constructor's empty one. *)
Definition clone : Js t t :=
  self <- this ;;
  f <- new (x self) (y self) (objectiveFunction self) ;;
  let f := set_gender (gender self) f in
  let f := set_value (value self) f in
  let f := set_brightness (brightness self) f in
  let f := set_flashPhase (flashPhase self) f in
  let f := set_flashInterval (flashInterval self) f in
  let f := set_flashDuration (flashDuration self) f in
  let f := set_isFlashing (isFlashing self) f in
  let f := set_flashIntensity (flashIntensity self) f in
  let f := set_responseDelay (responseDelay self) f in
  let f := set_isResponding (isResponding self) f in
  ret f.

End Methods.
End Firefly.

(* ===================================================================== *)
(** ** Arrays of the engine                                               *)
(* ===================================================================== *)

Section Arrays.
Variable A : Type.

(** [array[i] = v] for an index in range. *)
Fixpoint store (i : nat) (v : A) (l : list A) : list A :=
  match l, i with
  | [], _ => []
  | _ :: l', O => v :: l'
  | a :: l', S i' => a :: store i' v l'
  end.

(** [Array.prototype.sort(comparefn)].  The language fixes no algorithm
    but requires the sort to be stable, and reads a NaN result of
    [comparefn] as [+0]; for a consistent comparator every stable sort
    returns the same array.  The model is the stable insertion sort: an
    element stays in front of the elements it does not compare greater
    than. *)
Variable comparefn : A -> A -> float.

Fixpoint insertSorted (a : A) (l : list A) : list A :=
  match l with
  | [] => [a]
  | b :: l' => if 0 <? comparefn a b then b :: insertSorted a l' else a :: l
  end.

Definition Array_sort (l : list A) : list A := fold_right insertSorted [] l.

(** [array.slice(0, end)]: a negative [end] counts from the end of the
    array. *)
Definition Array_slice0 (l : list A) (e : Z) : list A :=
  let len := Z.of_nat (List.length l) in
  let final := if (e <? 0)%Z then Z.max (len + e) 0 else Z.min e len in
  firstn (Z.to_nat final) l.
End Arrays.

(** Truthiness of a number and of a string. *)
Definition truthy_float (a : float) : bool := negb (a =? 0) && negb (is_NaN a).
Definition truthy_Z (a : Z) : bool := negb (a =? 0)%Z.
Definition truthy_string (s : string) : bool := negb (s =? "")%string.

(* ===================================================================== *)
(** ** firefly-algorithm.js: class FireflyAlgorithm                       *)
(* ===================================================================== *)

(** [params].  The population size [n] is an integer in every call of the
    repository (the slider's [parseInt]); the other three are numbers. *)
Record Params : Type := {
  n : Z;
  gamma : float;
  beta0 : float;
  alpha : float;
  functionKey : string
}.

(** The argument of [setParams] and of the constructor: any subset of the
    keys of [Params]. *)
Record PartialParams : Type := {
  new_n : option Z;
  new_gamma : option float;
  new_beta0 : option float;
  new_alpha : option float;
  new_functionKey : option string
}.

Definition noParams : PartialParams :=
  {| new_n := None; new_gamma := None; new_beta0 := None; new_alpha := None;
     new_functionKey := None |}.

(** [{ ...params, ...newParams }] *)
Definition spread (params : Params) (newParams : PartialParams) : Params :=
  let pick {X} (new : option X) (old : X) :=
    match new with Some v => v | None => old end in
  {| n := pick (new_n newParams) (n params);
     gamma := pick (new_gamma newParams) (gamma params);
     beta0 := pick (new_beta0 newParams) (beta0 params);
     alpha := pick (new_alpha newParams) (alpha params);
     functionKey := pick (new_functionKey newParams) (functionKey params) |}.

(** The comparator of the two sorts: [(a, b) => a.value - b.value]. *)
Definition byValue (a b : Firefly.t) : float := Firefly.value a - Firefly.value b.

Module FireflyAlgorithm.

Record t : Type := mk {
  params : Params;
  generation : Z;
  fireflies : list Firefly.t;
  bestFirefly : option Firefly.t;
  objectiveFunction : option ObjectiveFunction
}.

Definition set_params (v : Params) (a : t) : t :=
  mk v (generation a) (fireflies a) (bestFirefly a) (objectiveFunction a).
Definition set_generation (v : Z) (a : t) : t :=
  mk (params a) v (fireflies a) (bestFirefly a) (objectiveFunction a).
Definition set_fireflies (v : list Firefly.t) (a : t) : t :=
  mk (params a) (generation a) v (bestFirefly a) (objectiveFunction a).
Definition set_bestFirefly (v : option Firefly.t) (a : t) : t :=
  mk (params a) (generation a) (fireflies a) v (objectiveFunction a).
Definition set_objectiveFunction (v : option ObjectiveFunction) (a : t) : t :=
  mk (params a) (generation a) (fireflies a) (bestFirefly a) v.

(** The value [step()] returns. *)
Record StepResult : Type := {
  res_generation : Z;
  res_best : option Firefly.t;
  res_fireflies : list Firefly.t
}.

(** The value [getStats()] returns. *)
Record Stats : Type := {
  stat_generation : Z;
  bestValue : float;
  bestX : float;
  bestY : float;
  populationSize : nat
}.

(** [this.fireflies[i].m(...)]: the element is mutated in place, also when
    the call throws; an index out of range reads [undefined]. *)
Definition onFirefly {A} (i : nat) (m : Js Firefly.t A) : Js t A :=
  fun a k =>
    match nth_error (fireflies a) i with
    | None => (Throw TypeError, a, k)
    | Some f =>
        match m f k with
        | (c, f', k') => (c, set_fireflies (store i f' (fireflies a)) a, k')
        end
    end.

Section Methods.
Context {RT : JsRuntime}.

(** The minimum search of [updateBest]: the first element of least
    value, starting from [best]. *)
Definition findBest (best : Firefly.t) (l : list Firefly.t) : Firefly.t :=
  fold_left (fun best f =>
               if Firefly.value f <? Firefly.value best then f else best) l best.

(** [updateBest()].  On an empty population [best] is [undefined], and
    the condition's [best.value] or the body's [best.clone()] is a
    TypeError. *)
Definition updateBest : Js t unit :=
  a <- this ;;
  match fireflies a with
  | [] => throw TypeError
  | f0 :: _ =>
      let best := findBest f0 (fireflies a) in
      let improves :=
        match bestFirefly a with
        | None => true
        | Some b => Firefly.value best <? Firefly.value b
        end in
      when improves (
        '(c, _) <- on best Firefly.clone ;;
        assign (set_bestFirefly (Some c)))
  end.

(** The body of the population loops of [initialize] and
    [adjustPopulation]: one random firefly pushed. *)
Definition pushRandomFirefly (domain : Domain) : Js t unit :=
  u <- random ;;
  let x := xMin domain + u * (xMax domain - xMin domain) in
  v <- random ;;
  let y := yMin domain + v * (yMax domain - yMin domain) in
  a <- this ;;
  firefly <- Firefly.new x y (objectiveFunction a) ;;
  assign (fun a => set_fireflies (fireflies a ++ [firefly]) a).

(** [count] iterations of that body. *)
Fixpoint populate (count : nat) (domain : Domain) : Js t unit :=
  match count with
  | O => ret tt
  | S count' => pushRandomFirefly domain ;; populate count' domain
  end.

(** [initialize()]: the loop [for (i = 0; i < n; i++)] runs [n] times,
    and not at all when [n <= 0]. *)
Definition initialize : Js t unit :=
  assign (set_fireflies []) ;;
  assign (set_generation 0%Z) ;;
  a <- this ;;
  match objectiveFunction a with
  | None => throw TypeError
  | Some o =>
      let domain := domain o in
      populate (Z.to_nat (n (params a))) domain ;;
      updateBest
  end.

(** [reset()] *)
Definition reset : Js t unit := initialize.

(** [new FireflyAlgorithm(params)] *)
Definition new {T} (given : PartialParams) : Js T t :=
  let orElse {X} (truthy : X -> bool) (v : option X) (d : X) : X :=
    match v with Some a => if truthy a then a else d | None => d end in
  let params0 :=
    {| n := orElse truthy_Z (new_n given) 40%Z;
       gamma := orElse truthy_float (new_gamma given) 1.0;
       beta0 := orElse truthy_float (new_beta0 given) 1.0;
       alpha := orElse truthy_float (new_alpha given) 0.2;
       functionKey := orElse truthy_string (new_functionKey given) "michalewicz"%string |} in
  '(_, a) <- on (mk params0 0%Z [] None (objectiveFunctions (functionKey params0)))
                initialize ;;
  ret a.

(** The inner loop of [step] for the firefly at [i], from [j] on, with
    [todo] iterations left (the array keeps its length during a step). *)
Fixpoint compareWithOthers (beta0 gamma alpha : float) (domain : Domain)
         (i j todo : nat) (moved : bool) : Js t bool :=
  match todo with
  | O => ret moved
  | S todo' =>
      if Nat.eqb i j then
        compareWithOthers beta0 gamma alpha domain i (S j) todo' moved
      else
        a <- this ;;
        match nth_error (fireflies a) i, nth_error (fireflies a) j with
        | Some firefly, Some other =>
            if Firefly.value other <? Firefly.value firefly then
              onFirefly i (Firefly.moveTowards other beta0 gamma alpha domain) ;;
              compareWithOthers beta0 gamma alpha domain i (S j) todo' true
            else
              compareWithOthers beta0 gamma alpha domain i (S j) todo' moved
        | _, _ => throw TypeError
        end
  end.

(** The outer loop of [step], from [i] on. *)
Fixpoint moveFireflies (beta0 gamma alpha : float) (domain : Domain)
         (i todo : nat) : Js t unit :=
  match todo with
  | O => ret tt
  | S todo' =>
      a <- this ;;
      moved <- compareWithOthers beta0 gamma alpha domain i 0
                 (List.length (fireflies a)) false ;;
      when (negb moved)
           (onFirefly i (Firefly.randomWalk (alpha * 0.1) domain)) ;;
      moveFireflies beta0 gamma alpha domain (S i) todo'
  end.

(** [step()].  [sorted] is a sorted copy the method never uses. *)
Definition step : Js t StepResult :=
  a <- this ;;
  let gamma := gamma (params a) in
  let beta0 := beta0 (params a) in
  let alpha := alpha (params a) in
  match objectiveFunction a with
  | None => throw TypeError
  | Some o =>
      let domain := domain o in
      let sorted := Array_sort byValue (fireflies a) in
      moveFireflies beta0 gamma alpha domain 0 (List.length (fireflies a)) ;;
      assign (fun a => set_generation (generation a + 1)%Z a) ;;
      updateBest ;;
      a <- this ;;
      ret {| res_generation := generation a;
             res_best := bestFirefly a;
             res_fireflies := fireflies a |}
  end.

(** The loop of [setParams] over the fireflies, from [i] on. *)
Fixpoint rebindFireflies (i todo : nat) : Js t unit :=
  match todo with
  | O => ret tt
  | S todo' =>
      a <- this ;;
      onFirefly i (assign (Firefly.set_objectiveFunction (objectiveFunction a))) ;;
      match objectiveFunction a with
      | None => throw TypeError
      | Some o =>
          onFirefly i (Firefly.clampToDomain (domain o)) ;;
          onFirefly i Firefly.evaluate ;;
          rebindFireflies (S i) todo'
      end
  end.

(** The loop of [adjustPopulation] that grows the population. *)
Definition grow (newN : Z) (domain : Domain) : Js t unit :=
  a <- this ;;
  populate (Z.to_nat (newN - Z.of_nat (List.length (fireflies a)))) domain.

(** [adjustPopulation(newN)] *)
Definition adjustPopulation (newN : Z) : Js t unit :=
  a <- this ;;
  match objectiveFunction a with
  | None => throw TypeError
  | Some o =>
      let domain := domain o in
      let len := Z.of_nat (List.length (fireflies a)) in
      if (newN >? len)%Z then grow newN domain
      else if (newN <? len)%Z then
        assign (fun a => set_fireflies (Array_sort byValue (fireflies a)) a) ;;
        assign (fun a => set_fireflies (Array_slice0 (fireflies a) newN) a)
      else ret tt
  end.

(** [setParams(newParams)] *)
Definition setParams (newParams : PartialParams) : Js t unit :=
  a <- this ;;
  let prevN := n (params a) in
  let prevFunc := functionKey (params a) in
  assign (set_params (spread (params a) newParams)) ;;
  when (match new_functionKey newParams with
        | Some key => truthy_string key && negb (key =? prevFunc)%string
        | None => false
        end) (
    a <- this ;;
    assign (set_objectiveFunction (objectiveFunctions (functionKey (params a)))) ;;
    a <- this ;;
    rebindFireflies 0 (List.length (fireflies a)) ;;
    assign (set_bestFirefly None) ;;
    updateBest) ;;
  match new_n newParams with
  | Some newN =>
      when (truthy_Z newN && negb (newN =? prevN)%Z) (adjustPopulation newN)
  | None => ret tt
  end.

(** [getStats()] *)
Definition getStats (a : t) : option Stats :=
  match bestFirefly a with
  | None => None
  | Some b =>
      Some {| stat_generation := generation a;
              bestValue := Firefly.value b;
              bestX := Firefly.x b;
              bestY := Firefly.y b;
              populationSize := List.length (fireflies a) |}
  end.

(** [clearTrails()] *)
Definition clearTrails : Js t unit :=
  assign (fun a => set_fireflies (map (Firefly.set_trail []) (fireflies a)) a).

End Methods.
End FireflyAlgorithm.

(* ===================================================================== *)
(** ** firefly-algorithm.js: Renderer.render, the simulation clock        *)
(* ===================================================================== *)

Module Renderer.
Import FireflyAlgorithm.

Record t : Type := { lastFrameTime : float }.

Section Methods.
Context {RT : JsRuntime}.

(** First loop of [render]: the response checks, from [i] on. *)
Fixpoint checkResponses (domain : Domain) (i todo : nat) : Js FireflyAlgorithm.t unit :=
  match todo with
  | O => ret tt
  | S todo' =>
      a <- this ;;
      match nth_error (fireflies a) i with
      | None => throw TypeError
      | Some firefly =>
          when (Gender_eqb (Firefly.gender firefly) female)
               (onFirefly i (Firefly.checkForNearbyFlash i (fireflies a) domain)) ;;
          checkResponses domain (S i) todo'
      end
  end.

(** Second loop of [render]: the flash updates, from [i] on. *)
Fixpoint updateFlashes (deltaTime : float) (i todo : nat) : Js FireflyAlgorithm.t unit :=
  match todo with
  | O => ret tt
  | S todo' =>
      onFirefly i (Firefly.updateFlash deltaTime) ;;
      updateFlashes deltaTime (S i) todo'
  end.

(** The two loops together: one tick of the continuous clock (the
    specification calls it [advanceTime]). *)
Definition advanceTime (domain : Domain) (deltaTime : float) : Js FireflyAlgorithm.t unit :=
  a <- this ;;
  checkResponses domain 0 (List.length (fireflies a)) ;;
  a <- this ;;
  updateFlashes deltaTime 0 (List.length (fireflies a)).

(** [render(algorithm, timestamp, timeScale)] up to the drawing, which
    only reads the state.  The receiver of the body is the algorithm;
    the renderer comes back with its new [lastFrameTime]. *)
Definition render (self : t) (timestamp timeScale : float) : Js FireflyAlgorithm.t t :=
  algorithm <- this ;;
  match objectiveFunction algorithm with
  | None => throw TypeError
  | Some o =>
      let domain := domain o in
      let rawDeltaTime :=
        if truthy_float (lastFrameTime self)
        then timestamp - lastFrameTime self else 16 in
      let deltaTime := rawDeltaTime * timeScale in
      advanceTime domain deltaTime ;;
      ret {| lastFrameTime := timestamp |}
  end.

End Methods.
End Renderer.

(* ===================================================================== *)
(** ** A concrete engine, to run the model on examples                    *)
(* ===================================================================== *)

(** Every theorem below holds for every [JsRuntime].  To evaluate the
    model on concrete inputs one engine is fixed here: [Math.random()]
    replays a given list of draws (and continues with a fixed sequence once
    the list is exhausted), the transcendental functions are truncated
    power series
    (exact at 0, close to the true functions for small arguments), and
    [Math.pow] multiplies, which is exact for the exponents 2 and 20 the
    registry uses. *)
Module Sample.

(** [1 + x/k (1 + x/(k+1) (1 + ...))], [terms] levels deep. *)
Fixpoint expSeries (terms : nat) (k x : float) : float :=
  match terms with
  | O => 1
  | S terms' => 1 + x / k * expSeries terms' (k + 1) x
  end.

Definition exp (x : float) : float := expSeries 30 1 x.

(** [1 - x²/(k(k+1)) (1 - x²/((k+2)(k+3)) (1 - ...))] *)
Fixpoint trigSeries (terms : nat) (k x2 : float) : float :=
  match terms with
  | O => 1
  | S terms' => 1 - x2 / (k * (k + 1)) * trigSeries terms' (k + 2) x2
  end.

Definition cos (x : float) : float := trigSeries 30 1 (x * x).
Definition sin (x : float) : float := x * trigSeries 30 2 (x * x).

Fixpoint powLoop (fuel : nat) (x y : float) : float :=
  match fuel with
  | O => 1
  | S fuel' => if y <? 1 then 1 else x * powLoop fuel' x (y - 1)
  end.

Definition pow (x y : float) : float := powLoop 64 x y.

Fixpoint ofNat (m : nat) : float :=
  match m with
  | O => 0
  | S m' => ofNat m' + 1
  end.

(** A fixed sequence of numbers in [[0, 1)]. *)
Definition pseudo (k : nat) : float := ofNat ((k * 37 + 11) mod 101) / 101.

Definition runtime (draws : list float) : JsRuntime := {|
  Math_exp := exp;
  Math_sin := sin;
  Math_cos := cos;
  Math_pow := pow;
  Math_random := fun k => nth k draws (pseudo k)
|}.

End Sample.

(* ===================================================================== *)
(** ** Vocabulary of the statements                                       *)
(* ===================================================================== *)

(** The elements of [l] other than the one at position [selfIndex], [j]
    being the position of the head of [l]. *)
Fixpoint othersThan {A} (selfIndex j : nat) (l : list A) : list A :=
  match l with
  | [] => []
  | a :: l' =>
      if Nat.eqb j selfIndex then othersThan selfIndex (S j) l'
      else a :: othersThan selfIndex (S j) l'
  end.

(** The phase after the timer part of [updateFlash] when no response is
    pending: it advances by [deltaTime] and wraps to 0 at the interval. *)
Definition advancedPhase (deltaTime : float) (f : Firefly.t) : float :=
  if Firefly.flashInterval f <=? Firefly.flashPhase f + deltaTime
  then 0 else Firefly.flashPhase f + deltaTime.

(** A male flashing brightly within [responseDistance] of [self]. *)
Definition brightMaleNear (self : Firefly.t) (responseDistance : float)
           (other : Firefly.t) : bool :=
  Gender_eqb (Firefly.gender other) male &&
  (0.5 <? Firefly.flashIntensity other) &&
  (Firefly.distanceTo self other <? responseDistance).

(** The distance threshold of a response: a fifth of the larger side of
    the domain. *)
Definition responseDistanceOf (domain : Domain) : float :=
  Math_max (xMax domain - xMin domain) (yMax domain - yMin domain) * 0.2.

(** The receiver of a triggered response whose draw was [u]. *)
Definition triggered (u : float) (f : Firefly.t) : Firefly.t :=
  Firefly.set_isResponding true (Firefly.set_responseDelay (400 + u * 200) f).

(** A body keeps a component of the algorithm when every run, normal or
    not, ends with that component as it found it. *)
Definition keeps {X A} (proj : FireflyAlgorithm.t -> X)
           (m : Js FireflyAlgorithm.t A) : Prop :=
  forall a k, proj (receiver (m a k)) = proj a.

(** A component other than the population is out of reach of a call on a
    firefly. *)
Definition besidePopulation {X} (proj : FireflyAlgorithm.t -> X) : Prop :=
  forall l a, proj (FireflyAlgorithm.set_fireflies l a) = proj a.

Section Runs.
Context {RT : JsRuntime}.

(** [count] calls of [step()] in a row, each on the state the previous
    one left, whether it returned or threw. *)
Fixpoint steps (count : nat) (a : FireflyAlgorithm.t) (k : nat)
  : FireflyAlgorithm.t * nat :=
  match count with
  | O => (a, k)
  | S count' =>
      let r := FireflyAlgorithm.step a k in
      steps count' (receiver r) (cursor r)
  end.
End Runs.

(** The recorded best [new] is the recorded best [old] or a strictly
    better one. *)
Definition sameOrBetter (old new : option Firefly.t) : Prop :=
  match old with
  | None => True
  | Some b =>
      exists b', new = Some b' /\
                 (b' = b \/ (Firefly.value b' <? Firefly.value b) = true)
  end.

(** A firefly whose objective function is bound: [evaluate()] returns. *)
Definition evaluable (f : Firefly.t) : Prop :=
  Firefly.objectiveFunction f <> None.

(** [step()] in the words of its description.  A firefly meets the others
    one after the other and moves towards each one that is brighter than
    the firefly is at that moment; a firefly that met no brighter one
    takes a random walk; the fireflies take their turns in population
    order, each meeting the population as the turns before left it. *)
Section StepInWords.
Context {RT : JsRuntime}.
Variables (beta0 gamma alpha : float) (domain : Domain).

Fixpoint meetOthers (others : list Firefly.t) (moved : bool)
         (f : Firefly.t) (k : nat) : bool * Firefly.t * nat :=
  match others with
  | [] => (moved, f, k)
  | other :: rest =>
      if Firefly.value other <? Firefly.value f then
        let r := Firefly.moveTowards other beta0 gamma alpha domain f k in
        meetOthers rest true (receiver r) (cursor r)
      else meetOthers rest moved f k
  end.

Definition turnOf (others : list Firefly.t) (f : Firefly.t) (k : nat)
  : Firefly.t * nat :=
  match meetOthers others false f k with
  | (true, f', k') => (f', k')
  | (false, f', k') =>
      let r := Firefly.randomWalk (alpha * 0.1) domain f' k' in
      (receiver r, cursor r)
  end.

Fixpoint sweep (done todo : list Firefly.t) (k : nat) : list Firefly.t * nat :=
  match todo with
  | [] => (done, k)
  | f :: rest =>
      let (f', k') := turnOf (done ++ rest) f k in
      sweep (done ++ [f']) rest k'
  end.
End StepInWords.

(** What one firefly's response check reads of another: its gender, its
    intensity and its position. *)
Definition sameToObservers (f f' : Firefly.t) : Prop :=
  Firefly.gender f = Firefly.gender f' /\
  Firefly.flashIntensity f = Firefly.flashIntensity f' /\
  Firefly.x f = Firefly.x f' /\
  Firefly.y f = Firefly.y f'.

(** One tick of the continuous clock in the words of its description:
    every female is checked against the population as the tick found it
    ([snapshot]), and after all the checks every firefly's flash is
    updated. *)
Section TickInWords.
Context {RT : JsRuntime}.
Variable domain : Domain.

Fixpoint checkAgainst (snapshot : list Firefly.t) (i : nat)
         (todo : list Firefly.t) (k : nat) : list Firefly.t * nat :=
  match todo with
  | [] => ([], k)
  | f :: rest =>
      let r := match Firefly.gender f with
               | female => Firefly.checkForNearbyFlash i snapshot domain f k
               | male => (Normal tt, f, k)
               end in
      let (rest', k') := checkAgainst snapshot (S i) rest (cursor r) in
      (receiver r :: rest', k')
  end.

Definition tick (deltaTime : float) (population : list Firefly.t) (k : nat)
  : list Firefly.t * nat :=
  let (checked, k') := checkAgainst population 0 population k in
  (map (fun f => receiver (Firefly.updateFlash deltaTime f k')) checked, k').
End TickInWords.

(** The position [(x, y)] lies within the bounds of [d]. *)
Definition inDomain (d : Domain) (x y : float) : Prop :=
  (xMin d <=? x) = true /\ (x <=? xMax d) = true /\
  (yMin d <=? y) = true /\ (y <=? yMax d) = true.

(** A firefly after the function-change loop of [setParams]: bound to [o],
    clamped to the domain of [o], evaluated under [o]. *)
Definition rebound (o : ObjectiveFunction) (f : Firefly.t) : Firefly.t :=
  let d := domain o in
  let x' := Math_max (xMin d) (Math_min (xMax d) (Firefly.x f)) in
  let y' := Math_max (yMin d) (Math_min (yMax d) (Firefly.y f)) in
  Firefly.set_brightness (- fn o x' y')
    (Firefly.set_value (fn o x' y')
       (Firefly.set_y y'
          (Firefly.set_x x'
             (Firefly.set_objectiveFunction (Some o) f)))).

(** [f'] is [f] rebound to [o]: same firefly (trail, gender and flash
    state), objective function [o], position clamped per axis to the domain
    of [o], value and brightness recomputed there. *)
Definition reboundTo (o : ObjectiveFunction) (f f' : Firefly.t) : Prop :=
  let d := domain o in
  Firefly.objectiveFunction f' = Some o /\
  Firefly.x f' = Math_max (xMin d) (Math_min (xMax d) (Firefly.x f)) /\
  Firefly.y f' = Math_max (yMin d) (Math_min (yMax d) (Firefly.y f)) /\
  Firefly.value f' = fn o (Firefly.x f') (Firefly.y f') /\
  Firefly.brightness f' = - Firefly.value f' /\
  Firefly.trail f' = Firefly.trail f /\
  Firefly.gender f' = Firefly.gender f /\
  Firefly.flashPhase f' = Firefly.flashPhase f /\
  Firefly.flashInterval f' = Firefly.flashInterval f /\
  Firefly.flashDuration f' = Firefly.flashDuration f /\
  Firefly.isFlashing f' = Firefly.isFlashing f /\
  Firefly.flashIntensity f' = Firefly.flashIntensity f /\
  Firefly.responseDelay f' = Firefly.responseDelay f /\
  Firefly.isResponding f' = Firefly.isResponding f /\
  (is_NaN (Firefly.x f) = false -> is_NaN (Firefly.y f) = false ->
   inDomain d (Firefly.x f') (Firefly.y f')).

(** [best] is a member of [l] of least value: no member is strictly
    below it. *)
Definition leastOf (l : list Firefly.t) (best : Firefly.t) : Prop :=
  In best l /\
  forall f, In f l -> (Firefly.value f <? Firefly.value best) = false.

(** The condition of [setParams] on [functionKey], and on [n]. *)
Definition changesFunction (newParams : PartialParams) (a : FireflyAlgorithm.t) : bool :=
  match new_functionKey newParams with
  | Some key =>
      truthy_string key &&
      negb (key =? functionKey (FireflyAlgorithm.params a))%string
  | None => false
  end.

Definition changesSize (newParams : PartialParams) (a : FireflyAlgorithm.t) : bool :=
  match new_n newParams with
  | Some newN =>
      truthy_Z newN && negb (newN =? n (FireflyAlgorithm.params a))%Z
  | None => false
  end.

(** A firefly as [initialize] and the growing [adjustPopulation] build it
    under [o]: at a position drawn per axis across the domain, evaluated
    there, with an empty trail and no flash or response under way. *)
Definition freshUnder {RT : JsRuntime} (o : ObjectiveFunction) (f : Firefly.t) : Prop :=
  let d := domain o in
  (exists j,
      Firefly.x f = xMin d + Math_random j * (xMax d - xMin d) /\
      Firefly.y f = yMin d + Math_random (S j) * (yMax d - yMin d)) /\
  Firefly.objectiveFunction f = Some o /\
  Firefly.value f = fn o (Firefly.x f) (Firefly.y f) /\
  Firefly.brightness f = - Firefly.value f /\
  Firefly.trail f = [] /\
  Firefly.isFlashing f = false /\
  Firefly.flashIntensity f = 0 /\
  Firefly.responseDelay f = 0 /\
  Firefly.isResponding f = false.

(** The population with the position of each member. *)
Definition ranked (l : list Firefly.t) : list (nat * Firefly.t) :=
  combine (seq 0 (List.length l)) l.

(** [p] comes before [q]: its value is lower, or the two tie and [p] stood
    earlier in the population. *)
Definition before (p q : nat * Firefly.t) : Prop :=
  (Firefly.value (snd p) <? Firefly.value (snd q)) = true \/
  ((Firefly.value (snd q) <? Firefly.value (snd p)) = false /\ (fst p < fst q)%nat).

(** Every value of the population is a number. *)
Definition allNumbers (l : list Firefly.t) : bool :=
  forallb (fun f => negb (is_NaN (Firefly.value f))) l.

(** On the population the sign of the comparator is the order of the
    values: [a.value - b.value > 0] exactly when [b.value < a.value].  It
    is so for all binary64 numbers; the specification of the primitive
    floats does not include the fact, so the statements that need it assume
    it of the population at hand, where it can be checked by evaluation. *)
Definition comparatorFaithful (l : list Firefly.t) : bool :=
  forallb (fun a =>
    forallb (fun b =>
      Bool.eqb (0 <? byValue a b) (Firefly.value b <? Firefly.value a)) l) l.


(** A body fails, if it does, with [e0]. *)
Definition failsOnlyWith {T A} (e0 : JsError) (m : Js T A) : Prop :=
  forall t k e, completion (m t k) = Throw e -> e = e0.

(* ===================================================================== *)
(** ** Concrete scenarios                                                 *)
(* ===================================================================== *)

Module Scenario.

(** The algorithm [new FireflyAlgorithm(given)] returns under the engine
    [RT], and the cursor it reached (on a throw: no algorithm, an empty
    one stands in). *)
Definition started (RT : JsRuntime) (given : PartialParams)
  : FireflyAlgorithm.t * nat :=
  match FireflyAlgorithm.new given tt 0%nat with
  | (Normal a, _, k) => (a, k)
  | (Throw _, _, k) =>
      (FireflyAlgorithm.mk (spread {| n := 0; gamma := 0; beta0 := 0; alpha := 0;
                                      functionKey := EmptyString |} given)
                           0 [] None None, k)
  end.

Definition engine : JsRuntime := Sample.runtime [].

Definition onSphere (size : Z) : PartialParams :=
  {| new_n := Some size; new_gamma := None; new_beta0 := None;
     new_alpha := None; new_functionKey := Some "sphere"%string |}.

(** Three fireflies on the sphere function. *)
Definition swarm : FireflyAlgorithm.t := fst (started engine (onSphere 3)).
Definition swarmCursor : nat := snd (started engine (onSphere 3)).

(** Forty fireflies on the sphere function. *)
Definition swarm40 : FireflyAlgorithm.t := fst (started engine (onSphere 40)).
Definition swarm40Cursor : nat := snd (started engine (onSphere 40)).


Definition zeroSize : PartialParams :=
  {| new_n := Some 0%Z; new_gamma := None; new_beta0 := None;
     new_alpha := None; new_functionKey := None |}.

Definition unknownKey : PartialParams :=
  {| new_n := None; new_gamma := None; new_beta0 := None;
     new_alpha := None; new_functionKey := Some "banana"%string |}.

Definition toRosenbrock : PartialParams :=
  {| new_n := None; new_gamma := None; new_beta0 := None;
     new_alpha := None; new_functionKey := Some "rosenbrock"%string |}.

Definition resizeTo (size : Z) : PartialParams :=
  {| new_n := Some size; new_gamma := None; new_beta0 := None;
     new_alpha := None; new_functionKey := None |}.

(** An engine whose first two draws put the first firefly of a sphere
    population on the optimum [(0, 0)]. *)
Definition luckyEngine : JsRuntime := Sample.runtime [0.5; 0.5].
Definition lucky : FireflyAlgorithm.t := fst (started luckyEngine (onSphere 2)).
Definition luckyCursor : nat := snd (started luckyEngine (onSphere 2)).

(** A male in a flash of 200 ms that has just begun, with a trail. *)
Definition flasher : Firefly.t :=
  Firefly.mk 1 2 (Some sphere) (-5) [ {| px := 3; py := 4 |} ] 20 male
             0 2000 200 true 0 0 false 5.

(** A female 1000 ms into an interval of 4000 ms, and a male one unit
    away flashing at intensity 0.6, on the sphere domain (threshold 2). *)
Definition listener : Firefly.t :=
  Firefly.mk 0 0 (Some sphere) 0 [] 20 female 1000 4000 200 false 0 0 false 0.
Definition caller : Firefly.t :=
  Firefly.mk 1 0 (Some sphere) (-1) [] 20 male 30 2000 200 true 0.6 0 false 1.

(** An engine whose first draw is the largest double below 1 but one,
    [1 - 2^-52] (printed [0.9999999999999998]). *)
Definition lateEngine : JsRuntime := Sample.runtime [0x1.ffffffffffffep-1].

End Scenario.

(** Membership of a ranked firefly in a population. *)
Definition memberOf (population : list Firefly.t) (p : nat * Firefly.t) : Prop :=
  In (snd p) population.

(* ===================================================================== *)
(** ** Frames, invariants and the sampled range                           *)
(* ===================================================================== *)

(** A body relates the receiver it leaves to the receiver it found,
    however the call ends. *)
Definition preserves {T A} (R : T -> T -> Prop) (m : Js T A) : Prop :=
  forall t k, R t (receiver (m t k)).

(** Two states of the algorithm compared firefly by firefly: as many
    fireflies, each related to the one at its position. *)
Definition pointwise (R : Firefly.t -> Firefly.t -> Prop)
           (a a' : FireflyAlgorithm.t) : Prop :=
  Forall2 R (FireflyAlgorithm.fireflies a) (FireflyAlgorithm.fireflies a').

(** What the flash clock owns of a firefly: its gender and its flash and
    response state. *)
Definition sameFlashState (f f' : Firefly.t) : Prop :=
  Firefly.gender f' = Firefly.gender f /\
  Firefly.flashPhase f' = Firefly.flashPhase f /\
  Firefly.flashInterval f' = Firefly.flashInterval f /\
  Firefly.flashDuration f' = Firefly.flashDuration f /\
  Firefly.isFlashing f' = Firefly.isFlashing f /\
  Firefly.flashIntensity f' = Firefly.flashIntensity f /\
  Firefly.responseDelay f' = Firefly.responseDelay f /\
  Firefly.isResponding f' = Firefly.isResponding f.

(** What the optimisation owns of a firefly: its position, value,
    brightness, trail and objective function. *)
Definition samePlace (f f' : Firefly.t) : Prop :=
  Firefly.x f' = Firefly.x f /\
  Firefly.y f' = Firefly.y f /\
  Firefly.value f' = Firefly.value f /\
  Firefly.brightness f' = Firefly.brightness f /\
  Firefly.trail f' = Firefly.trail f /\
  Firefly.maxTrailLength f' = Firefly.maxTrailLength f /\
  Firefly.objectiveFunction f' = Firefly.objectiveFunction f.

(** The trail holds no more points than its bound. *)
Definition trailBounded (f : Firefly.t) : Prop :=
  (List.length (Firefly.trail f) <= Firefly.maxTrailLength f)%nat.

(** A firefly that is not flashing gives no light. *)
Definition quiet (f : Firefly.t) : Prop :=
  Firefly.isFlashing f = false -> Firefly.flashIntensity f = 0.

(** A method keeps [P] when its receiver, if it satisfied [P], still
    does. *)
Definition keptBy (P : Firefly.t -> Prop) (f f' : Firefly.t) : Prop := P f -> P f'.

(** A population of fireflies that all satisfy [P] is left as one. *)
Definition stillAll (P : Firefly.t -> Prop) (a a' : FireflyAlgorithm.t) : Prop :=
  Forall P (FireflyAlgorithm.fireflies a) -> Forall P (FireflyAlgorithm.fireflies a').

(** [P] is an invariant of the simulation: the constructor builds a
    population of fireflies satisfying it, and every operation on the
    algorithm, however it ends, leaves such a population as one. *)
Definition simulationInvariant {RT : JsRuntime} (P : Firefly.t -> Prop) : Prop :=
  (forall given k a,
      completion (FireflyAlgorithm.new given tt k) = Normal a ->
      Forall P (FireflyAlgorithm.fireflies a)) /\
  preserves (stillAll P) FireflyAlgorithm.step /\
  (forall newParams, preserves (stillAll P) (FireflyAlgorithm.setParams newParams)) /\
  preserves (stillAll P) FireflyAlgorithm.reset /\
  preserves (stillAll P) FireflyAlgorithm.clearTrails /\
  (forall self timestamp timeScale,
      preserves (stillAll P) (Renderer.render self timestamp timeScale)).

(** A firefly as a move under [o] leaves it: bound to [o], evaluated at
    its position, and with every coordinate that is a number within the
    domain of [o]. *)
Definition settledUnder (o : ObjectiveFunction) (f : Firefly.t) : Prop :=
  Firefly.objectiveFunction f = Some o /\
  Firefly.value f = fn o (Firefly.x f) (Firefly.y f) /\
  Firefly.brightness f = - Firefly.value f /\
  (is_NaN (Firefly.x f) = false ->
   (xMin (domain o) <=? Firefly.x f) = true /\
   (Firefly.x f <=? xMax (domain o)) = true) /\
  (is_NaN (Firefly.y f) = false ->
   (yMin (domain o) <=? Firefly.y f) = true /\
   (Firefly.y f <=? yMax (domain o)) = true).

(** The bounds of a domain are in order on both axes. *)
Definition wellFormed (d : Domain) : Prop :=
  (xMin d <=? xMax d) = true /\ (yMin d <=? yMax d) = true.

(** [other] is strictly brighter than [f]: its value is lower. *)
Definition brighterThan (f other : Firefly.t) : bool :=
  Firefly.value other <? Firefly.value f.

(** [v || d] on an optional parameter: the value given when it is truthy,
    the default otherwise. *)
Definition orDefault {X} (truthy : X -> bool) (v : option X) (d : X) : X :=
  match v with
  | Some a => if truthy a then a else d
  | None => d
  end.

(** The parameters an algorithm constructed from [given] starts with. *)
Definition defaulted (given : PartialParams) : Params :=
  {| n := orDefault truthy_Z (new_n given) 40%Z;
     gamma := orDefault truthy_float (new_gamma given) 1.0;
     beta0 := orDefault truthy_float (new_beta0 given) 1.0;
     alpha := orDefault truthy_float (new_alpha given) 0.2;
     functionKey := orDefault truthy_string (new_functionKey given) "michalewicz"%string |}.

(** The objective function of a firefly is the one it had. *)
Definition sameFunction (f f' : Firefly.t) : Prop :=
  Firefly.objectiveFunction f' = Firefly.objectiveFunction f.

(* ===================================================================== *)
(** ** objective-functions.js: getFunctionRange                           *)
(* ===================================================================== *)

(** The value of a loop counter after [i] increments [i++] from 0. *)
Fixpoint counted (i : nat) : float :=
  match i with
  | O => 0
  | S i' => counted i' + 1
  end.

(** The object [{ min, max }] that [getFunctionRange] returns. *)
Record Range : Type := { range_min : float; range_max : float }.

Section GetFunctionRange.
Context {RT : JsRuntime}.

(** The two tests on one sampled value. *)
Definition widen (value : float) (r : Range) : Range :=
  {| range_min := if value <? range_min r then value else range_min r;
     range_max := if range_max r <? value then value else range_max r |}.

(** The inner loop, from [j] on, with [todo] iterations left. *)
Fixpoint scanColumns (func : ObjectiveFunction) (dx dy i : float)
         (todo : nat) (j : float) (r : Range) : Range :=
  match todo with
  | O => r
  | S todo' =>
      let x := xMin (domain func) + i * dx in
      let y := yMin (domain func) + j * dy in
      let value := fn func x y in
      scanColumns func dx dy i todo' (j + 1) (widen value r)
  end.

(** The outer loop, from [i] on; each inner loop runs from [j = 0] while
    [j <= resolution]. *)
Fixpoint scanRows (func : ObjectiveFunction) (dx dy : float) (resolution : nat)
         (todo : nat) (i : float) (r : Range) : Range :=
  match todo with
  | O => r
  | S todo' =>
      scanRows func dx dy resolution todo' (i + 1)
               (scanColumns func dx dy i (S resolution) 0 r)
  end.

(** [getFunctionRange(funcKey, resolution = 50)].  [resolution] is a
    non-negative integer in every call of the repository (the default,
    and the 100 of the contour plot), far below [2^53], so that the
    loop counters are exact; destructuring an unregistered function is
    a TypeError. *)
Definition getFunctionRange (funcKey : string) (resolution : option nat)
  : Completion Range :=
  let resolution := match resolution with Some v => v | None => 50%nat end in
  match objectiveFunctions funcKey with
  | None => Throw TypeError
  | Some func =>
      let d := domain func in
      let dx := (xMax d - xMin d) / counted resolution in
      let dy := (yMax d - yMin d) / counted resolution in
      Normal (scanRows func dx dy resolution (S resolution) 0
                       {| range_min := infinity; range_max := neg_infinity |})
  end.

(** The value sampled at the grid point [(i, j)]. *)
Definition sampleAt (func : ObjectiveFunction) (resolution i j : nat) : float :=
  let d := domain func in
  let dx := (xMax d - xMin d) / counted resolution in
  let dy := (yMax d - yMin d) / counted resolution in
  fn func (xMin d + counted i * dx) (yMin d + counted j * dy).
End GetFunctionRange.

(** A bound of a range is the one the scan started from, or a value
    sampled on the grid. *)
Definition attained {RT : JsRuntime} (func : ObjectiveFunction) (resolution : nat)
           (initial bound : float) : Prop :=
  bound = initial \/
  exists i j, (i <= resolution)%nat /\ (j <= resolution)%nat /\
              bound = sampleAt func resolution i j.

(** Both bounds of the range are numbers. *)
Definition numeric (r : Range) : Prop :=
  is_NaN (range_min r) = false /\ is_NaN (range_max r) = false.

(** The range [r] brackets [v]: [v] is neither below [min] nor above
    [max]. *)
Definition brackets (r : Range) (v : float) : Prop :=
  (v <? range_min r) = false /\ (range_max r <? v) = false.

(** The population has the size the parameters say. *)
Definition sizeConsistent (a : FireflyAlgorithm.t) : Prop :=
  Z.of_nat (List.length (FireflyAlgorithm.fireflies a)) = n (FireflyAlgorithm.params a).

(** Any two fireflies: the relation that compares populations by size
    only. *)
Definition anyFirefly (f f' : Firefly.t) : Prop := True.

(** The number of females in a population. *)
Definition females (l : list Firefly.t) : nat :=
  List.length (filter (fun f => Gender_eqb (Firefly.gender f) female) l).

(** Two numbers that compare equal: neither is below the other ([+0] and
    [-0] are such a pair). *)
Definition sameNumber (a b : float) : Prop :=
  (a <? b) = false /\ (b <? a) = false.

(** Only a female waits to respond or responds. *)
Definition femaleResponder (f : Firefly.t) : Prop :=
  Firefly.isResponding f = true -> Firefly.gender f = female.

(** Two records of the best agree on what [getStats] reports of them:
    value and position. *)
Definition sameRecord (b b' : option Firefly.t) : Prop :=
  match b, b' with
  | None, None => True
  | Some c, Some c' =>
      Firefly.value c' = Firefly.value c /\
      Firefly.x c' = Firefly.x c /\ Firefly.y c' = Firefly.y c
  | _, _ => False
  end.

(** Two states of the algorithm that differ at most in the gender and the
    flash and response state of their fireflies. *)
Definition sameOptimisation (a a' : FireflyAlgorithm.t) : Prop :=
  pointwise samePlace a a' /\
  FireflyAlgorithm.params a' = FireflyAlgorithm.params a /\
  FireflyAlgorithm.generation a' = FireflyAlgorithm.generation a /\
  FireflyAlgorithm.objectiveFunction a' = FireflyAlgorithm.objectiveFunction a /\
  sameRecord (FireflyAlgorithm.bestFirefly a) (FireflyAlgorithm.bestFirefly a').

(* ===================================================================== *)
(** ** More concrete cases                                                *)
(* ===================================================================== *)

Module Cases.
Import Scenario.

(** The firefly at position [i] of the three-firefly swarm. *)
Definition swarmMember (i : nat) : Firefly.t :=
  nth i (FireflyAlgorithm.fireflies swarm) flasher.


(** The female of the response example, triggered with a delay of 500
    ms. *)
Definition waiting : Firefly.t := triggered 0.5 listener.

(** A renderer that has drawn no frame yet. *)
Definition firstFrame : Renderer.t := {| Renderer.lastFrameTime := 0 |}.

(** A position outside the sphere domain on both axes. *)
Definition stray : Firefly.t :=
  Firefly.mk 7 (-9) (Some sphere) 0 [] 20 male 0 2000 200 false 0 0 false 130.

(** The three-firefly swarm with every firefly flashing. *)
Definition lit : FireflyAlgorithm.t :=
  FireflyAlgorithm.set_fireflies
    (map (Firefly.set_isFlashing true) (FireflyAlgorithm.fireflies swarm)) swarm.

End Cases.

(** Unfolding the operations of method bodies. *)
Ltac js_unfold :=
  unfold when, on, random, completion, receiver, cursor, bind, this, assign,
         throw, ret in *.

(** Splitting a conjunction into its parts (and nothing else). *)
Ltac split_all := repeat match goal with |- _ /\ _ => split end.

(* ===================================================================== *)
(** * Properties                                                          *)
(* ===================================================================== *)

(** ** Order on binary64 values *)

Section FloatOrder.

Lemma SFcompare_Lt_trans (a b c : spec_float) :
  SFcompare a b = Some Lt -> SFcompare b c = Some Lt -> SFcompare a c = Some Lt.
Proof.
  destruct a as [sa|sa| |sa ma ea], b as [sb|sb| |sb mb eb], c as [sc|sc| |sc mc ec];
    try destruct sa; try destruct sb; try destruct sc; simpl;
    try discriminate; try reflexivity; intros H1 H2.
  all: injection H1 as H1; injection H2 as H2; f_equal.
  all: destruct (Z.compare_spec ea eb); try discriminate;
       destruct (Z.compare_spec eb ec); try discriminate;
       destruct (Z.compare_spec ea ec); try reflexivity; try lia; subst.
  all: rewrite ?Pos.compare_cont_spec in *; simpl in *.
  all: destruct (Pos.compare_spec ma mb); try discriminate;
       destruct (Pos.compare_spec mb mc); try discriminate;
       destruct (Pos.compare_spec ma mc); try reflexivity; try lia.
Qed.

Lemma SFcompare_Lt_irrefl (a : spec_float) : SFcompare a a <> Some Lt.
Proof.
  destruct a as [sa|sa| |sa ma ea]; try destruct sa; simpl; try discriminate.
  all: rewrite Z.compare_refl, Pos.compare_cont_spec, Pos.compare_refl; discriminate.
Qed.

Lemma ltb_trans (a b c : float) :
  (a <? b) = true -> (b <? c) = true -> (a <? c) = true.
Proof.
  rewrite !ltb_spec. unfold SFltb. intros H1 H2.
  destruct (SFcompare (Prim2SF a) (Prim2SF b)) as [[]|] eqn:E1; try discriminate.
  destruct (SFcompare (Prim2SF b) (Prim2SF c)) as [[]|] eqn:E2; try discriminate.
  now rewrite (SFcompare_Lt_trans _ _ _ E1 E2).
Qed.

Lemma ltb_irrefl (a : float) : (a <? a) = false.
Proof.
  rewrite ltb_spec. unfold SFltb.
  destruct (SFcompare (Prim2SF a) (Prim2SF a)) as [[]|] eqn:E; try reflexivity.
  now apply SFcompare_Lt_irrefl in E.
Qed.

Lemma ltb_asym (a b : float) : (a <? b) = true -> (b <? a) = false.
Proof.
  intros H. destruct (b <? a) eqn:E; [|reflexivity].
  rewrite <- (ltb_irrefl a). symmetry. now apply ltb_trans with b.
Qed.

Lemma SFcompare_antisym (a b : spec_float) :
  SFcompare b a = option_map CompOpp (SFcompare a b).
Proof.
  destruct a as [sa|sa| |sa ma ea], b as [sb|sb| |sb mb eb];
    try destruct sa; try destruct sb; simpl; try reflexivity.
  all: rewrite (Z.compare_antisym ea eb), !Pos.compare_cont_spec; simpl;
       rewrite (Pos.compare_antisym ma mb).
  all: destruct (ea ?= eb)%Z; simpl; try reflexivity;
       destruct (ma ?= mb)%positive; reflexivity.
Qed.

Lemma leb_not_ltb (a b : float) : (a <=? b) = true -> (b <? a) = false.
Proof.
  rewrite leb_spec, ltb_spec. unfold SFleb, SFltb.
  rewrite (SFcompare_antisym (Prim2SF a) (Prim2SF b)).
  destruct (SFcompare (Prim2SF a) (Prim2SF b)) as [[]|]; simpl; congruence.
Qed.

Lemma ltb_leb (a b : float) : (a <? b) = true -> (a <=? b) = true.
Proof.
  rewrite leb_spec, ltb_spec. unfold SFleb, SFltb.
  destruct (SFcompare (Prim2SF a) (Prim2SF b)) as [[]|]; simpl; congruence.
Qed.

(** Among numbers, [<] and [>=] are complementary. *)
Lemma not_ltb_leb (a b : float) :
  is_NaN a = false -> is_NaN b = false -> (a <? b) = false -> (b <=? a) = true.
Proof.
  unfold is_NaN. rewrite !FloatAxioms.eqb_spec, leb_spec, ltb_spec. unfold SFeqb, SFleb, SFltb.
  rewrite (SFcompare_antisym (Prim2SF a) (Prim2SF b)).
  destruct (Prim2SF a) as [sa|sa| |sa ma ea], (Prim2SF b) as [sb|sb| |sb mb eb];
    simpl; try discriminate; intros _ _;
    try destruct sa; try destruct sb; simpl; try congruence.
  all: destruct (ea ?= eb)%Z; simpl; try congruence;
       destruct (Pos.compare_cont Eq ma mb); simpl; congruence.
Qed.

Lemma leb_refl (a : float) : is_NaN a = false -> (a <=? a) = true.
Proof.
  intros H. apply not_ltb_leb; auto using ltb_irrefl.
Qed.

Lemma SFcompare_Eq_Lt_trans (a b c : spec_float) :
  SFcompare a b = Some Eq -> SFcompare b c = Some Lt -> SFcompare a c = Some Lt.
Proof.
  destruct a as [sa|sa| |sa ma ea], b as [sb|sb| |sb mb eb], c as [sc|sc| |sc mc ec];
    try destruct sa; try destruct sb; try destruct sc; simpl;
    try discriminate; try reflexivity; intros H1 H2.
  all: injection H1 as H1; injection H2 as H2; f_equal.
  all: destruct (Z.compare_spec ea eb); try discriminate;
       destruct (Z.compare_spec eb ec); try discriminate;
       destruct (Z.compare_spec ea ec); try reflexivity; try lia; subst.
  all: rewrite ?Pos.compare_cont_spec in *; simpl in *.
  all: destruct (Pos.compare_spec ma mb); try discriminate;
       destruct (Pos.compare_spec mb mc); try discriminate;
       destruct (Pos.compare_spec ma mc); try reflexivity; try lia.
Qed.

(** Among numbers, [a <= b < c] gives [a < c]. *)
Lemma not_ltb_ltb_trans (a b c : float) :
  is_NaN a = false -> is_NaN b = false ->
  (b <? a) = false -> (b <? c) = true -> (a <? c) = true.
Proof.
  unfold is_NaN. rewrite !FloatAxioms.eqb_spec, !ltb_spec. unfold SFeqb, SFltb.
  rewrite (SFcompare_antisym (Prim2SF a) (Prim2SF b)).
  intros Ha Hb Hba Hbc.
  destruct (SFcompare (Prim2SF b) (Prim2SF c)) as [[]|] eqn:Ebc; try discriminate.
  destruct (SFcompare (Prim2SF a) (Prim2SF b)) as [[]|] eqn:Eab; simpl in Hba;
    try discriminate.
  - now rewrite (SFcompare_Eq_Lt_trans _ _ _ Eab Ebc).
  - now rewrite (SFcompare_Lt_trans _ _ _ Eab Ebc).
  - exfalso. destruct (Prim2SF a) as [sa|sa| |sa ma ea],
      (Prim2SF b) as [sb|sb| |sb mb eb]; simpl in *; discriminate.
Qed.

Lemma leb_numbers (a b : float) :
  (a <=? b) = true -> is_NaN a = false /\ is_NaN b = false.
Proof.
  unfold is_NaN. rewrite !FloatAxioms.eqb_spec, leb_spec. unfold SFeqb, SFleb.
  destruct (Prim2SF a) as [sa|sa| |sa ma ea], (Prim2SF b) as [sb|sb| |sb mb eb];
    simpl; try discriminate; intros _;
    try destruct sa; try destruct sb; simpl; split; try reflexivity.
  all: now rewrite Z.compare_refl, Pos.compare_cont_refl.
Qed.

(** [Math.max(lo, Math.min(hi, v))] lies between [lo] and [hi] when
    [lo <= hi] and [v] is a number. *)
Lemma clamp_between (lo hi v : float) :
  (lo <=? hi) = true -> is_NaN v = false ->
  (lo <=? Math_max lo (Math_min hi v)) = true /\
  (Math_max lo (Math_min hi v) <=? hi) = true.
Proof.
  intros Hlh Hv. destruct (leb_numbers Hlh) as [Hlo Hhi].
  assert (Hm : is_NaN (Math_min hi v) = false /\ (Math_min hi v <=? hi) = true).
  { unfold Math_min. rewrite Hhi, Hv. simpl.
    destruct (hi <? v) eqn:E1; [auto using leb_refl|].
    destruct (v <? hi) eqn:E2; [auto using ltb_leb|].
    destruct (is_negative_zero hi); auto using leb_refl, not_ltb_leb. }
  destruct Hm as [Hm Hmh]. unfold Math_max. rewrite Hlo, Hm. simpl.
  destruct (lo <? Math_min hi v) eqn:E1; [auto using ltb_leb|].
  destruct (Math_min hi v <? lo) eqn:E2; [auto using leb_refl|].
  destruct (is_negative_zero lo); auto using leb_refl, not_ltb_leb.
Qed.

End FloatOrder.

(** ** Lists *)

Section Lists.
Variable A : Type.

Lemma othersThan_past (i : nat) (l : list A) :
  forall j, (i < j)%nat -> othersThan i j l = l.
Proof.
  induction l as [|a l IH]; intros j Hj; simpl; [reflexivity|].
  destruct (Nat.eqb_spec j i); [lia|]. f_equal. apply IH. lia.
Qed.

Lemma othersThan_upto (pre post : list A) (a : A) :
  forall j, othersThan (j + List.length pre) j (pre ++ a :: post) = pre ++ post.
Proof.
  induction pre as [|b pre IH]; intros j; simpl.
  - rewrite Nat.add_0_r, Nat.eqb_refl. apply othersThan_past. lia.
  - destruct (Nat.eqb_spec j (j + S (List.length pre))); [lia|].
    f_equal. rewrite <- Nat.add_succ_comm. apply IH.
Qed.

(** Leaving out the element at its position. *)
Lemma othersThan_split (pre post : list A) (a : A) :
  othersThan (List.length pre) 0 (pre ++ a :: post) = pre ++ post.
Proof. exact (othersThan_upto pre post a 0). Qed.

Lemma store_split (pre post : list A) (a b : A) :
  store (List.length pre) b (pre ++ a :: post) = pre ++ b :: post.
Proof.
  induction pre as [|c pre IH]; simpl; [reflexivity|]. now rewrite IH.
Qed.

Lemma nth_error_middle (pre post : list A) (a : A) :
  nth_error (pre ++ a :: post) (List.length pre) = Some a.
Proof.
  induction pre as [|c pre IH]; simpl; [reflexivity|]. exact IH.
Qed.

End Lists.

(** ** Running method bodies *)

Section FireflyMethods.
Context {RT : JsRuntime}.

(** The constructor succeeds on a bound objective function, after four
    draws. *)
Lemma new_normal {T} x0 y0 o (t : T) k :
  exists f,
    Firefly.new x0 y0 (Some o) t k = (Normal f, t, (k + 4)%nat) /\
    Firefly.x f = x0 /\ Firefly.y f = y0 /\
    Firefly.objectiveFunction f = Some o /\
    Firefly.value f = fn o x0 y0 /\
    Firefly.brightness f = - fn o x0 y0 /\
    Firefly.trail f = [] /\ Firefly.maxTrailLength f = 20%nat /\
    Firefly.isFlashing f = false /\ Firefly.flashIntensity f = 0 /\
    Firefly.responseDelay f = 0 /\ Firefly.isResponding f = false.
Proof.
  unfold Firefly.new, Firefly.evaluate. js_unfold. simpl.
  replace (S (S (S (S k)))) with (k + 4)%nat by lia.
  eexists. split; [reflexivity|]. simpl. repeat split.
Qed.

(** [clone()] on a bound objective function: a new object with the
    copied fields and the constructor's empty trail; the receiver is
    untouched. *)
Lemma clone_runs (f : Firefly.t) (o : ObjectiveFunction) (k : nat) :
  Firefly.objectiveFunction f = Some o ->
  exists c,
    Firefly.clone f k = (Normal c, f, (k + 4)%nat) /\
    Firefly.x c = Firefly.x f /\ Firefly.y c = Firefly.y f /\
    Firefly.value c = Firefly.value f /\
    Firefly.brightness c = Firefly.brightness f /\
    Firefly.gender c = Firefly.gender f /\
    Firefly.flashPhase c = Firefly.flashPhase f /\
    Firefly.flashInterval c = Firefly.flashInterval f /\
    Firefly.flashDuration c = Firefly.flashDuration f /\
    Firefly.isFlashing c = Firefly.isFlashing f /\
    Firefly.flashIntensity c = Firefly.flashIntensity f /\
    Firefly.responseDelay c = Firefly.responseDelay f /\
    Firefly.isResponding c = Firefly.isResponding f /\
    Firefly.objectiveFunction c = Firefly.objectiveFunction f /\
    Firefly.trail c = [].
Proof.
  intros Ho. unfold Firefly.clone.
  destruct (new_normal (Firefly.x f) (Firefly.y f) o f k)
    as (g & Hg & Hx & Hy & Hof & _ & _ & Htr & _).
  js_unfold. rewrite Ho, Hg. eexists. split; [reflexivity|].
  simpl. rewrite Hx, Hy, Hof, Htr. repeat split.
Qed.

End FireflyMethods.

(** ** The flash envelope *)

Section FlashEnvelope.
Context {RT : JsRuntime}.

(** [updateFlash] neither throws nor draws. *)
Lemma updateFlash_normal (deltaTime : float) (f : Firefly.t) (k : nat) :
  exists f', Firefly.updateFlash deltaTime f k = (Normal tt, f', k).
Proof.
  unfold Firefly.updateFlash. js_unfold.
  repeat match goal with
         | |- context [if ?c then _ else _] => destruct c; simpl
         end; eexists; reflexivity.
Qed.

Lemma updateFlash_flashing (deltaTime : float) (f : Firefly.t) (k : nat) :
  Firefly.isFlashing f = true ->
  Firefly.isResponding f = false \/ (0 <? Firefly.responseDelay f) = false ->
  negb (Firefly.isResponding f) || (Firefly.responseDelay f <=? 0) = true ->
  let t := advancedPhase deltaTime f / Firefly.flashDuration f in
  let f1 := Firefly.set_flashPhase (advancedPhase deltaTime f) f in
  Firefly.updateFlash deltaTime f k =
  (Normal tt,
   (if t <? 0.2 then Firefly.set_flashIntensity (t / 0.2) f1
    else if t <? 1.0 then Firefly.set_flashIntensity (Math_exp (-3 * (t - 0.2))) f1
    else Firefly.set_isResponding false
           (Firefly.set_flashIntensity 0 (Firefly.set_isFlashing false f1))),
   k).
Proof.
  intros Hfl Hwait Hrun t f1. subst t f1.
  unfold Firefly.updateFlash, advancedPhase. js_unfold.
  assert (E : Firefly.isResponding f && (0 <? Firefly.responseDelay f) = false)
    by (destruct Hwait as [-> | ->]; [reflexivity | apply andb_false_r]).
  rewrite E. cbv beta iota. rewrite Hrun. cbv beta iota.
  destruct f; simpl in *; subst.
  destruct (flashInterval <=? flashPhase + deltaTime); simpl;
    repeat match goal with
           | |- context [if ?c then _ else _] => destruct c; simpl
           end; reflexivity.
Qed.

(** C7. While a flash is in progress (and no response is pending), one
    [updateFlash] advances the phase and sets, with [t = phase/duration]:
    intensity [t/0.2] when [t < 0.2]; intensity [exp(-3(t-0.2))] when
    [0.2 <= t < 1]; and when [t >= 1] the flash ends with [isFlashing]
    false and intensity 0.  Worked example: with duration 200, entered at
    phase 0, [updateFlash(40)] gives phase 40, [t = 0.2] and intensity
    [exp(-0) = 1]; a further [updateFlash(60)] gives phase 100, [t = 0.5]
    and intensity [exp(-3 (0.5 - 0.2))]. *)
Theorem flash_envelope :
  (forall (deltaTime : float) (f : Firefly.t) (k : nat),
      Firefly.isFlashing f = true ->
      Firefly.isResponding f = false \/ Firefly.responseDelay f = 0 ->
      let r := Firefly.updateFlash deltaTime f k in
      let f' := receiver r in
      let t := Firefly.flashPhase f' / Firefly.flashDuration f' in
      completion r = Normal tt /\
      Firefly.flashPhase f' = advancedPhase deltaTime f /\
      Firefly.flashDuration f' = Firefly.flashDuration f /\
      ((t <? 0.2) = true ->
       Firefly.isFlashing f' = true /\ Firefly.flashIntensity f' = t / 0.2) /\
      ((0.2 <=? t) = true -> (t <? 1.0) = true ->
       Firefly.isFlashing f' = true /\
       Firefly.flashIntensity f' = Math_exp (-3 * (t - 0.2))) /\
      ((1.0 <=? t) = true ->
       Firefly.isFlashing f' = false /\ Firefly.flashIntensity f' = 0 /\
       Firefly.isResponding f' = false)) /\
  (forall (f : Firefly.t) (k : nat),
      Firefly.isFlashing f = true ->
      Firefly.isResponding f = false ->
      Firefly.flashDuration f = 200 ->
      Firefly.flashPhase f = 0 ->
      (Firefly.flashInterval f <=? 40) = false ->
      (Firefly.flashInterval f <=? 100) = false ->
      Math_exp (-0) = 1 ->
      let f1 := receiver (Firefly.updateFlash 40 f k) in
      let f2 := receiver (Firefly.updateFlash 60 f1 k) in
      Firefly.flashPhase f1 = 40 /\
      Firefly.flashPhase f1 / Firefly.flashDuration f1 = 0.2 /\
      Firefly.flashIntensity f1 = 1 /\
      Firefly.isFlashing f1 = true /\
      Firefly.flashPhase f2 = 100 /\
      Firefly.flashPhase f2 / Firefly.flashDuration f2 = 0.5 /\
      Firefly.flashIntensity f2 = Math_exp (-3 * (0.5 - 0.2)) /\
      Firefly.isFlashing f2 = true).
Proof.
  split.
  - intros deltaTime f k Hfl Hresp r f' t. subst t f' r.
    rewrite updateFlash_flashing; trivial.
    + unfold completion, receiver; simpl.
      set (p := advancedPhase deltaTime f).
      destruct (p / Firefly.flashDuration f <? 0.2) eqn:E1;
        [|destruct (p / Firefly.flashDuration f <? 1.0) eqn:E2]; simpl;
        rewrite ?E1, ?E2.
      all: repeat split; trivial; intros; try discriminate.
      all: try (match goal with H : (_ <=? _) = true |- _ =>
                  apply leb_not_ltb in H; congruence end).
      all: exfalso.
      all: match goal with H : (1 <=? _) = true |- _ =>
             apply leb_not_ltb in H;
             rewrite (@ltb_trans _ 0.2 1 E1 eq_refl) in H; discriminate
           end.
    + destruct Hresp as [-> | ->]; auto.
    + destruct Hresp as [-> | ->]; [reflexivity | apply orb_true_r].
  - intros f k Hfl Hresp Hdur Hph Hint40 Hint100 Hexp f1 f2.
    assert (E1 : f1 = Firefly.set_flashIntensity 1 (Firefly.set_flashPhase 40 f)).
    { subst f1. rewrite updateFlash_flashing; auto; [|rewrite Hresp; reflexivity].
      unfold advancedPhase, receiver. rewrite Hph, Hdur.
      change (0 + 40) with 40. rewrite Hint40.
      change (40 / 200 <? 0.2) with false.
      change (40 / 200 <? 1.0) with true.
      change (Math_exp (-3 * (40 / 200 - 0.2))) with (Math_exp (-0)).
      now rewrite Hexp. }
    assert (E2 : f2 = Firefly.set_flashIntensity (Math_exp (-3 * (0.5 - 0.2)))
                        (Firefly.set_flashPhase 100 f1)).
    { subst f2. rewrite updateFlash_flashing; rewrite E1; simpl; auto;
        [|rewrite Hresp; reflexivity].
      unfold advancedPhase, receiver. simpl. rewrite Hdur.
      change (40 + 60) with 100. rewrite Hint100.
      change (100 / 200 <? 0.2) with false.
      change (100 / 200 <? 1.0) with true.
      change (100 / 200) with 0.5. reflexivity. }
    rewrite E2, E1. simpl. rewrite Hdur. repeat split; assumption.
Qed.
End FlashEnvelope.

(** ** The response trigger *)

Section ResponseTrigger.
Context {RT : JsRuntime}.

(** The scan triggers exactly when some male other than the receiver
    qualifies, and then draws once. *)
Lemma scanForMale_spec (selfIndex : nat) (responseDistance : float)
      (others : list Firefly.t) :
  forall (j : nat) (f : Firefly.t) (k : nat),
    Firefly.scanForMale selfIndex j others responseDistance f k =
    if existsb (brightMaleNear f responseDistance) (othersThan selfIndex j others)
    then (Normal tt, triggered (Math_random k) f, S k)
    else (Normal tt, f, k).
Proof.
  induction others as [|other rest IH]; intros j f k; simpl.
  - reflexivity.
  - destruct (Nat.eqb j selfIndex); simpl; [apply IH|].
    unfold brightMaleNear at 1.
    destruct (Gender_eqb (Firefly.gender other) male); simpl; [|apply IH].
    destruct (0.5 <? Firefly.flashIntensity other); simpl; [|apply IH].
    js_unfold.
    destruct (Firefly.distanceTo f other <? responseDistance); simpl; [reflexivity|].
    apply IH.
Qed.

(** The receiver, a female, never qualifies: whether the scan leaves
    it out changes nothing. *)
Lemma existsb_othersThan_self (f : Firefly.t) (responseDistance : float)
      (selfIndex : nat) (l : list Firefly.t) :
  Firefly.gender f = female ->
  nth_error l selfIndex = Some f ->
  existsb (brightMaleNear f responseDistance) (othersThan selfIndex 0 l) =
  existsb (brightMaleNear f responseDistance) l.
Proof.
  intros Hg Hn. destruct (nth_error_split l selfIndex Hn) as (pre & post & -> & <-).
  assert (Hf : brightMaleNear f responseDistance f = false)
    by (unfold brightMaleNear; now rewrite Hg).
  rewrite othersThan_split, !existsb_app. simpl. now rewrite Hf.
Qed.

(** C8. [checkForNearbyFlash] returns without effect for a receiver that
    is not female, is flashing, is responding, or whose natural flash is
    less than 500 ms away.  Otherwise, if some male other than the
    receiver has intensity above 0.5 and is nearer than a fifth of the
    larger domain side, the receiver gets [isResponding = true] and
    [responseDelay = 400 + u * 200] for one draw [u] of [Math.random()],
    the only draw of the call; if there is none the receiver is
    unchanged and nothing is drawn.  The delay is 400 at [u = 0] and, the
    sum being rounded to a double, already 600 at [u = 1 - 2^-52]. *)
Theorem checkForNearbyFlash_spec
        (selfIndex : nat) (fireflies : list Firefly.t) (domain : Domain)
        (f : Firefly.t) (k : nat) :
  let r := Firefly.checkForNearbyFlash selfIndex fireflies domain f k in
  let candidates := othersThan selfIndex 0 fireflies in
  completion r = Normal tt /\
  (Firefly.gender f <> female \/ Firefly.isFlashing f = true \/
   Firefly.isResponding f = true \/
   (Firefly.flashInterval f - Firefly.flashPhase f <? 500) = true ->
   receiver r = f /\ cursor r = k) /\
  (Firefly.gender f = female -> Firefly.isFlashing f = false ->
   Firefly.isResponding f = false ->
   (Firefly.flashInterval f - Firefly.flashPhase f <? 500) = false ->
   (existsb (brightMaleNear f (responseDistanceOf domain)) candidates = true ->
    receiver r = triggered (Math_random k) f /\ cursor r = S k) /\
   (existsb (brightMaleNear f (responseDistanceOf domain)) candidates = false ->
    receiver r = f /\ cursor r = k) /\
   (nth_error fireflies selfIndex = Some f ->
    existsb (brightMaleNear f (responseDistanceOf domain)) candidates =
    existsb (brightMaleNear f (responseDistanceOf domain)) fireflies)) /\
  Firefly.responseDelay (triggered 0 f) = 400 /\
  Firefly.responseDelay (triggered 0x1.ffffffffffffep-1 f) = 600.
Proof.
  intros r candidates. subst r candidates.
  cut (forall A B C D E : Prop, D -> E -> A /\ B /\ C -> A /\ B /\ C /\ D /\ E);
    [intros Hcut; apply Hcut; [reflexivity | reflexivity |]; clear Hcut
    | tauto].
  unfold Firefly.checkForNearbyFlash. js_unfold. cbv beta iota zeta.
  fold (responseDistanceOf domain).
  destruct (Firefly.gender f) eqn:Hg; simpl.
  - repeat split; trivial; discriminate.
  - destruct (Firefly.isFlashing f) eqn:Hfl; simpl;
      [repeat split; trivial; discriminate|].
    destruct (Firefly.isResponding f) eqn:Hre; simpl;
      [repeat split; trivial; discriminate|].
    destruct (Firefly.flashInterval f - Firefly.flashPhase f <? 500) eqn:Hnext;
      [repeat split; trivial; discriminate|].
    rewrite scanForMale_spec.
    destruct (existsb _ _) eqn:He; simpl.
    all: repeat split; trivial; try discriminate.
    all: try match goal with
             | H : _ \/ _ |- _ => destruct H as [H|[H|[H|H]]]; congruence
             end.
    all: intros Hn; rewrite <- He; now apply existsb_othersThan_self.
Qed.
End ResponseTrigger.

(** ** What the population loops leave alone *)

Section Frames.
Context {RT : JsRuntime}.
Import FireflyAlgorithm.

Lemma keeps_ret {X A} (proj : FireflyAlgorithm.t -> X) (v : A) : keeps proj (ret v).
Proof. intros a k. reflexivity. Qed.

Lemma keeps_throw {X A} (proj : FireflyAlgorithm.t -> X) e :
  keeps proj (throw e : Js _ A).
Proof. intros a k. reflexivity. Qed.

Lemma keeps_this {X} (proj : FireflyAlgorithm.t -> X) : keeps proj this.
Proof. intros a k. reflexivity. Qed.

Lemma keeps_random {X} (proj : FireflyAlgorithm.t -> X) : keeps proj random.
Proof. intros a k. reflexivity. Qed.

Lemma keeps_bind {X A B} (proj : FireflyAlgorithm.t -> X)
      (m : Js FireflyAlgorithm.t A) (f : A -> Js FireflyAlgorithm.t B) :
  keeps proj m -> (forall v, keeps proj (f v)) -> keeps proj (bind m f).
Proof.
  intros Hm Hf a k. unfold bind. specialize (Hm a k). unfold receiver in *.
  destruct (m a k) as [[[v|e] a'] k']; simpl in *.
  - etransitivity; [exact (Hf v a' k') | exact Hm].
  - exact Hm.
Qed.

Lemma keeps_when {X} (proj : FireflyAlgorithm.t -> X) c m :
  keeps proj m -> keeps proj (when c m).
Proof. destruct c; simpl; auto using keeps_ret. Qed.

Lemma keeps_on {X U A} (proj : FireflyAlgorithm.t -> X) (obj : U) (m : Js U A) :
  keeps proj (on obj m).
Proof.
  intros a k. unfold on, receiver. now destruct (m obj k) as [[[v|e] u'] k'].
Qed.

Lemma keeps_assign {X} (proj : FireflyAlgorithm.t -> X) g :
  (forall a, proj (g a) = proj a) -> keeps proj (assign g).
Proof. intros H a k. apply H. Qed.

Lemma keeps_onFirefly {X A} (proj : FireflyAlgorithm.t -> X) i (m : Js Firefly.t A) :
  besidePopulation proj -> keeps proj (onFirefly i m).
Proof.
  intros H a k. unfold onFirefly, receiver.
  destruct (nth_error (fireflies a) i) as [f|]; [|reflexivity].
  destruct (m f k) as [[c f'] k']. apply H.
Qed.

Lemma beside_bestFirefly : besidePopulation bestFirefly.
Proof. intros l a. reflexivity. Qed.
Lemma beside_generation : besidePopulation generation.
Proof. intros l a. reflexivity. Qed.
Lemma beside_params : besidePopulation params.
Proof. intros l a. reflexivity. Qed.
Lemma beside_objectiveFunction : besidePopulation objectiveFunction.
Proof. intros l a. reflexivity. Qed.

Lemma store_length {A} i (v : A) l : List.length (store i v l) = List.length l.
Proof.
  revert i; induction l as [|b l IH]; intros [|i]; simpl; auto.
Qed.

(** A call on a firefly keeps the size of the population. *)
Lemma keeps_size_onFirefly {A} i (m : Js Firefly.t A) :
  keeps (fun a => List.length (fireflies a)) (onFirefly i m).
Proof.
  intros a k. unfold onFirefly, receiver.
  destruct (nth_error (fireflies a) i) as [f|]; [|reflexivity].
  destruct (m f k) as [[c f'] k']. simpl. apply store_length.
Qed.

Section Loops.
Context {X : Type} (proj : FireflyAlgorithm.t -> X).
Hypothesis beside : besidePopulation proj.

Lemma keeps_compareWithOthers b0 g al d i todo :
  forall j moved, keeps proj (compareWithOthers b0 g al d i j todo moved).
Proof.
  induction todo as [|todo IH]; intros j moved; simpl.
  - apply keeps_ret.
  - destruct (Nat.eqb i j); [apply IH|].
    apply keeps_bind; [apply keeps_this|]. intros a.
    destruct (nth_error (fireflies a) i) as [f|]; [|apply keeps_throw].
    destruct (nth_error (fireflies a) j) as [o|]; [|apply keeps_throw].
    destruct (_ <? _); [|apply IH].
    apply keeps_bind; [now apply keeps_onFirefly|]. intros _. apply IH.
Qed.

Lemma keeps_moveFireflies b0 g al d todo :
  forall i, keeps proj (moveFireflies b0 g al d i todo).
Proof.
  induction todo as [|todo IH]; intros i; simpl.
  - apply keeps_ret.
  - apply keeps_bind; [apply keeps_this|]. intros a.
    apply keeps_bind; [apply keeps_compareWithOthers|]. intros moved.
    apply keeps_bind; [|intros _; apply IH].
    apply keeps_when. now apply keeps_onFirefly.
Qed.

Lemma keeps_checkResponses d todo :
  forall i, keeps proj (Renderer.checkResponses d i todo).
Proof.
  induction todo as [|todo IH]; intros i; simpl.
  - apply keeps_ret.
  - apply keeps_bind; [apply keeps_this|]. intros a.
    destruct (nth_error (fireflies a) i) as [f|]; [|apply keeps_throw].
    apply keeps_bind; [|intros _; apply IH].
    apply keeps_when. now apply keeps_onFirefly.
Qed.

Lemma keeps_updateFlashes dt todo :
  forall i, keeps proj (Renderer.updateFlashes dt i todo).
Proof.
  induction todo as [|todo IH]; intros i; simpl.
  - apply keeps_ret.
  - apply keeps_bind; [now apply keeps_onFirefly|intros _; apply IH].
Qed.
End Loops.

End Frames.

(** ** The recorded best *)

Section Best.
Context {RT : JsRuntime}.
Import FireflyAlgorithm.

Lemma new_undefined {T} x0 y0 (t : T) k :
  Firefly.new x0 y0 None t k = (Throw TypeError, t, (k + 4)%nat).
Proof.
  unfold Firefly.new, Firefly.evaluate. js_unfold. simpl.
  now replace (S (S (S (S k)))) with (k + 4)%nat by lia.
Qed.

(** [clone()] never changes its receiver and always draws four times. *)
Lemma clone_receiver (f : Firefly.t) (k : nat) :
  receiver (Firefly.clone f k) = f /\ cursor (Firefly.clone f k) = (k + 4)%nat.
Proof.
  destruct (Firefly.objectiveFunction f) as [o|] eqn:Ho.
  - destruct (clone_runs f k Ho) as (c & -> & _). now split.
  - unfold Firefly.clone. js_unfold. rewrite Ho, new_undefined. now split.
Qed.

(** The minimum search returns a member of the population, no member
    is strictly below it. *)
Lemma findBest_In (l : list Firefly.t) :
  forall best, findBest best l = best \/ In (findBest best l) l.
Proof.
  unfold findBest. induction l as [|f l IH]; intros best; simpl; [now left|].
  destruct (Firefly.value f <? Firefly.value best).
  - destruct (IH f) as [-> | H]; auto.
  - destruct (IH best) as [-> | H]; auto.
Qed.

(** What [updateBest] does on a population whose minimum can be cloned. *)
Lemma updateBest_normal (a : FireflyAlgorithm.t) (k : nat) f0 rest o :
  fireflies a = f0 :: rest ->
  Firefly.objectiveFunction (findBest f0 (fireflies a)) = Some o ->
  let best := findBest f0 (fireflies a) in
  let improves := match bestFirefly a with
                  | None => true
                  | Some b => Firefly.value best <? Firefly.value b
                  end in
  exists c, Firefly.clone best k = (Normal c, best, (k + 4)%nat) /\
    updateBest a k =
    if improves then (Normal tt, set_bestFirefly (Some c) a, (k + 4)%nat)
    else (Normal tt, a, k).
Proof.
  intros Hl Ho best improves.
  destruct (clone_runs best k Ho) as (c & Hc & _).
  exists c. split; [exact Hc|].
  unfold updateBest. js_unfold. rewrite Hl. cbv beta iota zeta. rewrite <- Hl.
  fold best. fold improves. destruct improves; [|reflexivity].
  now rewrite Hc.
Qed.

(** [updateBest] leaves the recorded best alone, or replaces it by a
    trail-less copy of a member of the population that has the value of
    that member and, when there was a best, a strictly smaller value. *)
Lemma updateBest_replaces (a : FireflyAlgorithm.t) (k : nat) :
  let a' := receiver (updateBest a k) in
  bestFirefly a' = bestFirefly a \/
  exists c best,
    bestFirefly a' = Some c /\ In best (fireflies a) /\
    Firefly.value c = Firefly.value best /\ Firefly.trail c = [] /\
    match bestFirefly a with
    | None => True
    | Some b => (Firefly.value c <? Firefly.value b) = true
    end.
Proof.
  unfold updateBest. js_unfold. cbv beta iota zeta.
  destruct (fireflies a) as [|f0 rest] eqn:Hl; [now left|].
  set (best := findBest f0 (f0 :: rest)).
  assert (Hin : In best (f0 :: rest)).
  { destruct (findBest_In (f0 :: rest) f0) as [E|H];
      [subst best; rewrite E; now left | exact H]. }
  destruct (Firefly.objectiveFunction best) as [o|] eqn:Ho.
  - destruct (clone_runs best k Ho)
      as (c & Hc & _ & _ & Hv & _ & _ & _ & _ & _ & _ & _ & _ & _ & _ & Htr).
    destruct (bestFirefly a) as [b|] eqn:Hb.
    + destruct (Firefly.value best <? Firefly.value b) eqn:Hlt; [|left; now simpl].
      rewrite Hc. simpl. right. exists c, best. rewrite Hv. auto.
    + rewrite Hc. simpl. right. exists c, best. auto.
  - left. assert (Hthrow : Firefly.clone best k = (Throw TypeError, best, (k + 4)%nat)).
    { unfold Firefly.clone. js_unfold. now rewrite Ho, new_undefined. }
    destruct (match bestFirefly a with None => true | Some b => _ end);
      [rewrite Hthrow|]; reflexivity.
Qed.

(** C10. [clone()] of a firefly with a bound objective function
    returns a new object and leaves the original as it was; the copy has
    the original's position, value, brightness, gender and all seven
    flash-timing fields, and an empty trail whatever the original's trail
    holds.  So whenever [updateBest] records a new best, the record has
    an empty trail. *)
Theorem clone_copies_all_but_trail :
  (forall (f : Firefly.t) (o : ObjectiveFunction) (k : nat),
      Firefly.objectiveFunction f = Some o ->
      exists c,
        Firefly.clone f k = (Normal c, f, (k + 4)%nat) /\
        Firefly.x c = Firefly.x f /\ Firefly.y c = Firefly.y f /\
        Firefly.value c = Firefly.value f /\
        Firefly.brightness c = Firefly.brightness f /\
        Firefly.gender c = Firefly.gender f /\
        Firefly.flashPhase c = Firefly.flashPhase f /\
        Firefly.flashInterval c = Firefly.flashInterval f /\
        Firefly.flashDuration c = Firefly.flashDuration f /\
        Firefly.isFlashing c = Firefly.isFlashing f /\
        Firefly.flashIntensity c = Firefly.flashIntensity f /\
        Firefly.responseDelay c = Firefly.responseDelay f /\
        Firefly.isResponding c = Firefly.isResponding f /\
        Firefly.trail c = []) /\
  (forall (a : FireflyAlgorithm.t) (k : nat),
      let a' := receiver (updateBest a k) in
      bestFirefly a' = bestFirefly a \/
      exists c, bestFirefly a' = Some c /\ Firefly.trail c = []).
Proof.
  split.
  - intros f o k Ho.
    destruct (clone_runs f k Ho)
      as (c & Hc & Hx & Hy & Hv & Hb & Hg & Hp & Hi & Hd & Hfl & Hin & Hrd & Hre & _ & Htr).
    exists c. repeat split; assumption.
  - intros a k a'. subst a'.
    destruct (updateBest_replaces a k) as [E | (c & best & E & _ & _ & Htr & _)];
      [now left | right; eauto].
Qed.

Lemma updateBest_sameOrBetter (a : FireflyAlgorithm.t) (k : nat) :
  sameOrBetter (bestFirefly a) (bestFirefly (receiver (updateBest a k))).
Proof.
  destruct (updateBest_replaces a k) as [E | (c & best & E & _ & _ & _ & H)];
    unfold sameOrBetter; destruct (bestFirefly a) as [b|] eqn:Hb; trivial.
  - exists b. rewrite E; auto.
  - exists c. rewrite E; auto.
Qed.

Lemma sameOrBetter_refl o : sameOrBetter o o.
Proof. destruct o as [b|]; simpl; eauto. Qed.

Lemma sameOrBetter_trans o1 o2 o3 :
  sameOrBetter o1 o2 -> sameOrBetter o2 o3 -> sameOrBetter o1 o3.
Proof.
  destruct o1 as [b1|]; simpl; trivial.
  intros (b2 & -> & H12). simpl. intros (b3 & -> & H23).
  exists b3. split; trivial.
  destruct H12 as [-> | H12], H23 as [-> | H23]; auto.
  right. eapply ltb_trans; eassumption.
Qed.

(** One [step()], however it ends, leaves the same best or a better
    one. *)
Lemma step_sameOrBetter (a : FireflyAlgorithm.t) (k : nat) :
  sameOrBetter (bestFirefly a) (bestFirefly (receiver (step a k))).
Proof.
  unfold step. js_unfold. cbv beta iota zeta.
  destruct (objectiveFunction a) as [o|]; [|apply sameOrBetter_refl].
  pose proof (keeps_moveFireflies beside_bestFirefly (beta0 (params a))
                (gamma (params a)) (alpha (params a)) (domain o)
                (List.length (fireflies a)) 0 a k) as Hkeep.
  unfold receiver in Hkeep.
  destruct (moveFireflies _ _ _ _ _ _ a k) as [[[u|e] a1] k1]; simpl in *.
  - rewrite <- Hkeep.
    pose proof (updateBest_sameOrBetter
                  (set_generation (generation a1 + 1)%Z a1) k1) as Hup.
    unfold receiver in Hup. simpl in Hup.
    destruct (updateBest _ k1) as [[[u2|e2] a2] k2]; simpl in *; exact Hup.
  - rewrite <- Hkeep. apply sameOrBetter_refl.
Qed.

(** C4. Over any number of [step()] calls in a row the recorded best
    is the one recorded at the start or one of strictly smaller value, so
    its value never goes up.  A [step()] changes the record only in its
    final [updateBest], and only to a copy of a member of the population
    whose value is strictly below the recorded one (or when nothing was
    recorded). *)
Theorem bestFirefly_never_regresses (count : nat) (a : FireflyAlgorithm.t) (k : nat) :
  sameOrBetter (bestFirefly a) (bestFirefly (fst (steps count a k))) /\
  (forall b b',
      bestFirefly a = Some b ->
      bestFirefly (fst (steps count a k)) = Some b' ->
      (Firefly.value b <? Firefly.value b') = false) /\
  (let a' := receiver (updateBest a k) in
   bestFirefly a' = bestFirefly a \/
   exists c best,
     bestFirefly a' = Some c /\ In best (fireflies a) /\
     Firefly.value c = Firefly.value best /\ Firefly.trail c = [] /\
     match bestFirefly a with
     | None => True
     | Some b => (Firefly.value c <? Firefly.value b) = true
     end).
Proof.
  assert (H : forall count a k,
             sameOrBetter (bestFirefly a) (bestFirefly (fst (steps count a k)))).
  { clear. induction count as [|count IH]; intros a k; simpl.
    - apply sameOrBetter_refl.
    - eapply sameOrBetter_trans; [apply step_sameOrBetter | apply IH]. }
  split; [apply H|]. split; [|apply updateBest_replaces].
  intros b b' Hb Hb'. specialize (H count a k). rewrite Hb, Hb' in H.
  destruct H as (c & E & [-> | Hlt]); injection E as ->.
  - apply ltb_irrefl.
  - now apply ltb_asym.
Qed.

End Best.

(** ** One generation *)

Section Step.
Context {RT : JsRuntime}.
Import FireflyAlgorithm.

Lemma evaluate_runs (f : Firefly.t) (k : nat) o :
  Firefly.objectiveFunction f = Some o ->
  Firefly.evaluate f k =
  (Normal tt,
   Firefly.set_brightness (- fn o (Firefly.x f) (Firefly.y f))
     (Firefly.set_value (fn o (Firefly.x f) (Firefly.y f)) f), k).
Proof. intros Ho. unfold Firefly.evaluate. js_unfold. now rewrite Ho. Qed.

Lemma moveTowards_runs other b0 g al d (f : Firefly.t) (k : nat) :
  evaluable f ->
  exists f', Firefly.moveTowards other b0 g al d f k = (Normal tt, f', S (S k)) /\
             evaluable f'.
Proof.
  unfold evaluable. intros Ho.
  destruct (Firefly.objectiveFunction f) as [o|] eqn:E; [|congruence].
  unfold Firefly.moveTowards, Firefly.addTrailPoint, Firefly.clampToDomain,
    Firefly.evaluate.
  js_unfold. cbv beta iota zeta.
  destruct (Nat.ltb _ _); cbv beta iota zeta;
    cbn [Firefly.objectiveFunction Firefly.set_x Firefly.set_y Firefly.set_trail];
    rewrite E; eexists; (split; [reflexivity|]); simpl; congruence.
Qed.

Lemma randomWalk_runs al d (f : Firefly.t) (k : nat) :
  evaluable f ->
  exists f', Firefly.randomWalk al d f k = (Normal tt, f', S (S k)) /\
             evaluable f'.
Proof.
  unfold evaluable. intros Ho.
  destruct (Firefly.objectiveFunction f) as [o|] eqn:E; [|congruence].
  unfold Firefly.randomWalk, Firefly.addTrailPoint, Firefly.clampToDomain,
    Firefly.evaluate.
  js_unfold. cbv beta iota zeta.
  destruct (Nat.ltb _ _); cbv beta iota zeta;
    cbn [Firefly.objectiveFunction Firefly.set_x Firefly.set_y Firefly.set_trail];
    rewrite E; eexists; (split; [reflexivity|]); simpl; congruence.
Qed.

Lemma meetOthers_evaluable b0 g al d others :
  forall moved f k, evaluable f ->
    evaluable (snd (fst (meetOthers b0 g al d others moved f k))).
Proof.
  induction others as [|other rest IH]; intros moved f k Hf; simpl; trivial.
  destruct (_ <? _); [|now apply IH].
  destruct (moveTowards_runs other b0 g al d k Hf) as (f' & E & Hf').
  rewrite E. now apply IH.
Qed.

Lemma set_fireflies_twice l1 l2 (a : FireflyAlgorithm.t) :
  set_fireflies l2 (set_fireflies l1 a) = set_fireflies l2 a.
Proof. reflexivity. Qed.

(** A call on the firefly in the middle of the population. *)
Lemma onFirefly_middle {A} (m : Js Firefly.t A) (a : FireflyAlgorithm.t) k pre f post :
  fireflies a = pre ++ f :: post ->
  onFirefly (List.length pre) m a k =
  (completion (m f k),
   set_fireflies (pre ++ receiver (m f k) :: post) a, cursor (m f k)).
Proof.
  intros Hl. unfold onFirefly. rewrite Hl, nth_error_middle.
  destruct (m f k) as [[c f'] k']. now rewrite store_split.
Qed.

(** The inner loop past the firefly's own position. *)
Lemma compareWithOthers_after b0 g al d pre post2 :
  forall post1 f moved (a : FireflyAlgorithm.t) k,
    fireflies a = pre ++ f :: post1 ++ post2 ->
    evaluable f ->
    compareWithOthers b0 g al d (List.length pre)
      (S (List.length pre + List.length post1)) (List.length post2) moved a k =
    match meetOthers b0 g al d post2 moved f k with
    | (moved', f', k') =>
        (Normal moved', set_fireflies (pre ++ f' :: post1 ++ post2) a, k')
    end.
Proof.
  induction post2 as [|other post2 IH]; intros post1 f moved a k Hl Hf.
  - simpl. js_unfold. rewrite <- Hl. now destruct a.
  - assert (Hi : nth_error (fireflies a) (List.length pre) = Some f)
      by (rewrite Hl; apply nth_error_middle).
    assert (Hj : nth_error (fireflies a) (S (List.length pre + List.length post1))
                 = Some other).
    { rewrite Hl.
      replace (pre ++ f :: post1 ++ other :: post2)
        with ((pre ++ f :: post1) ++ other :: post2)
        by (now rewrite <- app_assoc).
      replace (S (List.length pre + List.length post1))
        with (List.length (pre ++ f :: post1))
        by (rewrite length_app; simpl; lia).
      apply nth_error_middle. }
    assert (Hnext : forall f1 m1 (a1 : FireflyAlgorithm.t) k1,
               fireflies a1 = pre ++ f1 :: post1 ++ other :: post2 ->
               evaluable f1 ->
               compareWithOthers b0 g al d (List.length pre)
                 (S (S (List.length pre + List.length post1)))
                 (List.length post2) m1 a1 k1 =
               match meetOthers b0 g al d post2 m1 f1 k1 with
               | (moved', f', k') =>
                   (Normal moved',
                    set_fireflies (pre ++ f' :: post1 ++ other :: post2) a1, k')
               end).
    { intros f1 m1 a1 k1 Hl1 Hf1.
      specialize (IH (post1 ++ [other]) f1 m1 a1 k1).
      rewrite length_app, <- app_assoc in IH. simpl in IH.
      rewrite Nat.add_1_r, <- plus_n_Sm in IH. now apply IH. }
    remember (S (List.length pre + List.length post1)) as j eqn:Ej.
    simpl.
    destruct (Nat.eqb_spec (List.length pre) j); [lia|].
    unfold bind at 1. unfold this at 1. rewrite Hi, Hj.
    destruct (Firefly.value other <? Firefly.value f); [|now apply Hnext].
    unfold bind. rewrite (onFirefly_middle _ a k _ _ _ Hl).
    destruct (moveTowards_runs other b0 g al d k Hf) as (f1 & E & Hf1).
    rewrite E. unfold completion, receiver, cursor. simpl.
    rewrite Hnext with (f1 := f1); trivial.
Qed.

(** The inner loop before the firefly's own position, then past it. *)
Lemma compareWithOthers_before b0 g al d post pre2 :
  forall pre1 f moved (a : FireflyAlgorithm.t) k,
    fireflies a = (pre1 ++ pre2) ++ f :: post ->
    evaluable f ->
    compareWithOthers b0 g al d (List.length (pre1 ++ pre2))
      (List.length pre1) (List.length pre2 + S (List.length post)) moved a k =
    match meetOthers b0 g al d (pre2 ++ post) moved f k with
    | (moved', f', k') =>
        (Normal moved', set_fireflies ((pre1 ++ pre2) ++ f' :: post) a, k')
    end.
Proof.
  induction pre2 as [|other pre2 IH]; intros pre1 f moved a k Hl Hf.
  - rewrite app_nil_r in *. simpl. rewrite Nat.eqb_refl.
    pose proof (@compareWithOthers_after b0 g al d pre1 post [] f moved a k Hl Hf) as H.
    simpl in H. now rewrite Nat.add_0_r in H.
  - assert (Hi : nth_error (fireflies a) (List.length (pre1 ++ other :: pre2)) = Some f)
      by (rewrite Hl; apply nth_error_middle).
    assert (Hj : nth_error (fireflies a) (List.length pre1) = Some other).
    { rewrite Hl, <- app_assoc. simpl. apply nth_error_middle. }
    assert (Hnext : forall f1 m1 (a1 : FireflyAlgorithm.t) k1,
               fireflies a1 = (pre1 ++ other :: pre2) ++ f1 :: post ->
               evaluable f1 ->
               compareWithOthers b0 g al d (List.length (pre1 ++ other :: pre2))
                 (S (List.length pre1))
                 (List.length pre2 + S (List.length post)) m1 a1 k1 =
               match meetOthers b0 g al d (pre2 ++ post) m1 f1 k1 with
               | (moved', f', k') =>
                   (Normal moved',
                    set_fireflies ((pre1 ++ other :: pre2) ++ f' :: post) a1, k')
               end).
    { intros f1 m1 a1 k1 Hl1 Hf1.
      specialize (IH (pre1 ++ [other]) f1 m1 a1 k1).
      rewrite <- !app_assoc in IH. simpl in IH.
      replace (List.length (pre1 ++ [other])) with (S (List.length pre1)) in IH
        by (rewrite length_app; simpl; lia).
      rewrite <- app_assoc in Hl1. now apply IH. }
    remember (List.length (pre1 ++ other :: pre2)) as i eqn:Ei.
    remember (List.length pre1) as j eqn:Ej.
    simpl.
    destruct (Nat.eqb_spec i j) as [E|_];
      [subst i j; rewrite length_app in E; simpl in E; lia|].
    unfold bind at 1. unfold this at 1. rewrite Hi, Hj.
    destruct (Firefly.value other <? Firefly.value f); [|now apply Hnext].
    unfold bind. subst i. rewrite (onFirefly_middle _ a k _ _ _ Hl).
    destruct (moveTowards_runs other b0 g al d k Hf) as (f1 & E & Hf1).
    rewrite E. unfold completion, receiver, cursor. simpl.
    rewrite Hnext with (f1 := f1); trivial.
Qed.

Lemma turnOf_evaluable b0 g al d others f k :
  evaluable f -> evaluable (fst (turnOf b0 g al d others f k)).
Proof.
  intros Hf. unfold turnOf.
  pose proof (meetOthers_evaluable b0 g al d others false k Hf) as H.
  destruct (meetOthers b0 g al d others false f k) as [[[|] f'] k']; simpl in *; trivial.
  destruct (randomWalk_runs (al * 0.1) d k' H) as (f2 & E & Hf2). now rewrite E.
Qed.

Lemma sweep_evaluable b0 g al d todo :
  forall done k, Forall evaluable done -> Forall evaluable todo ->
    Forall evaluable (fst (sweep b0 g al d done todo k)).
Proof.
  induction todo as [|f rest IH]; intros done k Hd Ht; simpl; trivial.
  inversion Ht as [|? ? Hf Hrest]; subst.
  pose proof (turnOf_evaluable b0 g al d (done ++ rest) k Hf) as H.
  destruct (turnOf b0 g al d (done ++ rest) f k) as [f' k']. simpl in H.
  apply IH; trivial. apply Forall_app. split; auto.
Qed.

Lemma sweep_length b0 g al d todo :
  forall done k,
    List.length (fst (sweep b0 g al d done todo k)) =
    (List.length done + List.length todo)%nat.
Proof.
  induction todo as [|f rest IH]; intros done k; simpl; [lia|].
  destruct (turnOf b0 g al d (done ++ rest) f k) as [f' k'].
  rewrite IH, length_app. simpl. lia.
Qed.

(** The outer loop is the sequence of turns. *)
Lemma moveFireflies_sweep b0 g al d todo :
  forall done (a : FireflyAlgorithm.t) k,
    fireflies a = done ++ todo ->
    Forall evaluable todo ->
    moveFireflies b0 g al d (List.length done) (List.length todo) a k =
    (Normal tt,
     set_fireflies (fst (sweep b0 g al d done todo k)) a,
     snd (sweep b0 g al d done todo k)).
Proof.
  induction todo as [|f rest IH]; intros done a k Hl Ht.
  - simpl. rewrite app_nil_r in Hl. rewrite <- Hl. now destruct a.
  - inversion Ht as [|? ? Hf Hrest]; subst.
    simpl moveFireflies. unfold bind at 1. unfold this at 1.
    unfold bind at 1.
    pose proof (@compareWithOthers_before b0 g al d rest done [] f false a k Hl Hf) as Hin.
    simpl in Hin.
    replace (List.length (fireflies a))
      with (List.length done + S (List.length rest))%nat
      by (rewrite Hl, length_app; reflexivity).
    rewrite Hin. clear Hin.
    simpl sweep. unfold turnOf.
    pose proof (meetOthers_evaluable b0 g al d (done ++ rest) false k Hf) as Hm.
    destruct (meetOthers b0 g al d (done ++ rest) false f k) as [[moved f1] k1].
    simpl in Hm.
    assert (Hl1 : fireflies (set_fireflies (done ++ f1 :: rest) a) = done ++ f1 :: rest)
      by reflexivity.
    assert (Hgo : forall f2 (a2 : FireflyAlgorithm.t) k2,
               a2 = set_fireflies (done ++ f2 :: rest) a ->
               moveFireflies b0 g al d (S (List.length done)) (List.length rest) a2 k2 =
               (Normal tt,
                set_fireflies (fst (sweep b0 g al d (done ++ [f2]) rest k2)) a,
                snd (sweep b0 g al d (done ++ [f2]) rest k2))).
    { intros f2 a2 k2 ->.
      specialize (IH (done ++ [f2]) (set_fireflies (done ++ f2 :: rest) a) k2).
      rewrite length_app in IH. simpl in IH. rewrite Nat.add_1_r in IH.
      rewrite IH; trivial. now rewrite <- app_assoc. }
    destruct moved; simpl.
    + unfold bind. simpl. now apply Hgo.
    + unfold bind. rewrite (onFirefly_middle _ _ k1 _ _ _ Hl1).
      destruct (randomWalk_runs (al * 0.1) d k1 Hm) as (f2 & E & Hf2).
      rewrite E. unfold completion, receiver, cursor. simpl.
      now apply Hgo.
Qed.

(** C3. On a non-empty population of fireflies with a bound objective
    function, [step()] returns, and the population it leaves is the one
    described by [sweep]: the fireflies take their turns in population
    order; in its turn firefly [i] meets every other firefly [j] in
    population order (those before [i] as their own turns left them) and
    calls [moveTowards] whenever [j]'s value is below its own current
    value, the comparison after a move reading the value the move
    produced; a firefly that moved towards no one calls
    [randomWalk(alpha * 0.1, domain)].  The generation counter goes up by
    exactly 1, and the returned record shows the new state. *)
Theorem step_is_sequential_sweep (a : FireflyAlgorithm.t) (k : nat) (o : ObjectiveFunction) :
  objectiveFunction a = Some o ->
  fireflies a <> [] ->
  Forall evaluable (fireflies a) ->
  let p := params a in
  let swept := sweep (beta0 p) (gamma p) (alpha p) (domain o) [] (fireflies a) k in
  let r := step a k in
  let a' := receiver r in
  fireflies a' = fst swept /\
  List.length (fireflies a') = List.length (fireflies a) /\
  generation a' = (generation a + 1)%Z /\
  params a' = params a /\
  objectiveFunction a' = objectiveFunction a /\
  completion r = Normal {| res_generation := generation a';
                           res_best := bestFirefly a';
                           res_fireflies := fireflies a' |}.
Proof.
  intros Ho Hne Hev p swept r a'.
  pose proof (@moveFireflies_sweep (beta0 p) (gamma p) (alpha p) (domain o)
                (fireflies a) [] a k eq_refl Hev) as Hmv.
  change (List.length (@nil Firefly.t)) with 0%nat in Hmv. fold swept in Hmv.
  pose proof (@sweep_evaluable (beta0 p) (gamma p) (alpha p) (domain o)
                (fireflies a) [] k (Forall_nil _) Hev) as Hev'.
  pose proof (sweep_length (beta0 p) (gamma p) (alpha p) (domain o)
                (fireflies a) [] k) as Hlen.
  fold swept in Hev', Hlen. simpl in Hlen.
  set (a1 := set_generation (generation a + 1)%Z (set_fireflies (fst swept) a)).
  assert (Hup : exists c,
             updateBest a1 (snd swept) = (Normal tt, a1, snd swept) \/
             updateBest a1 (snd swept) =
             (Normal tt, set_bestFirefly (Some c) a1, (snd swept + 4)%nat)).
  { destruct (fst swept) as [|f0 rest] eqn:Hs.
    { destruct (fireflies a); [congruence | discriminate]. }
    assert (Hl1 : fireflies a1 = f0 :: rest) by reflexivity.
    assert (Hbest : exists ob,
               Firefly.objectiveFunction (findBest f0 (fireflies a1)) = Some ob).
    { assert (Hin : In (findBest f0 (fireflies a1)) (f0 :: rest)).
      { destruct (findBest_In (fireflies a1) f0) as [E|Hin];
          [rewrite E; now left | now rewrite Hl1 in Hin at 2]. }
      rewrite Forall_forall in Hev'. specialize (Hev' _ Hin).
      unfold evaluable in Hev'.
      destruct (Firefly.objectiveFunction _); eauto. congruence. }
    destruct Hbest as (ob & Hob).
    destruct (@updateBest_normal _ a1 (snd swept) f0 rest ob Hl1 Hob) as (c & _ & E).
    exists c. rewrite E.
    destruct (match bestFirefly a1 with None => true | Some b => _ end); auto. }
  destruct Hup as (c & Hup).
  assert (Hstep : step a k =
                  match updateBest a1 (snd swept) with
                  | (_, a2, k2) =>
                      (Normal {| res_generation := generation a2;
                                 res_best := bestFirefly a2;
                                 res_fireflies := fireflies a2 |}, a2, k2)
                  end).
  { unfold step. unfold bind at 1. unfold this at 1. rewrite Ho.
    cbv beta iota zeta. fold p. unfold bind at 1. rewrite Hmv.
    unfold bind at 1. unfold assign at 1. unfold bind at 1.
    change (set_generation _ _) with a1.
    destruct Hup as [E|E]; rewrite E; reflexivity. }
  subst a' r. rewrite Hstep.
  destruct Hup as [E|E]; rewrite E; unfold receiver, completion; simpl;
    repeat split; exact Hlen.
Qed.
End Step.

(** ** One tick of the continuous clock *)

Section Tick.
Context {RT : JsRuntime}.
Import FireflyAlgorithm.

Lemma sameToObservers_refl f : sameToObservers f f.
Proof. now repeat split. Qed.

Lemma Forall2_sameToObservers_refl l : Forall2 sameToObservers l l.
Proof. induction l; constructor; auto using sameToObservers_refl. Qed.

Lemma brightMaleNear_observes self rd other other' :
  sameToObservers other other' ->
  brightMaleNear self rd other = brightMaleNear self rd other'.
Proof.
  intros (Hg & Hi & Hx & Hy). unfold brightMaleNear, Firefly.distanceTo.
  now rewrite Hg, Hi, Hx, Hy.
Qed.

Lemma othersThan_observes self rd i l l' :
  Forall2 sameToObservers l l' ->
  forall j,
    existsb (brightMaleNear self rd) (othersThan i j l) =
    existsb (brightMaleNear self rd) (othersThan i j l').
Proof.
  induction 1 as [|f f' l l' Hf Hl IH]; intros j; simpl; [reflexivity|].
  destruct (Nat.eqb j i); simpl; [apply IH|].
  now rewrite IH, (brightMaleNear_observes self rd Hf).
Qed.

(** A check reads the other fireflies only through what observers see. *)
Lemma checkForNearbyFlash_observes i l l' d f k :
  Forall2 sameToObservers l l' ->
  Firefly.checkForNearbyFlash i l d f k = Firefly.checkForNearbyFlash i l' d f k.
Proof.
  intros Hl. unfold Firefly.checkForNearbyFlash. js_unfold. cbv beta iota zeta.
  destruct (_ || _); [reflexivity|]. destruct (_ <? 500); [reflexivity|].
  rewrite !scanForMale_spec. now rewrite (othersThan_observes f _ i Hl 0).
Qed.

(** A check changes nothing observers see, and returns. *)
Lemma checkForNearbyFlash_unobserved i l d f k :
  completion (Firefly.checkForNearbyFlash i l d f k) = Normal tt /\
  sameToObservers f (receiver (Firefly.checkForNearbyFlash i l d f k)).
Proof.
  unfold Firefly.checkForNearbyFlash. js_unfold. cbv beta iota zeta.
  destruct (_ || _); [split; [reflexivity | apply sameToObservers_refl]|].
  destruct (_ <? 500); [split; [reflexivity | apply sameToObservers_refl]|].
  rewrite scanForMale_spec.
  destruct (existsb _ _); simpl; split; trivial; try apply sameToObservers_refl.
  now repeat split.
Qed.

(** The first loop: every check sees the population of the start. *)
Lemma checkResponses_snapshot d todo :
  forall done0 done (a : FireflyAlgorithm.t) k,
    fireflies a = done ++ todo ->
    Forall2 sameToObservers done0 done ->
    Renderer.checkResponses d (List.length done) (List.length todo) a k =
    (Normal tt,
     set_fireflies (done ++ fst (checkAgainst d (done0 ++ todo) (List.length done) todo k)) a,
     snd (checkAgainst d (done0 ++ todo) (List.length done) todo k)).
Proof.
  induction todo as [|f rest IH]; intros done0 done a k Hl Hd.
  - simpl. rewrite app_nil_r in *. rewrite <- Hl. now destruct a.
  - assert (Hi : nth_error (fireflies a) (List.length done) = Some f)
      by (rewrite Hl; apply nth_error_middle).
    assert (Hsee : Forall2 sameToObservers (done ++ f :: rest) (done0 ++ f :: rest)).
    { apply Forall2_app; [|apply Forall2_sameToObservers_refl].
      clear -Hd. induction Hd; constructor; trivial.
      destruct H as (? & ? & ? & ?). now repeat split. }
    simpl Renderer.checkResponses. unfold bind at 1. unfold this at 1. rewrite Hi.
    simpl checkAgainst.
    assert (Hgo : forall f' (a1 : FireflyAlgorithm.t) k1,
               a1 = set_fireflies (done ++ f' :: rest) a ->
               sameToObservers f f' ->
               Renderer.checkResponses d (S (List.length done)) (List.length rest) a1 k1 =
               (Normal tt,
                set_fireflies
                  (done ++ f' :: fst (checkAgainst d (done0 ++ f :: rest)
                                        (S (List.length done)) rest k1)) a,
                snd (checkAgainst d (done0 ++ f :: rest)
                       (S (List.length done)) rest k1))).
    { intros f' a1 k1 -> Hf'.
      specialize (IH (done0 ++ [f]) (done ++ [f'])
                     (set_fireflies (done ++ f' :: rest) a) k1).
      rewrite length_app, <- !app_assoc in IH. simpl in IH.
      rewrite Nat.add_1_r in IH. rewrite IH; trivial.
      apply Forall2_app; trivial. now constructor. }
    destruct (Firefly.gender f) eqn:Hg; simpl.
    + unfold bind. simpl.
      rewrite (Hgo f a k); auto using sameToObservers_refl.
      * unfold receiver, cursor. simpl.
        now destruct (checkAgainst d (done0 ++ f :: rest) (S (List.length done)) rest k).
      * rewrite <- Hl. now destruct a.
    + unfold bind. rewrite (onFirefly_middle _ a k _ _ _ Hl).
      rewrite Hl, (checkForNearbyFlash_observes (List.length done) d f k Hsee).
      destruct (checkForNearbyFlash_unobserved (List.length done)
                  (done0 ++ f :: rest) d f k) as (Hc & Hs).
      rewrite Hc. rewrite (Hgo _ _ _ eq_refl Hs).
      now destruct (checkAgainst d (done0 ++ f :: rest) (S (List.length done)) rest _).
Qed.

(** The second loop: every flash is updated, with no draw. *)
Lemma updateFlashes_map dt todo :
  forall done (a : FireflyAlgorithm.t) k,
    fireflies a = done ++ todo ->
    Renderer.updateFlashes dt (List.length done) (List.length todo) a k =
    (Normal tt,
     set_fireflies (done ++ map (fun f => receiver (Firefly.updateFlash dt f k)) todo) a,
     k).
Proof.
  induction todo as [|f rest IH]; intros done a k Hl.
  - simpl. rewrite app_nil_r in *. rewrite <- Hl. now destruct a.
  - simpl Renderer.updateFlashes. simpl map. unfold bind.
    rewrite (onFirefly_middle _ a k _ _ _ Hl).
    destruct (updateFlash_normal dt f k) as (f' & E). rewrite !E.
    unfold completion, receiver, cursor. simpl.
    specialize (IH (done ++ [f']) (set_fireflies (done ++ f' :: rest) a) k).
    rewrite length_app, <- !app_assoc in IH. simpl in IH.
    rewrite Nat.add_1_r in IH. now rewrite IH.
Qed.

(** C9. One tick returns, and leaves the population described by
    [tick]: first every female, in population order, is checked, and each
    check reads the other fireflies (gender, intensity, position) as the
    tick found them, that is with the intensities the previous tick's
    [updateFlash] produced; only then is [updateFlash(deltaTime)] applied
    to every firefly.  Nothing else of the algorithm changes. *)
Theorem advanceTime_two_phase (d : Domain) (deltaTime : float)
        (a : FireflyAlgorithm.t) (k : nat) :
  Renderer.advanceTime d deltaTime a k =
  (Normal tt,
   set_fireflies (fst (tick d deltaTime (fireflies a) k)) a,
   snd (tick d deltaTime (fireflies a) k)).
Proof.
  unfold Renderer.advanceTime, tick.
  unfold bind at 1. unfold this at 1. unfold bind at 1.
  pose proof (@checkResponses_snapshot d (fireflies a) [] [] a k eq_refl
                (Forall2_nil _)) as H1.
  change (List.length (@nil Firefly.t)) with 0%nat in H1. simpl app in H1.
  rewrite H1. clear H1.
  destruct (checkAgainst d (fireflies a) 0 (fireflies a) k) as [checked k1].
  unfold bind at 1. unfold this at 1. simpl fst. simpl snd.
  pose proof (@updateFlashes_map deltaTime checked [] (set_fireflies checked a) k1
                eq_refl) as H2.
  change (List.length (@nil Firefly.t)) with 0%nat in H2. simpl app in H2.
  simpl fireflies. rewrite H2. reflexivity.
Qed.
End Tick.

(** ** Changing the objective function *)

Section FunctionChange.
Context {RT : JsRuntime}.
Import FireflyAlgorithm.

Lemma objectiveFunctions_registered key o :
  objectiveFunctions key = Some o -> In key registeredKeys.
Proof.
  unfold objectiveFunctions, registeredKeys.
  repeat match goal with
         | |- context [String.eqb key ?s] =>
             destruct (String.eqb_spec key s) as [->|_]; [simpl; tauto|]
         end.
  discriminate.
Qed.

Lemma registered_truthy key : In key registeredKeys -> truthy_string key = true.
Proof.
  simpl. intros [<-|[<-|[<-|[<-|[<-|[]]]]]]; reflexivity.
Qed.

(** The registered domains are proper intervals. *)
Lemma registered_domain key o :
  objectiveFunctions key = Some o ->
  (xMin (domain o) <=? xMax (domain o)) = true /\
  (yMin (domain o) <=? yMax (domain o)) = true.
Proof.
  unfold objectiveFunctions.
  repeat match goal with
         | |- context [String.eqb key ?s] =>
             destruct (String.eqb_spec key s) as [->|_];
             [intros E; injection E as <-; split; reflexivity|]
         end.
  discriminate.
Qed.

Lemma rebound_reboundTo key o f :
  objectiveFunctions key = Some o -> reboundTo o f (rebound o f).
Proof.
  intros Hk. destruct (registered_domain key Hk) as [Hx Hy].
  unfold reboundTo, rebound. simpl. repeat split.
  all: try (apply clamp_between; assumption).
Qed.

Lemma clampToDomain_runs d (f : Firefly.t) k :
  Firefly.clampToDomain d f k =
  (Normal tt,
   Firefly.set_y (Math_max (yMin d) (Math_min (yMax d) (Firefly.y f)))
     (Firefly.set_x (Math_max (xMin d) (Math_min (xMax d) (Firefly.x f))) f),
   k).
Proof. reflexivity. Qed.

(** The loop of [setParams] under a bound objective function. *)
Lemma rebindFireflies_map o todo :
  forall done (a : FireflyAlgorithm.t) k,
    objectiveFunction a = Some o ->
    fireflies a = done ++ todo ->
    rebindFireflies (List.length done) (List.length todo) a k =
    (Normal tt, set_fireflies (done ++ map (rebound o) todo) a, k).
Proof.
  induction todo as [|f rest IH]; intros done a k Ho Hl.
  - simpl. rewrite app_nil_r in *. rewrite <- Hl. now destruct a.
  - simpl rebindFireflies. simpl map. unfold bind at 1. unfold this at 1.
    unfold bind at 1. rewrite (onFirefly_middle _ a k _ _ _ Hl).
    unfold assign at 1. cbn [completion receiver cursor fst snd]. rewrite Ho.
    set (f1 := Firefly.set_objectiveFunction (Some o) f).
    set (a1 := set_fireflies (done ++ f1 :: rest) a).
    unfold bind at 1.
    rewrite (@onFirefly_middle _ _ a1 k done f1 rest eq_refl).
    rewrite clampToDomain_runs. cbn [completion receiver cursor fst snd].
    set (f2 := Firefly.set_y _ _).
    set (a2 := set_fireflies (done ++ f2 :: rest) a1).
    unfold bind at 1.
    rewrite (@onFirefly_middle _ _ a2 k done f2 rest eq_refl).
    rewrite (@evaluate_runs f2 k o eq_refl).
    cbn [completion receiver cursor fst snd].
    set (f3 := Firefly.set_brightness _ _).
    assert (E : f3 = rebound o f) by reflexivity.
    rewrite E.
    set (a3 := set_fireflies (done ++ rebound o f :: rest) a2).
    specialize (IH (done ++ [rebound o f]) a3 k Ho).
    rewrite length_app, <- !app_assoc in IH. simpl in IH.
    rewrite Nat.add_1_r in IH. rewrite IH; reflexivity.
Qed.

(** The minimum search finds a member no member is strictly below. *)
Lemma findBest_least (l : list Firefly.t) :
  forall best seen,
    (forall f, In f seen -> (Firefly.value f <? Firefly.value best) = false) ->
    forall f, In f (seen ++ l) ->
              (Firefly.value f <? Firefly.value (findBest best l)) = false.
Proof.
  unfold findBest. induction l as [|g l IH]; intros best seen Hseen f Hin; simpl.
  - rewrite app_nil_r in Hin. auto.
  - replace (seen ++ g :: l) with ((seen ++ [g]) ++ l) in Hin
      by (now rewrite <- app_assoc).
    destruct (Firefly.value g <? Firefly.value best) eqn:E.
    + apply (IH g (seen ++ [g])); trivial.
      intros h Hh. apply in_app_or in Hh. destruct Hh as [Hh|[<-|[]]].
      * destruct (Firefly.value h <? Firefly.value g) eqn:E2; trivial.
        rewrite <- (Hseen h Hh). symmetry. eapply ltb_trans; eassumption.
      * apply ltb_irrefl.
    + apply (IH best (seen ++ [g])); trivial.
      intros h Hh. apply in_app_or in Hh. destruct Hh as [Hh|[<-|[]]]; auto.
Qed.

Lemma findBest_leastOf f0 rest :
  leastOf (f0 :: rest) (findBest f0 (f0 :: rest)).
Proof.
  split.
  - destruct (findBest_In (f0 :: rest) f0) as [->|H]; [now left | exact H].
  - intros f Hf. apply (@findBest_least (f0 :: rest) f0 []); trivial.
    intros g [].
Qed.

(** [setParams] is its two conditional parts in sequence, after the
    parameters are stored. *)
Lemma setParams_parts (p : PartialParams) (a : FireflyAlgorithm.t) (k : nat) :
  setParams p a k =
  let a0 := set_params (spread (params a) p) a in
  let resize (a1 : FireflyAlgorithm.t) (k1 : nat) :=
    match new_n p with
    | Some newN =>
        if changesSize p a then adjustPopulation newN a1 k1 else (Normal tt, a1, k1)
    | None => (Normal tt, a1, k1)
    end in
  if changesFunction p a then
    let a1 := set_objectiveFunction (objectiveFunctions (functionKey (params a0))) a0 in
    match rebindFireflies 0 (List.length (fireflies a1)) a1 k with
    | (Normal _, a2, k2) =>
        match updateBest (set_bestFirefly None a2) k2 with
        | (Normal _, a3, k3) => resize a3 k3
        | (Throw e, a3, k3) => (Throw e, a3, k3)
        end
    | (Throw e, a2, k2) => (Throw e, a2, k2)
    end
  else resize a0 k.
Proof.
  unfold setParams, changesFunction, changesSize. js_unfold. cbv beta iota zeta.
  destruct (match new_functionKey p with Some _ => _ | None => false end).
  - destruct (rebindFireflies _ _ _ _) as [[[u|e] a2] k2]; [|reflexivity].
    destruct (updateBest _ _) as [[[u3|e3] a3] k3]; [|reflexivity].
    destruct (new_n p) as [newN|]; [|reflexivity].
    now destruct (truthy_Z newN && _).
  - destruct (new_n p) as [newN|]; [|reflexivity].
    now destruct (truthy_Z newN && _).
Qed.

(** C6. When [setParams] is given a registered [functionKey] other than
    the current one (on a non-empty population), then before any resize
    the algorithm's objective function is the new one, every firefly is
    the old one rebound to it (reference rebound, position clamped per
    axis into the new domain, value and brightness recomputed by the new
    formula, everything else kept), and the recorded best is a fresh copy
    of a least-valued member of the re-evaluated population, whatever
    was recorded before.  The resize, if [n] is given too, then runs on
    that state. *)
Theorem setParams_function_change
        (p : PartialParams) (a : FireflyAlgorithm.t) (k : nat)
        (key : string) (o : ObjectiveFunction) :
  new_functionKey p = Some key ->
  key <> functionKey (params a) ->
  objectiveFunctions key = Some o ->
  fireflies a <> [] ->
  exists (a1 : FireflyAlgorithm.t) (best c : Firefly.t),
    params a1 = spread (params a) p /\
    generation a1 = generation a /\
    objectiveFunction a1 = Some o /\
    Forall2 (reboundTo o) (fireflies a) (fireflies a1) /\
    leastOf (fireflies a1) best /\
    Firefly.clone best k = (Normal c, best, (k + 4)%nat) /\
    bestFirefly a1 = Some c /\
    (changesSize p a = false -> setParams p a k = (Normal tt, a1, (k + 4)%nat)) /\
    (forall newN, new_n p = Some newN -> changesSize p a = true ->
                  setParams p a k = adjustPopulation newN a1 (k + 4)%nat).
Proof.
  intros Hkey Hne Hreg Hpop.
  destruct (fireflies a) as [|f0 rest] eqn:Hl; [contradiction|]. clear Hpop.
  pose proof (setParams_parts p a k) as Hparts. cbv zeta in Hparts.
  assert (Hch : changesFunction p a = true).
  { unfold changesFunction. rewrite Hkey.
    rewrite (registered_truthy (objectiveFunctions_registered _ Hreg)).
    destruct (String.eqb_spec key (functionKey (params a))); [contradiction|reflexivity]. }
  rewrite Hch in Hparts.
  assert (Hfk : functionKey (params (set_params (spread (params a) p) a)) = key)
    by (simpl; now rewrite Hkey).
  rewrite Hfk, Hreg in Hparts.
  set (a0 := set_objectiveFunction (Some o) (set_params (spread (params a) p) a)) in *.
  assert (Hl0 : fireflies a0 = f0 :: rest) by exact Hl.
  pose proof (@rebindFireflies_map o (f0 :: rest) [] a0 k eq_refl Hl0) as Hre.
  change (List.length (@nil Firefly.t)) with 0%nat in Hre. simpl app in Hre.
  rewrite Hl0, Hre in Hparts. clear Hre.
  set (population := rebound o f0 :: map (rebound o) rest) in *.
  set (a2 := set_bestFirefly None (set_fireflies population a0)) in *.
  assert (Hl2 : fireflies a2 = population) by reflexivity.
  assert (Hall : forall g, In g population -> Firefly.objectiveFunction g = Some o).
  { intros g Hg. change population with (map (rebound o) (f0 :: rest)) in Hg.
    apply in_map_iff in Hg. now destruct Hg as (g0 & <- & _). }
  destruct (findBest_leastOf (rebound o f0) (map (rebound o) rest)) as [Hin Hleast].
  fold population in Hin, Hleast.
  destruct (@updateBest_normal _ a2 k _ _ o Hl2) as (c & Hclone & Hup).
  { rewrite Hl2. now apply Hall. }
  rewrite Hl2 in Hclone, Hup.
  change (bestFirefly a2) with (@None Firefly.t) in Hup. rewrite Hup in Hparts.
  exists (set_bestFirefly (Some c) a2), (findBest (rebound o f0) population), c.
  repeat split; trivial.
  - simpl. subst population. clear -Hreg.
    change (rebound o f0 :: map (rebound o) rest) with (map (rebound o) (f0 :: rest)).
    induction (f0 :: rest); constructor; trivial.
    now apply rebound_reboundTo with key.
  - intros Hsz. rewrite Hparts. destruct (new_n p); [now rewrite Hsz|reflexivity].
  - intros newN HnewN Hsz. rewrite Hparts, HnewN. now rewrite Hsz.
Qed.
End FunctionChange.

(** ** Sorting by value *)

Section SortByValue.

Section Insertion.
Variable A : Type.
Variable comparefn : A -> A -> float.

Lemma insertSorted_perm (a : A) (l : list A) :
  Permutation (insertSorted comparefn a l) (a :: l).
Proof.
  induction l as [|b l IH]; simpl; [reflexivity|].
  destruct (0 <? comparefn a b); [|reflexivity].
  rewrite IH. apply perm_swap.
Qed.

Lemma Array_sort_perm (l : list A) : Permutation (Array_sort comparefn l) l.
Proof.
  induction l as [|a l IH]; simpl; [reflexivity|].
  rewrite insertSorted_perm. now constructor.
Qed.

Lemma Array_sort_length (l : list A) :
  List.length (Array_sort comparefn l) = List.length l.
Proof. apply Permutation_length, Array_sort_perm. Qed.
End Insertion.

(** Sorting positions along with the fireflies sorts the fireflies. *)
Lemma insertSorted_ranked (p : nat * Firefly.t) (l : list (nat * Firefly.t)) :
  map snd (insertSorted (fun p q => byValue (snd p) (snd q)) p l) =
  insertSorted byValue (snd p) (map snd l).
Proof.
  induction l as [|q l IH]; simpl; [reflexivity|].
  destruct (0 <? byValue (snd p) (snd q)); simpl; now rewrite ?IH.
Qed.

Lemma Array_sort_ranked (l : list (nat * Firefly.t)) :
  map snd (Array_sort (fun p q => byValue (snd p) (snd q)) l) =
  Array_sort byValue (map snd l).
Proof.
  induction l as [|p l IH]; simpl; [reflexivity|].
  now rewrite insertSorted_ranked, IH.
Qed.

Lemma ranked_snd (l : list Firefly.t) : map snd (ranked l) = l.
Proof.
  unfold ranked. generalize 0%nat. induction l as [|f l IH]; intros i; simpl;
    [reflexivity|]. now rewrite IH.
Qed.

Lemma ranked_increasing (l : list Firefly.t) :
  StronglySorted (fun p q : nat * Firefly.t => (fst p < fst q)%nat) (ranked l).
Proof.
  unfold ranked. generalize 0%nat. induction l as [|f l IH]; intros i; simpl;
    constructor; [apply IH|].
  apply Forall_forall. intros [j g] Hin. apply in_combine_l in Hin.
  apply in_seq in Hin. simpl. lia.
Qed.

Section Order.
Variable population : list Firefly.t.
Hypothesis numbers : allNumbers population = true.
Hypothesis faithful : comparatorFaithful population = true.

Lemma member_number p : memberOf population p -> is_NaN (Firefly.value (snd p)) = false.
Proof.
  intros H. unfold allNumbers in numbers. rewrite forallb_forall in numbers.
  apply negb_true_iff. now apply numbers.
Qed.

Lemma member_faithful p q :
  memberOf population p -> memberOf population q ->
  (0 <? byValue (snd p) (snd q)) =
  (Firefly.value (snd q) <? Firefly.value (snd p)).
Proof.
  intros Hp Hq. unfold comparatorFaithful in faithful.
  rewrite forallb_forall in faithful. specialize (faithful _ Hp).
  rewrite forallb_forall in faithful. specialize (faithful _ Hq).
  now apply Bool.eqb_prop in faithful.
Qed.

(** A member that does not compare greater than [q] comes before
    whatever [q] comes before, if it stood before them all. *)
Lemma before_chain p q x :
  memberOf population p -> memberOf population q -> memberOf population x ->
  (Firefly.value (snd q) <? Firefly.value (snd p)) = false ->
  (fst p < fst x)%nat ->
  before q x -> before p x.
Proof.
  intros Hp Hq Hx Hpq Hpx [Hlt | [Hnlt Hqx]].
  - left. apply not_ltb_ltb_trans with (b := Firefly.value (snd q));
      auto using member_number.
  - right. split; trivial.
    destruct (Firefly.value (snd x) <? Firefly.value (snd p)) eqn:E; trivial.
    rewrite <- Hpq. symmetry.
    apply not_ltb_ltb_trans with (b := Firefly.value (snd x));
      auto using member_number.
Qed.

Lemma insertSorted_before p l :
  memberOf population p -> Forall (memberOf population) l ->
  Forall (fun q => (fst p < fst q)%nat) l ->
  StronglySorted before l ->
  StronglySorted before (insertSorted (fun p q => byValue (snd p) (snd q)) p l).
Proof.
  intros Hp. induction l as [|q l IH]; intros Hl Htag Hs; simpl.
  - constructor; constructor.
  - inversion Hl as [|? ? Hq Hl']; subst.
    inversion Htag as [|? ? Hpq Htag']; subst.
    inversion Hs as [|? ? Hs' Hql]; subst.
    rewrite (member_faithful _ _ Hp Hq).
    destruct (Firefly.value (snd q) <? Firefly.value (snd p)) eqn:E.
    + constructor; [now apply IH|].
      apply Forall_forall. intros x Hx.
      apply (Permutation_in _ (insertSorted_perm _ p l)) in Hx.
      destruct Hx as [<- | Hx]; [now left|].
      rewrite Forall_forall in Hql. now apply Hql.
    + constructor; [exact Hs|].
      constructor; [right; now split|].
      rewrite Forall_forall in *. intros x Hx.
      apply before_chain with q; auto.
Qed.

Lemma Array_sort_before (l : list (nat * Firefly.t)) :
  Forall (memberOf population) l ->
  StronglySorted (fun p q => (fst p < fst q)%nat) l ->
  StronglySorted before (Array_sort (fun p q => byValue (snd p) (snd q)) l).
Proof.
  induction l as [|p l IH]; intros Hl Htag; simpl; [constructor|].
  inversion Hl as [|? ? Hp Hl']; subst.
  inversion Htag as [|? ? Htag' Hpl]; subst.
  pose proof (Array_sort_perm (fun p q => byValue (snd p) (snd q)) l) as Hperm.
  apply insertSorted_before; auto.
  - rewrite Forall_forall in *. intros x Hx. apply Hl'.
    now apply (Permutation_in _ Hperm).
  - rewrite Forall_forall in *. intros x Hx. apply Hpl.
    now apply (Permutation_in _ Hperm).
Qed.

Lemma ranked_member : Forall (memberOf population) (ranked population).
Proof.
  apply Forall_forall. intros [i f] Hin. unfold memberOf, ranked in *.
  now apply in_combine_r in Hin.
Qed.
End Order.

Lemma StronglySorted_app {A} (R : A -> A -> Prop) (l1 l2 : list A) :
  StronglySorted R (l1 ++ l2) ->
  StronglySorted R l1 /\ forall a b, In a l1 -> In b l2 -> R a b.
Proof.
  induction l1 as [|a l1 IH]; simpl; intros H.
  - split; [constructor | intros a b []].
  - inversion H as [|? ? Hs Hall]; subst. destruct (IH Hs) as [H1 H2].
    rewrite Forall_forall in Hall. split.
    + constructor; trivial. apply Forall_forall. intros x Hx.
      apply Hall, in_or_app. now left.
    + intros x b [<- | Hx] Hb; [apply Hall, in_or_app; now right | now apply H2].
Qed.

(** Sorting with the source's comparator and keeping the first [m]:
    the members kept, with their positions, are in ascending order of
    (value, position), and each comes before every member dropped. *)
Lemma sort_and_keep (population : list Firefly.t) (m : nat) :
  allNumbers population = true ->
  comparatorFaithful population = true ->
  exists kept dropped : list (nat * Firefly.t),
    Permutation (kept ++ dropped) (ranked population) /\
    firstn m (Array_sort byValue population) = map snd kept /\
    StronglySorted before kept /\
    (forall p q, In p kept -> In q dropped -> before p q).
Proof.
  intros Hnum Hfaith.
  set (sorted := Array_sort (fun p q => byValue (snd p) (snd q)) (ranked population)).
  exists (firstn m sorted), (skipn m sorted).
  assert (Hs : StronglySorted before sorted)
    by (apply Array_sort_before with population;
        auto using ranked_member, ranked_increasing).
  rewrite <- (firstn_skipn m sorted) in Hs.
  destruct (StronglySorted_app _ _ Hs) as [H1 H2].
  repeat split; trivial.
  - rewrite firstn_skipn. apply Array_sort_perm.
  - rewrite <- firstn_map. unfold sorted.
    now rewrite Array_sort_ranked, ranked_snd.
Qed.
End SortByValue.

(** ** Changing the population size *)

Section Resize.
Context {RT : JsRuntime}.
Import FireflyAlgorithm.

(** One firefly pushed: six draws, the first two for the position. *)
Lemma pushRandomFirefly_runs o (a : FireflyAlgorithm.t) k :
  objectiveFunction a = Some o ->
  exists f,
    pushRandomFirefly (domain o) a k =
    (Normal tt, set_fireflies (fireflies a ++ [f]) a, (k + 6)%nat) /\
    freshUnder o f.
Proof.
  intros Ho. unfold pushRandomFirefly.
  unfold bind at 1. unfold random at 1. unfold bind at 1. unfold random at 1.
  unfold bind at 1. unfold this at 1. rewrite Ho. unfold bind at 1.
  destruct (new_normal
              (xMin (domain o) + Math_random k * (xMax (domain o) - xMin (domain o)))
              (yMin (domain o) + Math_random (S k) * (yMax (domain o) - yMin (domain o)))
              o a (S (S k)))
    as (f & E & Hx & Hy & Hof & Hv & Hb & Htr & _ & Hfl & Hin & Hrd & Hre).
  replace (S (S k) + 4)%nat with (k + 6)%nat in E by lia.
  rewrite E. exists f. split.
  - reflexivity.
  - unfold freshUnder. cbv zeta. rewrite Hx, Hy, Hv, Hb.
    repeat split; trivial. exists k. now split.
Qed.

Lemma populate_runs o count :
  forall (a : FireflyAlgorithm.t) k,
    objectiveFunction a = Some o ->
    exists fresh,
      populate count (domain o) a k =
      (Normal tt, set_fireflies (fireflies a ++ fresh) a, (k + 6 * count)%nat) /\
      List.length fresh = count /\ Forall (freshUnder o) fresh.
Proof.
  induction count as [|count IH]; intros a k Ho.
  - exists []. simpl. rewrite app_nil_r, Nat.add_0_r. repeat split; trivial.
    unfold ret. now destruct a.
  - destruct (pushRandomFirefly_runs a k Ho) as (f & E & Hf).
    destruct (IH (set_fireflies (fireflies a ++ [f]) a) (k + 6)%nat Ho)
      as (fresh & E2 & Hlen & Hfresh).
    replace (k + 6 + 6 * count)%nat with (k + 6 * S count)%nat in E2 by lia.
    exists (f :: fresh). simpl populate. unfold bind. rewrite E, E2.
    simpl fireflies. rewrite <- app_assoc. simpl. repeat split; auto.
Qed.

Lemma adjustPopulation_grows o newN (a : FireflyAlgorithm.t) k :
  objectiveFunction a = Some o ->
  (Z.of_nat (List.length (fireflies a)) < newN)%Z ->
  exists fresh,
    adjustPopulation newN a k =
    (Normal tt, set_fireflies (fireflies a ++ fresh) a,
     (k + 6 * List.length fresh)%nat) /\
    Z.of_nat (List.length (fireflies a ++ fresh)) = newN /\
    Forall (freshUnder o) fresh.
Proof.
  intros Ho Hlt. unfold adjustPopulation. unfold bind at 1. unfold this at 1.
  rewrite Ho. cbv zeta.
  destruct (Z.gtb_spec newN (Z.of_nat (List.length (fireflies a)))); [|lia].
  unfold grow. unfold bind at 1. unfold this at 1.
  destruct (populate_runs (Z.to_nat (newN - Z.of_nat (List.length (fireflies a)))) a k Ho)
    as (fresh & E & Hlen & Hfresh).
  exists fresh. rewrite E, Hlen. repeat split; trivial.
  rewrite length_app, Hlen. lia.
Qed.

Lemma adjustPopulation_shrinks o newN (a : FireflyAlgorithm.t) k :
  objectiveFunction a = Some o ->
  (0 < newN < Z.of_nat (List.length (fireflies a)))%Z ->
  adjustPopulation newN a k =
  (Normal tt,
   set_fireflies (firstn (Z.to_nat newN) (Array_sort byValue (fireflies a))) a, k).
Proof.
  intros Ho Hlt. unfold adjustPopulation. unfold bind at 1. unfold this at 1.
  rewrite Ho. cbv zeta.
  destruct (Z.gtb_spec newN (Z.of_nat (List.length (fireflies a)))); [lia|].
  destruct (Z.ltb_spec newN (Z.of_nat (List.length (fireflies a)))); [|lia].
  unfold bind, assign. simpl. unfold Array_slice0.
  rewrite Array_sort_length.
  destruct (Z.ltb_spec newN 0); [lia|].
  now rewrite Z.min_l by lia.
Qed.

(** C5. A call of [setParams] that changes [n] and not the function,
    on an algorithm with a bound objective function.
    Shrinking ([0 < n < size], values that are numbers): the population
    becomes [n] members of the old one, listed in ascending order of
    value with ties in their old order, and each kept member comes before
    (lower value, or equal value and earlier position) every dropped
    one.  Growing ([n > size]): fresh random fireflies are appended until
    the size is [n].  In both cases [generation] and [bestFirefly] are
    untouched. *)
Theorem setParams_resize
        (p : PartialParams) (a : FireflyAlgorithm.t) (k : nat)
        (newN : Z) (o : ObjectiveFunction) :
  new_n p = Some newN ->
  newN <> n (params a) ->
  changesFunction p a = false ->
  objectiveFunction a = Some o ->
  let r := setParams p a k in
  let a' := receiver r in
  ((0 < newN < Z.of_nat (List.length (fireflies a)))%Z ->
   allNumbers (fireflies a) = true ->
   comparatorFaithful (fireflies a) = true ->
   completion r = Normal tt /\ cursor r = k /\
   Z.of_nat (List.length (fireflies a')) = newN /\
   generation a' = generation a /\ bestFirefly a' = bestFirefly a /\
   params a' = spread (params a) p /\
   exists kept dropped : list (nat * Firefly.t),
     Permutation (kept ++ dropped) (ranked (fireflies a)) /\
     fireflies a' = map snd kept /\
     StronglySorted before kept /\
     (forall q d, In q kept -> In d dropped -> before q d)) /\
  ((Z.of_nat (List.length (fireflies a)) < newN)%Z ->
   completion r = Normal tt /\
   Z.of_nat (List.length (fireflies a')) = newN /\
   generation a' = generation a /\ bestFirefly a' = bestFirefly a /\
   params a' = spread (params a) p /\
   exists fresh,
     fireflies a' = fireflies a ++ fresh /\ Forall (freshUnder o) fresh /\
     cursor r = (k + 6 * List.length fresh)%nat).
Proof.
  intros HnewN Hne Hfn Ho r a'.
  set (a0 := set_params (spread (params a) p) a).
  assert (Hparts : (0 < newN)%Z -> setParams p a k = adjustPopulation newN a0 k).
  { intros Hpos. rewrite setParams_parts. cbv zeta. rewrite Hfn, HnewN.
    unfold changesSize, truthy_Z. rewrite HnewN.
    destruct (Z.eqb_spec newN (n (params a))); [contradiction|].
    destruct (Z.eqb_spec newN 0); [lia|reflexivity]. }
  assert (Ho0 : objectiveFunction a0 = Some o) by exact Ho.
  split.
  - intros Hrange Hnum Hfaith. subst a' r. rewrite Hparts by lia.
    rewrite (adjustPopulation_shrinks a0 k Ho0 Hrange).
    unfold completion, receiver, cursor. simpl.
    destruct (sort_and_keep (fireflies a) (Z.to_nat newN) Hnum Hfaith)
      as (kept & dropped & Hperm & Hkept & Hsorted & Hcut).
    repeat split; trivial.
    + rewrite length_firstn, Array_sort_length. lia.
    + exists kept, dropped. repeat split; trivial.
  - intros Hlarger. subst a' r. rewrite Hparts by lia.
    destruct (adjustPopulation_grows a0 k Ho0 Hlarger) as (fresh & E & Hlen & Hfresh).
    rewrite E. unfold completion, receiver, cursor. simpl.
    repeat split; trivial. exists fresh. repeat split; trivial.
Qed.
End Resize.

(** ** No validation in [setParams] *)

Section NoValidation.
Context {RT : JsRuntime}.
Import FireflyAlgorithm.

Lemma fails_ret {T A} e0 (v : A) : failsOnlyWith e0 (ret v : Js T A).
Proof. intros t k e H. discriminate. Qed.

Lemma fails_this {T} e0 : failsOnlyWith e0 (this : Js T T).
Proof. intros t k e H. discriminate. Qed.

Lemma fails_assign {T} e0 (g : T -> T) : failsOnlyWith e0 (assign g).
Proof. intros t k e H. discriminate. Qed.

Lemma fails_random {T} e0 : failsOnlyWith e0 (random : Js T float).
Proof. intros t k e H. discriminate. Qed.

Lemma fails_throw {T A} e0 : failsOnlyWith e0 (throw e0 : Js T A).
Proof. intros t k e H. now injection H. Qed.

Lemma fails_bind {T A B} e0 (m : Js T A) (f : A -> Js T B) :
  failsOnlyWith e0 m -> (forall v, failsOnlyWith e0 (f v)) ->
  failsOnlyWith e0 (bind m f).
Proof.
  intros Hm Hf t k e. unfold bind, completion. specialize (Hm t k).
  unfold completion in Hm.
  destruct (m t k) as [[[v|e1] t'] k']; simpl in *.
  - apply (Hf v t' k').
  - intros [= <-]. now apply Hm.
Qed.

Lemma fails_when {T} e0 c (m : Js T unit) :
  failsOnlyWith e0 m -> failsOnlyWith e0 (when c m).
Proof. destruct c; simpl; auto using fails_ret. Qed.

Lemma fails_on {T U A} e0 (obj : U) (m : Js U A) :
  failsOnlyWith e0 m -> failsOnlyWith e0 (on obj m : Js T (A * U)).
Proof.
  intros Hm t k e. unfold on, completion. specialize (Hm obj k e).
  unfold completion in Hm.
  destruct (m obj k) as [[[v|e1] u'] k']; simpl in *; [discriminate|].
  intros [= <-]. now apply Hm.
Qed.

Lemma fails_onFirefly {A} i (m : Js Firefly.t A) :
  failsOnlyWith TypeError m -> failsOnlyWith TypeError (onFirefly i m).
Proof.
  intros Hm a k e. unfold onFirefly, completion.
  destruct (nth_error (fireflies a) i) as [f|]; simpl; [|now intros [= <-]].
  specialize (Hm f k e). unfold completion in Hm.
  destruct (m f k) as [[c f'] k']. exact Hm.
Qed.

Lemma fails_evaluate : failsOnlyWith TypeError Firefly.evaluate.
Proof.
  unfold Firefly.evaluate. apply fails_bind; [apply fails_this|]. intros f.
  destruct (Firefly.objectiveFunction f); [|apply fails_throw].
  apply fails_bind; [apply fails_assign|]. intros ?.
  apply fails_bind; [apply fails_this|]. intros ?. apply fails_assign.
Qed.

Lemma fails_new {T} x0 y0 o : failsOnlyWith TypeError (Firefly.new x0 y0 o : Js T _).
Proof.
  unfold Firefly.new.
  repeat (apply fails_bind; [apply fails_random|]; intros ?).
  apply fails_bind; [apply fails_on, fails_evaluate|]. intros [u f].
  apply fails_ret.
Qed.

Lemma fails_clone : failsOnlyWith TypeError Firefly.clone.
Proof.
  unfold Firefly.clone. apply fails_bind; [apply fails_this|]. intros f.
  apply fails_bind; [apply fails_new|]. intros g. apply fails_ret.
Qed.

Lemma fails_updateBest : failsOnlyWith TypeError updateBest.
Proof.
  unfold updateBest. apply fails_bind; [apply fails_this|]. intros a.
  destruct (fireflies a); [apply fails_throw|].
  cbv zeta. apply fails_when.
  apply fails_bind; [apply fails_on, fails_clone|]. intros [c u].
  apply fails_assign.
Qed.





(** The stored parameters survive the rest of the call. *)
Lemma new_receiver {T} x0 y0 o (t : T) k :
  receiver (Firefly.new x0 y0 o t k) = t.
Proof.
  destruct o as [o|].
  - destruct (new_normal x0 y0 o t k) as (f & -> & _). reflexivity.
  - now rewrite new_undefined.
Qed.

Section Kept.
Context {X : Type} (proj : FireflyAlgorithm.t -> X).
Hypothesis beside : besidePopulation proj.
Hypothesis besideBest : forall b a, proj (set_bestFirefly b a) = proj a.

Lemma keeps_updateBest : keeps proj updateBest.
Proof.
  unfold updateBest. apply keeps_bind; [apply keeps_this|]. intros a.
  destruct (fireflies a); [apply keeps_throw|]. cbv zeta.
  apply keeps_when. apply keeps_bind; [apply keeps_on|]. intros [c u].
  apply keeps_assign. intros a1. apply besideBest.
Qed.

Lemma keeps_rebindFireflies todo :
  forall i, keeps proj (rebindFireflies i todo).
Proof.
  induction todo as [|todo IH]; intros i; simpl; [apply keeps_ret|].
  apply keeps_bind; [apply keeps_this|]. intros a.
  apply keeps_bind; [now apply keeps_onFirefly|]. intros ?.
  destruct (objectiveFunction a); [|apply keeps_throw].
  apply keeps_bind; [now apply keeps_onFirefly|]. intros ?.
  apply keeps_bind; [now apply keeps_onFirefly|]. intros ?. apply IH.
Qed.

Lemma keeps_populate d count : keeps proj (populate count d).
Proof.
  induction count as [|count IH]; simpl; [apply keeps_ret|].
  apply keeps_bind; [|intros ?; exact IH].
  unfold pushRandomFirefly.
  do 2 (apply keeps_bind; [apply keeps_random|]; intros ?).
  apply keeps_bind; [apply keeps_this|]. intros a.
  apply keeps_bind; [intros a1 k1; now rewrite new_receiver|]. intros f.
  apply keeps_assign. intros a1. apply beside.
Qed.

Lemma keeps_adjustPopulation newN : keeps proj (adjustPopulation newN).
Proof.
  unfold adjustPopulation. apply keeps_bind; [apply keeps_this|]. intros a.
  destruct (objectiveFunction a); [|apply keeps_throw]. cbv zeta.
  destruct (_ >? _)%Z.
  - unfold grow. apply keeps_bind; [apply keeps_this|]. intros a1.
    apply keeps_populate.
  - destruct (_ <? _)%Z; [|apply keeps_ret].
    apply keeps_bind; [|intros ?]; apply keeps_assign; intros a1; apply beside.
Qed.
End Kept.

Lemma setParams_stores (p : PartialParams) (a : FireflyAlgorithm.t) (k : nat) :
  params (receiver (setParams p a k)) = spread (params a) p.
Proof.
  assert (Hkeep : keeps params (
    when (changesFunction p a) (
      a1 <- this ;;
      assign (set_objectiveFunction (objectiveFunctions (functionKey (params a1)))) ;;
      a2 <- this ;;
      rebindFireflies 0 (List.length (fireflies a2)) ;;
      assign (set_bestFirefly None) ;;
      updateBest) ;;
    match new_n p with
    | Some newN =>
        when (truthy_Z newN && negb (newN =? n (params a))%Z) (adjustPopulation newN)
    | None => ret tt
    end)).
  { apply keeps_bind.
    - apply keeps_when. apply keeps_bind; [apply keeps_this|]. intros a1.
      apply keeps_bind; [now apply keeps_assign|]. intros ?.
      apply keeps_bind; [apply keeps_this|]. intros a2.
      apply keeps_bind; [apply keeps_rebindFireflies, beside_params|]. intros ?.
      apply keeps_bind; [now apply keeps_assign|]. intros ?.
      apply keeps_updateBest; reflexivity.
    - intros ?. destruct (new_n p); [|apply keeps_ret].
      apply keeps_when, keeps_adjustPopulation, beside_params. }
  specialize (Hkeep (set_params (spread (params a) p) a) k).
  exact Hkeep.
Qed.



End NoValidation.

(** ** The statements at work on the scenarios *)

Section Scenarios.
Import FireflyAlgorithm Scenario.

Lemma evaluable_check (l : list Firefly.t) :
  forallb (fun f => match Firefly.objectiveFunction f with
                    | Some _ => true
                    | None => false
                    end) l = true ->
  Forall evaluable l.
Proof.
  intros H. apply Forall_forall. intros f Hf.
  rewrite forallb_forall in H. specialize (H f Hf). unfold evaluable.
  now destruct (Firefly.objectiveFunction f).
Qed.



(** C2, at the failing input.  [new FireflyAlgorithm({n: 2,
    functionKey: 'sphere'})] whose first firefly fell on the optimum, then
    [reset()]: the call returns with two new fireflies and generation 0,
    but the recorded best is still the one of before the call, of value
    0, strictly below every member of the new population.  The same after
    an ordinary run: three fireflies, five calls of [step()], then
    [reset()] keep the record of the run, below the new population. *)
Theorem reset_keeps_stale_best :
  completion (reset (RT := luckyEngine) lucky luckyCursor) = Normal tt /\
  generation (receiver (reset (RT := luckyEngine) lucky luckyCursor)) = 0%Z /\
  List.length (fireflies (receiver (reset (RT := luckyEngine) lucky luckyCursor)))
  = 2%nat /\
  bestFirefly (receiver (reset (RT := luckyEngine) lucky luckyCursor))
  = bestFirefly lucky /\
  option_map Firefly.value (bestFirefly lucky) = Some 0 /\
  forallb (fun f => 0 <? Firefly.value f)
          (fireflies (receiver (reset (RT := luckyEngine) lucky luckyCursor))) = true /\
  completion (reset (RT := engine) (fst (steps (RT := engine) 5 swarm swarmCursor))
                    (snd (steps (RT := engine) 5 swarm swarmCursor))) = Normal tt /\
  bestFirefly (receiver (reset (RT := engine)
                           (fst (steps (RT := engine) 5 swarm swarmCursor))
                           (snd (steps (RT := engine) 5 swarm swarmCursor))))
  = bestFirefly (fst (steps (RT := engine) 5 swarm swarmCursor)) /\
  (exists b, bestFirefly (fst (steps (RT := engine) 5 swarm swarmCursor)) = Some b /\
             forallb (fun f => Firefly.value b <? Firefly.value f)
                     (fireflies (receiver (reset (RT := engine)
                        (fst (steps (RT := engine) 5 swarm swarmCursor))
                        (snd (steps (RT := engine) 5 swarm swarmCursor))))) = true).
Proof.
  split_all; try (vm_compute; reflexivity).
  eexists. split; vm_compute; reflexivity.
Qed.

Lemma step_is_sequential_sweep_witness :
  generation (receiver (step (RT := engine) swarm swarmCursor)) = 1%Z /\
  fireflies (receiver (step (RT := engine) swarm swarmCursor)) =
  fst (sweep (RT := engine) 1 1 0.2 (domain sphere) [] (fireflies swarm) swarmCursor).
Proof.
  destruct (@step_is_sequential_sweep engine swarm swarmCursor sphere)
    as (Hpop & _ & Hgen & _).
  - reflexivity.
  - vm_compute. discriminate.
  - apply evaluable_check. vm_compute. reflexivity.
  - split; [exact Hgen | exact Hpop].
Defined.

Lemma bestFirefly_never_regresses_witness :
  exists b b',
    bestFirefly swarm = Some b /\
    bestFirefly (fst (steps (RT := engine) 3 swarm swarmCursor)) = Some b' /\
    (Firefly.value b <? Firefly.value b') = false.
Proof.
  destruct (@bestFirefly_never_regresses engine 3 swarm swarmCursor)
    as (_ & Hnever & _).
  eexists. eexists.
  split; [vm_compute; reflexivity|].
  split; [vm_compute; reflexivity|].
  apply Hnever; vm_compute; reflexivity.
Defined.

Lemma setParams_resize_witness :
  Z.of_nat (List.length (fireflies swarm40)) = 40%Z /\
  Z.of_nat (List.length (fireflies (receiver
    (setParams (RT := engine) (resizeTo 5) swarm40 swarm40Cursor)))) = 5%Z /\
  bestFirefly (receiver (setParams (RT := engine) (resizeTo 5) swarm40 swarm40Cursor))
  = bestFirefly swarm40 /\
  Z.of_nat (List.length (fireflies (receiver
    (setParams (RT := engine) (resizeTo 42) swarm40 swarm40Cursor)))) = 42%Z /\
  generation (receiver (setParams (RT := engine) (resizeTo 42) swarm40 swarm40Cursor))
  = generation swarm40.
Proof.
  destruct (@setParams_resize engine (resizeTo 5) swarm40 swarm40Cursor 5%Z sphere)
    as [Hshrink _]; try reflexivity.
  { vm_compute. discriminate. }
  destruct (@setParams_resize engine (resizeTo 42) swarm40 swarm40Cursor 42%Z sphere)
    as [_ Hgrow]; try reflexivity.
  { vm_compute. discriminate. }
  destruct Hshrink as (_ & _ & Hlen & _ & Hbest & _);
    [split; vm_compute; reflexivity | vm_compute; reflexivity
     | vm_compute; reflexivity |].
  destruct Hgrow as (_ & Hlen2 & Hgen & _); [vm_compute; reflexivity|].
  split; [vm_compute; reflexivity|]. split_all; assumption.
Defined.

Lemma setParams_function_change_witness :
  exists (a1 : FireflyAlgorithm.t) (c : Firefly.t),
    setParams (RT := engine) toRosenbrock swarm swarmCursor
    = (Normal tt, a1, (swarmCursor + 4)%nat) /\
    objectiveFunction a1 = Some (rosenbrock (RT := engine)) /\
    Forall2 (reboundTo (rosenbrock (RT := engine))) (fireflies swarm) (fireflies a1) /\
    bestFirefly a1 = Some c.
Proof.
  destruct (@setParams_function_change engine toRosenbrock swarm swarmCursor
              "rosenbrock"%string (rosenbrock (RT := engine)))
    as (a1 & best & c & _ & _ & Ho & Hall & _ & _ & Hbest & Hrun & _).
  - reflexivity.
  - vm_compute. discriminate.
  - reflexivity.
  - vm_compute. discriminate.
  - exists a1, c. split; [apply Hrun; reflexivity|]. split_all; assumption.
Defined.

Lemma flash_envelope_witness :
  Firefly.flashIntensity (receiver (Firefly.updateFlash (RT := engine) 40 flasher 0%nat)) = 1 /\
  Firefly.flashIntensity
    (receiver (Firefly.updateFlash (RT := engine) 60
       (receiver (Firefly.updateFlash (RT := engine) 40 flasher 0%nat)) 0%nat))
  = Math_exp (JsRuntime := engine) (-3 * (0.5 - 0.2)) /\
  (0.4065 <? Math_exp (JsRuntime := engine) (-3 * (0.5 - 0.2))) = true /\
  (Math_exp (JsRuntime := engine) (-3 * (0.5 - 0.2)) <? 0.4075) = true /\
  Firefly.isFlashing (receiver (Firefly.updateFlash (RT := engine) 250 flasher 0%nat)) = false /\
  Firefly.flashIntensity (receiver (Firefly.updateFlash (RT := engine) 250 flasher 0%nat)) = 0.
Proof.
  destruct (@flash_envelope engine) as [Hgeneral Hexample].
  destruct (Hexample flasher 0%nat) as (_ & _ & H1 & _ & _ & _ & H2 & _);
    try reflexivity.
  destruct (Hgeneral 250 flasher 0%nat) as (_ & _ & _ & _ & _ & Hend);
    [reflexivity | left; reflexivity |].
  destruct Hend as (Hoff & Hzero & _); [vm_compute; reflexivity|].
  split_all; trivial.
Defined.

(** C8, against the claim as stated.  The female of the claim's example
    (interval 4000, phase 1000) next to a male of intensity 0.6, when
    [Math.random()] returns [0.9999999999999998], a value below 1: she
    responds, and her [responseDelay] is 600, outside [[400, 600)]. *)
Lemma responseDelay_reaches_600 :
  (0 <=? Math_random (JsRuntime := lateEngine) 0) = true /\
  (Math_random (JsRuntime := lateEngine) 0 <? 1) = true /\
  Firefly.isResponding
    (receiver (Firefly.checkForNearbyFlash (RT := lateEngine) 0 [listener; caller]
                 (domain sphere) listener 0%nat)) = true /\
  Firefly.responseDelay
    (receiver (Firefly.checkForNearbyFlash (RT := lateEngine) 0 [listener; caller]
                 (domain sphere) listener 0%nat)) = 600 /\
  (Firefly.responseDelay
     (receiver (Firefly.checkForNearbyFlash (RT := lateEngine) 0 [listener; caller]
                  (domain sphere) listener 0%nat)) <? 600) = false.
Proof.
  split_all; vm_compute; reflexivity.
Qed.

Lemma checkForNearbyFlash_spec_witness :
  Firefly.isResponding
    (receiver (Firefly.checkForNearbyFlash (RT := engine) 0 [listener; caller]
                 (domain sphere) listener 7%nat)) = true /\
  Firefly.responseDelay
    (receiver (Firefly.checkForNearbyFlash (RT := engine) 0 [listener; caller]
                 (domain sphere) listener 7%nat))
  = 400 + Math_random (JsRuntime := engine) 7 * 200 /\
  receiver (Firefly.checkForNearbyFlash (RT := engine) 1 [listener; caller]
              (domain sphere) caller 7%nat) = caller.
Proof.
  destruct (@checkForNearbyFlash_spec engine 0 [listener; caller] (domain sphere)
              listener 7%nat) as (_ & _ & Hactive & _).
  destruct Hactive as ((Htrig & _) & _); try reflexivity.
  destruct (@checkForNearbyFlash_spec engine 1 [listener; caller] (domain sphere)
              caller 7%nat) as (_ & Hidle & _).
  destruct Hidle as (Hsame & _); [left; discriminate|].
  rewrite Htrig, Hsame. split_all; reflexivity.
Defined.

Lemma clone_copies_all_but_trail_witness :
  exists c,
    Firefly.clone (RT := engine) flasher 0%nat = (Normal c, flasher, 4%nat) /\
    Firefly.trail flasher <> [] /\ Firefly.trail c = [] /\
    Firefly.value c = Firefly.value flasher /\
    Firefly.flashDuration c = Firefly.flashDuration flasher.
Proof.
  destruct (proj1 (@clone_copies_all_but_trail engine) flasher sphere 0%nat eq_refl)
    as (c & Hc & _ & _ & Hv & _ & _ & _ & _ & Hd & _ & _ & _ & _ & Htr).
  exists c. split_all; trivial. discriminate.
Defined.
End Scenarios.

(* ===================================================================== *)
(** * Further properties of the simulator                                 *)
(* ===================================================================== *)

(** ** What a call relates: frames and invariants *)

Section Preserving.
Context {T : Type} (R : T -> T -> Prop).
Hypothesis R_refl : forall t, R t t.
Hypothesis R_trans : forall t1 t2 t3, R t1 t2 -> R t2 t3 -> R t1 t3.

Lemma preserves_ret {A} (v : A) : preserves R (ret v).
Proof. intros t k. apply R_refl. Qed.

Lemma preserves_throw {A} e : preserves R (throw e : Js T A).
Proof. intros t k. apply R_refl. Qed.

Lemma preserves_this : preserves R this.
Proof. intros t k. apply R_refl. Qed.

Lemma preserves_random {RT : JsRuntime} : preserves R random.
Proof. intros t k. apply R_refl. Qed.

Lemma preserves_assign g : (forall t, R t (g t)) -> preserves R (assign g).
Proof. intros H t k. apply H. Qed.

Lemma preserves_on {U A} (obj : U) (m : Js U A) : preserves R (on obj m).
Proof.
  intros t k. unfold on, receiver.
  destruct (m obj k) as [[[v|e] u] k']; apply R_refl.
Qed.

Lemma preserves_bind {A B} (m : Js T A) (f : A -> Js T B) :
  preserves R m -> (forall v, preserves R (f v)) -> preserves R (bind m f).
Proof.
  intros Hm Hf t k. specialize (Hm t k). unfold bind, receiver in *.
  destruct (m t k) as [[[v|e] t'] k']; simpl in *; [|exact Hm].
  eapply R_trans; [exact Hm|]. apply Hf.
Qed.

Lemma preserves_when c (m : Js T unit) : preserves R m -> preserves R (when c m).
Proof. intros Hm. destruct c; simpl; [exact Hm | apply preserves_ret]. Qed.

End Preserving.

(** One step of a proof that a body preserves a relation: through the
    sequencing and the operations that leave the receiver alone. *)
Ltac preserve_step Hrefl Htrans :=
  lazymatch goal with
  | |- preserves _ (bind _ _) => eapply preserves_bind; [exact Htrans | | intros ?]
  | |- preserves _ (ret _) => eapply preserves_ret; exact Hrefl
  | |- preserves _ (throw _) => eapply preserves_throw; exact Hrefl
  | |- preserves _ this => eapply preserves_this; exact Hrefl
  | |- preserves _ random => eapply preserves_random; exact Hrefl
  | |- preserves _ (on _ _) => eapply preserves_on; exact Hrefl
  | |- preserves _ (when _ _) => eapply preserves_when; [exact Hrefl |]
  | |- preserves _ (if ?c then _ else _) => destruct c
  | |- preserves _ (match ?o with Some _ => _ | None => _ end) => destruct o
  | |- preserves _ (let (_, _) := ?p in _) => destruct p
  | |- preserves _ (let _ := _ in _) => cbv zeta
  end.

Lemma Forall2_Forall (R : Firefly.t -> Firefly.t -> Prop) (P Q : Firefly.t -> Prop)
      (l l' : list Firefly.t) :
  (forall f f', R f f' -> P f -> Q f') ->
  Forall2 R l l' -> Forall P l -> Forall Q l'.
Proof.
  intros H H2. induction H2; intros HP; constructor; inversion HP; subst; eauto.
Qed.

Section Pointwise.
Context {RT : JsRuntime}.
Import FireflyAlgorithm.
Variable R : Firefly.t -> Firefly.t -> Prop.
Hypothesis R_refl : forall f, R f f.
Hypothesis R_trans : forall f1 f2 f3, R f1 f2 -> R f2 f3 -> R f1 f3.

Lemma Forall2_refl (l : list Firefly.t) : Forall2 R l l.
Proof. induction l; constructor; auto. Qed.

Lemma Forall2_trans (l1 l2 l3 : list Firefly.t) :
  Forall2 R l1 l2 -> Forall2 R l2 l3 -> Forall2 R l1 l3.
Proof.
  intros H. revert l3. induction H; intros l3 H3; inversion H3; subst;
    constructor; eauto.
Qed.

Lemma pointwise_refl a : pointwise R a a.
Proof. apply Forall2_refl. Qed.

Lemma pointwise_trans a1 a2 a3 :
  pointwise R a1 a2 -> pointwise R a2 a3 -> pointwise R a1 a3.
Proof. apply Forall2_trans. Qed.

Lemma Forall2_store (l : list Firefly.t) :
  forall i f f', nth_error l i = Some f -> R f f' -> Forall2 R l (store i f' l).
Proof.
  induction l as [|a l IH]; intros [|i] f f' Hn Hr; simpl in *; try discriminate.
  - injection Hn as ->. constructor; [exact Hr | apply Forall2_refl].
  - constructor; [apply R_refl | eapply IH; eauto].
Qed.

(** A call on one firefly relates the populations when the method relates
    its receiver. *)
Lemma preserves_onFirefly {A} i (m : Js Firefly.t A) :
  preserves R m -> preserves (pointwise R) (onFirefly i m).
Proof.
  intros Hm a k. unfold onFirefly, pointwise, receiver.
  destruct (nth_error (fireflies a) i) as [f|] eqn:Hn; [|apply Forall2_refl].
  specialize (Hm f k). unfold receiver in Hm.
  destruct (m f k) as [[c f'] k']. simpl in *. eapply Forall2_store; eauto.
Qed.

(** An assignment to a field other than the population. *)
Lemma preserves_aside g :
  (forall a, fireflies (g a) = fireflies a) -> preserves (pointwise R) (assign g).
Proof.
  intros H a k. unfold pointwise, assign, receiver. simpl. rewrite H.
  apply Forall2_refl.
Qed.

Ltac pw :=
  repeat preserve_step pointwise_refl pointwise_trans;
  auto;
  try (apply preserves_onFirefly; now auto);
  try (apply preserves_aside; reflexivity).

Lemma preserves_updateBest : preserves (pointwise R) updateBest.
Proof.
  unfold updateBest. pw. destruct (fireflies v); pw.
Qed.

Section Moves.
Hypothesis R_moveTowards :
  forall other b0 g al d, preserves R (Firefly.moveTowards other b0 g al d).
Hypothesis R_randomWalk : forall al d, preserves R (Firefly.randomWalk al d).

Lemma preserves_compareWithOthers b0 g al d i todo :
  forall j moved,
    preserves (pointwise R) (compareWithOthers b0 g al d i j todo moved).
Proof.
  induction todo as [|todo IH]; intros j moved; simpl; pw.
Qed.

Lemma preserves_moveFireflies b0 g al d todo :
  forall i, preserves (pointwise R) (moveFireflies b0 g al d i todo).
Proof.
  induction todo as [|todo IH]; intros i; simpl; pw.
  apply preserves_compareWithOthers.
Qed.

Lemma preserves_step : preserves (pointwise R) step.
Proof.
  unfold step. pw.
  - apply preserves_moveFireflies.
  - apply preserves_updateBest.
Qed.

Lemma preserves_steps count :
  forall a k, pointwise R a (fst (steps count a k)).
Proof.
  induction count as [|count IH]; intros a k; simpl; [apply pointwise_refl|].
  eapply pointwise_trans; [apply preserves_step | apply IH].
Qed.
End Moves.

Section Clock.
Hypothesis R_checkForNearbyFlash :
  forall i l d, preserves R (Firefly.checkForNearbyFlash i l d).
Hypothesis R_updateFlash : forall dt, preserves R (Firefly.updateFlash dt).

Lemma preserves_checkResponses d todo :
  forall i, preserves (pointwise R) (Renderer.checkResponses d i todo).
Proof.
  induction todo as [|todo IH]; intros i; simpl; pw.
Qed.

Lemma preserves_updateFlashes dt todo :
  forall i, preserves (pointwise R) (Renderer.updateFlashes dt i todo).
Proof.
  induction todo as [|todo IH]; intros i; simpl; pw.
Qed.

Lemma preserves_advanceTime d dt :
  preserves (pointwise R) (Renderer.advanceTime d dt).
Proof.
  unfold Renderer.advanceTime. pw.
  - apply preserves_checkResponses.
  - apply preserves_updateFlashes.
Qed.

Lemma preserves_render self timestamp timeScale :
  preserves (pointwise R) (Renderer.render self timestamp timeScale).
Proof.
  unfold Renderer.render. pw. apply preserves_advanceTime.
Qed.
End Clock.

Section Rebinding.
Hypothesis R_bound :
  forall o, preserves R (assign (Firefly.set_objectiveFunction o)).
Hypothesis R_clampToDomain : forall d, preserves R (Firefly.clampToDomain d).
Hypothesis R_evaluate : preserves R Firefly.evaluate.

Lemma preserves_rebindFireflies todo :
  forall i, preserves (pointwise R) (rebindFireflies i todo).
Proof.
  induction todo as [|todo IH]; intros i; simpl; pw.
Qed.
End Rebinding.

End Pointwise.

(** ** What the methods of a firefly leave alone *)

(** Running a move: the method bodies unfolded on a receiver. *)
Ltac run_move :=
  intros f k;
  unfold Firefly.moveTowards, Firefly.randomWalk, Firefly.addTrailPoint,
         Firefly.clampToDomain, Firefly.evaluate;
  js_unfold; cbv beta iota zeta;
  destruct (Nat.ltb _ _) eqn:Hfull; simpl;
  destruct (Firefly.objectiveFunction f); simpl.

Section FireflyFrames.
Context {RT : JsRuntime}.

Lemma sameFlashState_refl f : sameFlashState f f.
Proof. unfold sameFlashState. tauto. Qed.

Lemma sameFlashState_trans f1 f2 f3 :
  sameFlashState f1 f2 -> sameFlashState f2 f3 -> sameFlashState f1 f3.
Proof. unfold sameFlashState. intuition congruence. Qed.

Lemma samePlace_refl f : samePlace f f.
Proof. unfold samePlace. tauto. Qed.

Lemma samePlace_trans f1 f2 f3 : samePlace f1 f2 -> samePlace f2 f3 -> samePlace f1 f3.
Proof. unfold samePlace. intuition congruence. Qed.

Lemma keptBy_refl P f : keptBy P f f.
Proof. unfold keptBy. tauto. Qed.

Lemma keptBy_trans P f1 f2 f3 : keptBy P f1 f2 -> keptBy P f2 f3 -> keptBy P f1 f3.
Proof. unfold keptBy. tauto. Qed.

Lemma sameFlashState_moveTowards other b0 g al d :
  preserves sameFlashState (Firefly.moveTowards other b0 g al d).
Proof. run_move; repeat split. Qed.

Lemma sameFlashState_randomWalk al d :
  preserves sameFlashState (Firefly.randomWalk al d).
Proof. run_move; repeat split. Qed.

(** [push], then [shift] past the bound: a trail within its bound stays
    within it. *)
Lemma push_shift_bounded (A : Type) (l : list A) (p : A) (bound : nat) :
  (List.length l <= bound)%nat ->
  (List.length (if Nat.ltb bound (List.length (l ++ [p])) then tl (l ++ [p])
                else l ++ [p]) <= bound)%nat.
Proof.
  intros H. destruct (Nat.ltb_spec bound (List.length (l ++ [p]))) as [Hlt|Hle];
    [|exact Hle].
  rewrite length_app in Hlt. simpl in Hlt.
  destruct l as [|a l]; simpl in *; [lia|]. rewrite length_app. simpl. lia.
Qed.

Lemma trailBounded_moveTowards other b0 g al d :
  preserves (keptBy trailBounded) (Firefly.moveTowards other b0 g al d).
Proof.
  run_move; unfold keptBy, trailBounded; simpl; intros Hb.
  all: pose proof (push_shift_bounded (Firefly.trail f)
                     {| px := Firefly.x f; py := Firefly.y f |} Hb) as Hp;
       simpl in Hfull; rewrite Hfull in Hp; exact Hp.
Qed.

Lemma trailBounded_randomWalk al d :
  preserves (keptBy trailBounded) (Firefly.randomWalk al d).
Proof.
  run_move; unfold keptBy, trailBounded; simpl; intros Hb.
  all: pose proof (push_shift_bounded (Firefly.trail f)
                     {| px := Firefly.x f; py := Firefly.y f |} Hb) as Hp;
       simpl in Hfull; rewrite Hfull in Hp; exact Hp.
Qed.

Lemma sameFlashState_quiet f f' : sameFlashState f f' -> keptBy quiet f f'.
Proof.
  unfold sameFlashState, keptBy, quiet. intros (_ & _ & _ & _ & Hf & Hi & _).
  rewrite Hf, Hi. tauto.
Qed.

Lemma samePlace_scanForMale selfIndex rd others :
  forall j, preserves samePlace (Firefly.scanForMale selfIndex j others rd).
Proof.
  induction others as [|other rest IH]; intros j f k; simpl.
  - apply samePlace_refl.
  - destruct (Nat.eqb j selfIndex || negb (Gender_eqb (Firefly.gender other) male));
      [apply IH|].
    destruct (0.5 <? Firefly.flashIntensity other); [|apply IH].
    js_unfold. cbv beta iota zeta.
    destruct (Firefly.distanceTo f other <? rd); [|apply IH].
    simpl. repeat split.
Qed.

Lemma samePlace_checkForNearbyFlash i l d :
  preserves samePlace (Firefly.checkForNearbyFlash i l d).
Proof.
  intros f k. unfold Firefly.checkForNearbyFlash. js_unfold. cbv beta iota zeta.
  destruct (negb _ || _ || _); [apply samePlace_refl|].
  destruct (_ <? 500); [apply samePlace_refl|].
  apply samePlace_scanForMale.
Qed.

Lemma samePlace_trailBounded f f' : samePlace f f' -> keptBy trailBounded f f'.
Proof.
  unfold samePlace, keptBy, trailBounded. intros (_ & _ & _ & _ & Ht & Hm & _).
  rewrite Ht, Hm. tauto.
Qed.

Lemma quiet_scanForMale selfIndex rd others :
  forall j, preserves (keptBy quiet) (Firefly.scanForMale selfIndex j others rd).
Proof.
  induction others as [|other rest IH]; intros j f k; simpl.
  - apply keptBy_refl.
  - destruct (Nat.eqb j selfIndex || negb (Gender_eqb (Firefly.gender other) male));
      [apply IH|].
    destruct (0.5 <? Firefly.flashIntensity other); [|apply IH].
    js_unfold. cbv beta iota zeta.
    destruct (Firefly.distanceTo f other <? rd); [|apply IH].
    simpl. unfold keptBy, quiet. simpl. tauto.
Qed.

Lemma quiet_checkForNearbyFlash i l d :
  preserves (keptBy quiet) (Firefly.checkForNearbyFlash i l d).
Proof.
  intros f k. unfold Firefly.checkForNearbyFlash. js_unfold. cbv beta iota zeta.
  destruct (negb _ || _ || _); [apply keptBy_refl|].
  destruct (_ <? 500); [apply keptBy_refl|].
  apply quiet_scanForMale.
Qed.

(** Running [updateFlash]: every test of the body decided. *)
Ltac run_updateFlash :=
  intros f k; unfold Firefly.updateFlash; js_unfold; cbv beta iota zeta;
  repeat match goal with
         | |- context [if ?c then _ else _] =>
             lazymatch c with
             | context [if _ then _ else _] => fail
             | _ => destruct c eqn:?
             end; simpl in *
         end.

Lemma samePlace_updateFlash dt : preserves samePlace (Firefly.updateFlash dt).
Proof. run_updateFlash; repeat split. Qed.

Lemma quiet_updateFlash dt : preserves (keptBy quiet) (Firefly.updateFlash dt).
Proof.
  run_updateFlash; unfold keptBy, quiet; simpl; intros Hq; try tauto;
    try discriminate; auto; intros; congruence.
Qed.

(** Binding, clamping and evaluating touch neither the trail nor the
    flash state. *)
Ltac run_rebinding :=
  intros f k; unfold Firefly.clampToDomain, Firefly.evaluate;
  js_unfold; cbv beta iota zeta; try destruct (Firefly.objectiveFunction f);
  simpl.

Lemma sameFlashState_bound o :
  preserves sameFlashState (assign (Firefly.set_objectiveFunction o)).
Proof. run_rebinding; repeat split. Qed.

Lemma sameFlashState_clampToDomain d :
  preserves sameFlashState (Firefly.clampToDomain d).
Proof. run_rebinding; repeat split. Qed.

Lemma sameFlashState_evaluate : preserves sameFlashState Firefly.evaluate.
Proof. run_rebinding; repeat split. Qed.

Lemma trailBounded_bound o :
  preserves (keptBy trailBounded) (assign (Firefly.set_objectiveFunction o)).
Proof. run_rebinding; unfold keptBy, trailBounded; simpl; tauto. Qed.

Lemma trailBounded_clampToDomain d :
  preserves (keptBy trailBounded) (Firefly.clampToDomain d).
Proof. run_rebinding; unfold keptBy, trailBounded; simpl; tauto. Qed.

Lemma trailBounded_evaluate : preserves (keptBy trailBounded) Firefly.evaluate.
Proof. run_rebinding; unfold keptBy, trailBounded; simpl; tauto. Qed.

End FireflyFrames.

(** ** The two clocks are independent *)

Section TwoClocks.
Context {RT : JsRuntime}.
Import FireflyAlgorithm.

Lemma keeps_advanceTime {X} (proj : FireflyAlgorithm.t -> X) d dt :
  besidePopulation proj -> keeps proj (Renderer.advanceTime d dt).
Proof.
  intros Hb. unfold Renderer.advanceTime.
  apply keeps_bind; [apply keeps_this | intros a1].
  apply keeps_bind; [now apply keeps_checkResponses | intros _].
  apply keeps_bind; [apply keeps_this | intros a2].
  now apply keeps_updateFlashes.
Qed.

Lemma keeps_render {X} (proj : FireflyAlgorithm.t -> X) self timestamp timeScale :
  besidePopulation proj -> keeps proj (Renderer.render self timestamp timeScale).
Proof.
  intros Hb. unfold Renderer.render.
  apply keeps_bind; [apply keeps_this | intros a1].
  destruct (objectiveFunction a1); [|apply keeps_throw].
  apply keeps_bind; [now apply keeps_advanceTime | intros _; apply keeps_ret].
Qed.

(** X1. However many calls of [step()] are made, and however each ends,
    the population keeps its size and every firefly keeps its gender and
    its whole flash and response state: the optimisation never touches
    the flash clock. *)
Theorem step_leaves_flash_state (count : nat) (a : FireflyAlgorithm.t) (k : nat) :
  pointwise sameFlashState a (fst (steps count a k)).
Proof.
  apply preserves_steps.
  - exact sameFlashState_refl.
  - exact sameFlashState_trans.
  - exact sameFlashState_moveTowards.
  - exact sameFlashState_randomWalk.
Qed.

(** X2. A frame of [Renderer.render], however it ends, leaves the
    optimisation as it found it: generation, recorded best, parameters and
    objective function are unchanged, the population keeps its size, and
    every firefly keeps its position, value, brightness, trail and
    objective function. *)
Theorem render_leaves_optimisation
        (self : Renderer.t) (timestamp timeScale : float)
        (a : FireflyAlgorithm.t) (k : nat) :
  let a' := receiver (Renderer.render self timestamp timeScale a k) in
  pointwise samePlace a a' /\
  generation a' = generation a /\
  bestFirefly a' = bestFirefly a /\
  params a' = params a /\
  objectiveFunction a' = objectiveFunction a.
Proof.
  cbv zeta. split_all.
  - apply preserves_render.
    + exact samePlace_refl.
    + exact samePlace_trans.
    + exact samePlace_checkForNearbyFlash.
    + exact samePlace_updateFlash.
  - apply (@keeps_render _ generation); apply beside_generation.
  - apply (@keeps_render _ bestFirefly); apply beside_bestFirefly.
  - apply (@keeps_render _ params); apply beside_params.
  - apply (@keeps_render _ objectiveFunction); apply beside_objectiveFunction.
Qed.

End TwoClocks.

(** ** Invariants of the whole simulation *)

Lemma In_firstn (A : Type) (m : nat) :
  forall (l : list A) (x : A), In x (firstn m l) -> In x l.
Proof.
  induction m as [|m IH]; intros [|a l] x H; simpl in *; try tauto.
  destruct H as [H|H]; [now left | right; now apply IH].
Qed.

Section Invariants.
Context {RT : JsRuntime}.
Import FireflyAlgorithm.
Variable P : Firefly.t -> Prop.

Hypothesis P_new :
  forall x0 y0 o (t : FireflyAlgorithm.t) k f,
    completion (Firefly.new x0 y0 o t k) = Normal f -> P f.
Hypothesis P_moveTowards :
  forall other b0 g al d, preserves (keptBy P) (Firefly.moveTowards other b0 g al d).
Hypothesis P_randomWalk : forall al d, preserves (keptBy P) (Firefly.randomWalk al d).
Hypothesis P_checkForNearbyFlash :
  forall i l d, preserves (keptBy P) (Firefly.checkForNearbyFlash i l d).
Hypothesis P_updateFlash : forall dt, preserves (keptBy P) (Firefly.updateFlash dt).
Hypothesis P_bind :
  forall o, preserves (keptBy P) (assign (Firefly.set_objectiveFunction o)).
Hypothesis P_clampToDomain : forall d, preserves (keptBy P) (Firefly.clampToDomain d).
Hypothesis P_evaluate : preserves (keptBy P) Firefly.evaluate.
Hypothesis P_clearTrail : forall f, P f -> P (Firefly.set_trail [] f).

Lemma stillAll_refl a : stillAll P a a.
Proof. unfold stillAll. tauto. Qed.

Lemma stillAll_trans a1 a2 a3 :
  stillAll P a1 a2 -> stillAll P a2 a3 -> stillAll P a1 a3.
Proof. unfold stillAll. tauto. Qed.

Lemma pointwise_stillAll a a' : pointwise (keptBy P) a a' -> stillAll P a a'.
Proof.
  unfold pointwise, stillAll. intros H2 HP.
  eapply Forall2_Forall; [|exact H2|exact HP]. intros f f' H. exact H.
Qed.

(** A body that relates the populations firefly by firefly. *)
Lemma preserves_pointwise {A} (m : Js FireflyAlgorithm.t A) :
  preserves (pointwise (keptBy P)) m -> preserves (stillAll P) m.
Proof. intros H a k. apply pointwise_stillAll, H. Qed.

Lemma stillAll_aside g :
  (forall a, fireflies (g a) = fireflies a) -> preserves (stillAll P) (assign g).
Proof. intros H a k. unfold stillAll, assign, receiver. simpl. now rewrite H. Qed.

Ltac inv :=
  repeat preserve_step stillAll_refl stillAll_trans;
  auto;
  try (apply stillAll_aside; reflexivity).

Lemma stillAll_updateBest : preserves (stillAll P) updateBest.
Proof.
  apply preserves_pointwise, preserves_updateBest; auto using keptBy_refl.
  exact (keptBy_trans (P := P)).
Qed.

Lemma stillAll_step : preserves (stillAll P) step.
Proof.
  apply preserves_pointwise, preserves_step; auto using keptBy_refl.
  exact (keptBy_trans (P := P)).
Qed.

Lemma stillAll_render self timestamp timeScale :
  preserves (stillAll P) (Renderer.render self timestamp timeScale).
Proof.
  apply preserves_pointwise, preserves_render; auto using keptBy_refl.
  exact (keptBy_trans (P := P)).
Qed.

Lemma stillAll_pushRandomFirefly d : preserves (stillAll P) (pushRandomFirefly d).
Proof.
  intros a k. unfold pushRandomFirefly. js_unfold. cbv beta iota zeta.
  destruct (Firefly.new _ _ _ a (S (S k))) as [[[f|e] a'] k'] eqn:E; simpl.
  - pose proof (new_receiver (xMin d + Math_random k * (xMax d - xMin d))
                             (yMin d + Math_random (S k) * (yMax d - yMin d))
                             (objectiveFunction a) a (S (S k))) as Hr.
    rewrite E in Hr. unfold receiver in Hr. simpl in Hr. subst a'.
    unfold stillAll. simpl. intros HP. apply Forall_app. split; [exact HP|].
    constructor; [|constructor]. eapply P_new. rewrite E. reflexivity.
  - pose proof (new_receiver (xMin d + Math_random k * (xMax d - xMin d))
                             (yMin d + Math_random (S k) * (yMax d - yMin d))
                             (objectiveFunction a) a (S (S k))) as Hr.
    rewrite E in Hr. unfold receiver in Hr. simpl in Hr. subst a'. apply stillAll_refl.
Qed.

Lemma stillAll_populate d count : preserves (stillAll P) (populate count d).
Proof.
  induction count as [|count IH]; simpl; inv. apply stillAll_pushRandomFirefly.
Qed.

Lemma stillAll_initialize : preserves (stillAll P) initialize.
Proof.
  unfold initialize. inv.
  - intros a k. unfold stillAll. simpl. constructor.
  - apply stillAll_populate.
  - apply stillAll_updateBest.
Qed.

Lemma stillAll_rebindFireflies todo :
  forall i, preserves (stillAll P) (rebindFireflies i todo).
Proof.
  induction todo as [|todo IH]; intros i; simpl; inv.
  all: apply preserves_pointwise, preserves_onFirefly; auto using keptBy_refl.
Qed.

Lemma stillAll_adjustPopulation newN : preserves (stillAll P) (adjustPopulation newN).
Proof.
  unfold adjustPopulation, grow. inv.
  - apply stillAll_populate.
  - intros a k. unfold stillAll, assign, receiver. simpl. intros HP.
    rewrite Forall_forall in *. intros f Hf. apply HP.
    eapply Permutation_in; [apply Array_sort_perm | exact Hf].
  - intros a k. unfold stillAll, assign, receiver, Array_slice0. simpl. intros HP.
    rewrite Forall_forall in *. intros f Hf. apply HP.
    eapply In_firstn. exact Hf.
Qed.

Lemma stillAll_setParams p : preserves (stillAll P) (setParams p).
Proof.
  unfold setParams. inv.
  - apply stillAll_rebindFireflies.
  - apply stillAll_updateBest.
  - apply stillAll_adjustPopulation.
Qed.

Lemma stillAll_clearTrails : preserves (stillAll P) clearTrails.
Proof.
  intros a k. unfold clearTrails, stillAll, assign, receiver. simpl. intros HP.
  rewrite Forall_forall in *. intros f Hf. apply in_map_iff in Hf.
  destruct Hf as (g & <- & Hg). auto.
Qed.

(** The constructor and every operation. *)
Lemma simulationInvariant_intro : simulationInvariant P.
Proof.
  unfold simulationInvariant. split_all.
  - intros given k a. unfold FireflyAlgorithm.new. js_unfold. cbv beta iota zeta.
    match goal with
    | |- context [initialize ?a0 k] =>
        pose proof (stillAll_initialize a0 k) as Hi;
        destruct (initialize a0 k) as [[[u|e] a1] k1]
    end; simpl; [|discriminate].
    intros [= <-]. apply Hi. constructor.
  - apply stillAll_step.
  - apply stillAll_setParams.
  - apply stillAll_initialize.
  - apply stillAll_clearTrails.
  - apply stillAll_render.
Qed.

End Invariants.

Section SimulationInvariants.
Context {RT : JsRuntime}.
Import FireflyAlgorithm.

Lemma keptBy_clearTrail_trailBounded f :
  trailBounded f -> trailBounded (Firefly.set_trail [] f).
Proof. unfold trailBounded. simpl. lia. Qed.

(** X3. Trails stay within their bound.  The constructor builds
    fireflies whose trail holds at most [maxTrailLength] points, and
    [step], [setParams], [reset], [clearTrails] and a frame of [render],
    however they end, leave a population of such fireflies as one. *)
Theorem trails_stay_bounded : simulationInvariant trailBounded.
Proof.
  apply simulationInvariant_intro.
  - intros x0 y0 [o|] t k f.
    + destruct (new_normal x0 y0 o t k) as (g & Hg & _ & _ & _ & _ & _ & Ht & Hm & _).
      rewrite Hg. unfold completion. simpl. intros [= <-].
      unfold trailBounded. rewrite Ht, Hm. simpl. lia.
    + rewrite new_undefined. discriminate.
  - exact trailBounded_moveTowards.
  - exact trailBounded_randomWalk.
  - intros i l d f k. apply samePlace_trailBounded, samePlace_checkForNearbyFlash.
  - intros dt f k. apply samePlace_trailBounded, samePlace_updateFlash.
  - exact trailBounded_bound.
  - exact trailBounded_clampToDomain.
  - exact trailBounded_evaluate.
  - exact keptBy_clearTrail_trailBounded.
Qed.

(** X4. No light without a flash: a firefly that is not flashing has
    intensity 0.  The constructor builds such fireflies, and [step],
    [setParams], [reset], [clearTrails] and a frame of [render], however
    they end, leave a population of such fireflies as one.  So a male
    that qualifies for a response (intensity above 0.5) is flashing. *)
Theorem no_light_without_flash :
  simulationInvariant quiet /\
  (forall self rd other,
      quiet other -> brightMaleNear self rd other = true ->
      Firefly.isFlashing other = true).
Proof.
  split.
  - apply simulationInvariant_intro.
    + intros x0 y0 [o|] t k f.
      * destruct (new_normal x0 y0 o t k) as (g & Hg & H). rewrite Hg.
        unfold completion. simpl. intros [= <-]. intros _. tauto.
      * rewrite new_undefined. discriminate.
    + intros other b0 g al d f k.
      apply sameFlashState_quiet, sameFlashState_moveTowards.
    + intros al d f k. apply sameFlashState_quiet, sameFlashState_randomWalk.
    + exact quiet_checkForNearbyFlash.
    + exact quiet_updateFlash.
    + intros o f k. apply sameFlashState_quiet, sameFlashState_bound.
    + intros d f k. apply sameFlashState_quiet, sameFlashState_clampToDomain.
    + intros f k. apply sameFlashState_quiet, sameFlashState_evaluate.
    + intros f Hq. exact Hq.
  - intros self rd other Hq Hb. unfold brightMaleNear in Hb.
    apply andb_prop in Hb. destruct Hb as [Hb _].
    apply andb_prop in Hb. destruct Hb as [_ Hi].
    destruct (Firefly.isFlashing other) eqn:Hf; [reflexivity|].
    rewrite (Hq Hf) in Hi. vm_compute in Hi. discriminate.
Qed.

End SimulationInvariants.

(** ** What a call of [step()] leaves *)

Section StepOutcome.
Context {RT : JsRuntime}.
Import FireflyAlgorithm.

(** The flag of the inner loop: some move was made exactly when some
    other firefly was strictly brighter than the receiver as the loop
    found it. *)
Lemma meetOthers_moved b0 g al d others :
  forall moved f k,
    fst (fst (meetOthers b0 g al d others moved f k)) =
    moved || existsb (brighterThan f) others.
Proof.
  induction others as [|other rest IH]; intros moved f k; simpl.
  - now rewrite orb_false_r.
  - unfold brighterThan at 1.
    destruct (Firefly.value other <? Firefly.value f); simpl.
    + rewrite IH. simpl. now rewrite orb_true_r.
    + apply IH.
Qed.

Lemma meetOthers_unmoved b0 g al d others :
  forall moved f k,
    existsb (brighterThan f) others = false ->
    meetOthers b0 g al d others moved f k = (moved, f, k).
Proof.
  induction others as [|other rest IH]; intros moved f k H; simpl in *; trivial.
  apply orb_false_elim in H. destruct H as [H1 H2].
  unfold brighterThan in H1. rewrite H1. now apply IH.
Qed.

(** The inner loop of [step] for the firefly at its position, over the
    whole population. *)
Lemma compareWithOthers_all b0 g al d pre f post moved (a : FireflyAlgorithm.t) k :
  fireflies a = pre ++ f :: post ->
  evaluable f ->
  compareWithOthers b0 g al d (List.length pre) 0 (List.length (fireflies a)) moved a k =
  match meetOthers b0 g al d (pre ++ post) moved f k with
  | (moved', f', k') => (Normal moved', set_fireflies (pre ++ f' :: post) a, k')
  end.
Proof.
  intros Hl Hf.
  pose proof (@compareWithOthers_before _ b0 g al d post pre [] f moved a k Hl Hf) as H.
  simpl in H. rewrite Hl, length_app. simpl. exact H.
Qed.

Lemma set_fireflies_same (a : FireflyAlgorithm.t) : set_fireflies (fireflies a) a = a.
Proof. now destruct a. Qed.

(** X5. Who takes the random walk.  In its turn of [step()], the firefly
    at position [i] moves towards others exactly when some other firefly
    is strictly brighter (of strictly lower value) than it is at the start
    of the turn; otherwise the comparisons change nothing and draw
    nothing, and the firefly takes one random walk with a tenth of
    [alpha].  Fireflies of equal value do not attract one another. *)
Theorem random_walk_iff_none_brighter
        (b0 g al : float) (d : Domain) (pre post : list Firefly.t) (f : Firefly.t)
        (a : FireflyAlgorithm.t) (k : nat) :
  fireflies a = pre ++ f :: post ->
  evaluable f ->
  let i := List.length pre in
  let brighter := existsb (brighterThan f) (pre ++ post) in
  let compared := compareWithOthers b0 g al d i 0 (List.length (fireflies a)) false a k in
  completion compared = Normal brighter /\
  (brighter = false ->
   receiver compared = a /\ cursor compared = k /\
   moveFireflies b0 g al d i 1 a k =
   (Normal tt,
    set_fireflies (pre ++ receiver (Firefly.randomWalk (al * 0.1) d f k) :: post) a,
    S (S k))) /\
  (brighter = true ->
   moveFireflies b0 g al d i 1 a k = (Normal tt, receiver compared, cursor compared)).
Proof.
  intros Hl Hf i brighter compared.
  assert (Hc : compared =
               match meetOthers b0 g al d (pre ++ post) false f k with
               | (moved', f', k') => (Normal moved', set_fireflies (pre ++ f' :: post) a, k')
               end) by (apply compareWithOthers_all; assumption).
  pose proof (meetOthers_moved b0 g al d (pre ++ post) false f k) as Hm.
  simpl in Hm. fold brighter in Hm.
  assert (Hmove : moveFireflies b0 g al d i 1 a k =
                  match compared with
                  | (Normal true, a1, k1) => (Normal tt, a1, k1)
                  | (Normal false, a1, k1) =>
                      match onFirefly i (Firefly.randomWalk (al * 0.1) d) a1 k1 with
                      | (Normal _, a2, k2) => (Normal tt, a2, k2)
                      | (Throw e, a2, k2) => (Throw e, a2, k2)
                      end
                  | (Throw e, a1, k1) => (Throw e, a1, k1)
                  end).
  { simpl. js_unfold. fold compared.
    destruct compared as [[[[|]|e] a1] k1]; reflexivity. }
  split_all.
  - rewrite Hc. destruct (meetOthers _ _ _ _ _ _ _ _) as [[m f'] k'].
    simpl in Hm. unfold completion. simpl. now rewrite Hm.
  - intros Hb. unfold brighter in Hb.
    rewrite (meetOthers_unmoved b0 g al d (pre ++ post) false f k Hb) in Hc.
    rewrite <- Hl, set_fireflies_same in Hc.
    rewrite Hmove, Hc. unfold receiver, cursor. simpl. split_all; trivial.
    subst i. erewrite onFirefly_middle by exact Hl.
    destruct (randomWalk_runs (al * 0.1) d k Hf) as (f' & E & _). rewrite E.
    reflexivity.
  - intros Hb. rewrite Hmove, Hc.
    destruct (meetOthers _ _ _ _ _ _ _ _) as [[m f'] k'].
    simpl in Hm. rewrite Hb in Hm. subst m. reflexivity.
Qed.

Lemma clamp_NaN (lo hi v : float) :
  is_NaN (Math_max lo (Math_min hi v)) = false -> is_NaN v = false.
Proof.
  unfold Math_max, Math_min. destruct (is_NaN v); [|reflexivity].
  rewrite orb_true_r. replace (is_NaN nan) with true by reflexivity.
  rewrite orb_true_r. replace (is_NaN nan) with true by reflexivity. trivial.
Qed.

Lemma clamp_within (lo hi v : float) :
  (lo <=? hi) = true ->
  is_NaN (Math_max lo (Math_min hi v)) = false ->
  (lo <=? Math_max lo (Math_min hi v)) = true /\
  (Math_max lo (Math_min hi v) <=? hi) = true.
Proof. intros H Hn. apply clamp_between; [exact H | now apply clamp_NaN in Hn]. Qed.

Lemma moveTowards_settles other b0 g al o (f : Firefly.t) (k : nat) :
  Firefly.objectiveFunction f = Some o -> wellFormed (domain o) ->
  settledUnder o (receiver (Firefly.moveTowards other b0 g al (domain o) f k)).
Proof.
  intros Ho [Hx Hy].
  unfold Firefly.moveTowards, Firefly.addTrailPoint, Firefly.clampToDomain,
    Firefly.evaluate.
  js_unfold. cbv beta iota zeta.
  destruct (Nat.ltb _ _); cbv beta iota zeta;
    cbn [Firefly.objectiveFunction Firefly.set_x Firefly.set_y Firefly.set_trail];
    rewrite Ho; unfold settledUnder; simpl; split_all; trivial;
    now apply clamp_within.
Qed.

Lemma randomWalk_settles al o (f : Firefly.t) (k : nat) :
  Firefly.objectiveFunction f = Some o -> wellFormed (domain o) ->
  settledUnder o (receiver (Firefly.randomWalk al (domain o) f k)).
Proof.
  intros Ho [Hx Hy].
  unfold Firefly.randomWalk, Firefly.addTrailPoint, Firefly.clampToDomain,
    Firefly.evaluate.
  js_unfold. cbv beta iota zeta.
  destruct (Nat.ltb _ _); cbv beta iota zeta;
    cbn [Firefly.objectiveFunction Firefly.set_x Firefly.set_y Firefly.set_trail];
    rewrite Ho; unfold settledUnder; simpl; split_all; trivial;
    now apply clamp_within.
Qed.

Lemma meetOthers_settles b0 g al o others :
  wellFormed (domain o) ->
  forall moved f k,
    Firefly.objectiveFunction f = Some o ->
    (moved = true -> settledUnder o f) ->
    Firefly.objectiveFunction
      (snd (fst (meetOthers b0 g al (domain o) others moved f k))) = Some o /\
    (fst (fst (meetOthers b0 g al (domain o) others moved f k)) = true ->
     settledUnder o (snd (fst (meetOthers b0 g al (domain o) others moved f k)))).
Proof.
  intros Hd. induction others as [|other rest IH]; intros moved f k Ho Hs; simpl;
    [auto|].
  destruct (_ <? _); [|now apply IH].
  pose proof (@moveTowards_settles other b0 g al o f k Ho Hd) as Hs'.
  apply IH; [apply Hs' | intros _; exact Hs'].
Qed.

Lemma turnOf_settles b0 g al o others f k :
  wellFormed (domain o) ->
  Firefly.objectiveFunction f = Some o ->
  settledUnder o (fst (turnOf b0 g al (domain o) others f k)).
Proof.
  intros Hd Ho. unfold turnOf.
  destruct (@meetOthers_settles b0 g al o others Hd false f k Ho) as [Hb Hs];
    [discriminate|].
  destruct (meetOthers b0 g al (domain o) others false f k) as [[[|] f'] k'];
    simpl in *; [now apply Hs|].
  apply randomWalk_settles; assumption.
Qed.

Lemma sweep_settles b0 g al o todo :
  wellFormed (domain o) ->
  forall done k,
    Forall (settledUnder o) done ->
    Forall (fun f => Firefly.objectiveFunction f = Some o) todo ->
    Forall (settledUnder o) (fst (sweep b0 g al (domain o) done todo k)).
Proof.
  intros Hd. induction todo as [|f rest IH]; intros done k Hdone Htodo; simpl;
    trivial.
  inversion Htodo as [|? ? Hf Hrest]; subst.
  pose proof (@turnOf_settles b0 g al o (done ++ rest) f k Hd Hf) as H.
  destruct (turnOf b0 g al (domain o) (done ++ rest) f k) as [f' k']. simpl in H.
  apply IH; trivial. apply Forall_app. split; auto.
Qed.

Lemma bound_evaluable o (l : list Firefly.t) :
  Forall (fun f => Firefly.objectiveFunction f = Some o) l -> Forall evaluable l.
Proof.
  apply Forall_impl. intros f H. unfold evaluable. congruence.
Qed.

(** [step()] on a bound, non-empty population: the sweep, the generation
    count, then the record of the best. *)
Lemma step_runs (a : FireflyAlgorithm.t) (k : nat) (o : ObjectiveFunction) :
  objectiveFunction a = Some o ->
  fireflies a <> [] ->
  Forall evaluable (fireflies a) ->
  let p := params a in
  let swept := sweep (beta0 p) (gamma p) (alpha p) (domain o) [] (fireflies a) k in
  let a1 := set_generation (generation a + 1)%Z (set_fireflies (fst swept) a) in
  exists f0 rest c,
    fst swept = f0 :: rest /\
    Firefly.value c = Firefly.value (findBest f0 (f0 :: rest)) /\
    Firefly.x c = Firefly.x (findBest f0 (f0 :: rest)) /\
    Firefly.y c = Firefly.y (findBest f0 (f0 :: rest)) /\
    let improves := match bestFirefly a with
                    | None => true
                    | Some b => Firefly.value (findBest f0 (f0 :: rest)) <? Firefly.value b
                    end in
    let a' := if improves then set_bestFirefly (Some c) a1 else a1 in
    step a k =
    (Normal {| res_generation := generation a';
               res_best := bestFirefly a';
               res_fireflies := fireflies a' |},
     a', if improves then (snd swept + 4)%nat else snd swept).
Proof.
  intros Ho Hne Hev p swept a1.
  pose proof (@moveFireflies_sweep _ (beta0 p) (gamma p) (alpha p) (domain o)
                (fireflies a) [] a k eq_refl Hev) as Hmv.
  change (List.length (@nil Firefly.t)) with 0%nat in Hmv. fold swept in Hmv.
  pose proof (@sweep_evaluable _ (beta0 p) (gamma p) (alpha p) (domain o)
                (fireflies a) [] k (Forall_nil _) Hev) as Hev'.
  pose proof (sweep_length (beta0 p) (gamma p) (alpha p) (domain o)
                (fireflies a) [] k) as Hlen.
  fold swept in Hev', Hlen. simpl in Hlen.
  destruct (fst swept) as [|f0 rest] eqn:Hs.
  { destruct (fireflies a); [congruence | discriminate]. }
  assert (Hl1 : fireflies a1 = f0 :: rest) by reflexivity.
  assert (Hbest : exists ob,
             Firefly.objectiveFunction (findBest f0 (f0 :: rest)) = Some ob).
  { assert (Hin : In (findBest f0 (f0 :: rest)) (f0 :: rest)).
    { destruct (findBest_In (f0 :: rest) f0) as [E|Hin];
        [rewrite E; now left | exact Hin]. }
    rewrite Forall_forall in Hev'. specialize (Hev' _ Hin).
    unfold evaluable in Hev'.
    destruct (Firefly.objectiveFunction _); eauto. congruence. }
  destruct Hbest as (ob & Hob).
  destruct (clone_runs (findBest f0 (f0 :: rest)) (snd swept) Hob)
    as (c & Hc & Hx & Hy & Hv & _).
  exists f0, rest, c. split_all; trivial.
  intros improves a'.
  assert (Hup : updateBest a1 (snd swept) =
                (Normal tt, a', if improves then (snd swept + 4)%nat else snd swept)).
  { unfold updateBest. js_unfold. rewrite Hl1. cbv beta iota zeta.
    change (bestFirefly a1) with (bestFirefly a). fold improves. subst a'.
    destruct improves; [|reflexivity]. now rewrite Hc. }
  unfold step. unfold bind at 1. unfold this at 1. rewrite Ho.
  cbv beta iota zeta. fold p. unfold bind at 1. rewrite Hmv.
  unfold bind at 1. unfold assign at 1. unfold bind at 1.
  change (set_generation _ _) with a1. rewrite Hup. reflexivity.
Qed.

(** X6. What [step()] leaves of the population.  On an algorithm bound
    to [o] whose domain has its bounds in order, with a non-empty
    population of fireflies bound to [o], [step()] returns, the population
    keeps its size, and every firefly ends bound to [o], with
    [value = fn(x, y)] at its final position, [brightness = -value], and
    every coordinate that is a number within the domain. *)
Theorem step_settles_population
        (a : FireflyAlgorithm.t) (k : nat) (o : ObjectiveFunction) :
  objectiveFunction a = Some o ->
  wellFormed (domain o) ->
  fireflies a <> [] ->
  Forall (fun f => Firefly.objectiveFunction f = Some o) (fireflies a) ->
  let r := step a k in
  isNormal (completion r) = true /\
  List.length (fireflies (receiver r)) = List.length (fireflies a) /\
  Forall (settledUnder o) (fireflies (receiver r)).
Proof.
  intros Ho Hd Hne Hb r.
  destruct (@step_runs a k o Ho Hne (bound_evaluable Hb))
    as (f0 & rest & c & Hs & _ & _ & _ & Hstep).
  cbv zeta in Hstep. subst r. rewrite Hstep. clear Hstep.
  pose proof (sweep_length (beta0 (params a)) (gamma (params a)) (alpha (params a))
                (domain o) (fireflies a) [] k) as Hlen.
  pose proof (@sweep_settles (beta0 (params a)) (gamma (params a)) (alpha (params a))
                o (fireflies a) Hd [] k (Forall_nil _) Hb) as Hset.
  unfold completion, receiver. simpl in *.
  destruct (match bestFirefly a with Some _ => _ | None => _ end); simpl;
    split_all; trivial.
Qed.

(** X7. The recorded best bounds the population from below.  After a
    call of [step()] on a bound, non-empty population, [getStats()] is
    not [null]; it reports the generation of before plus one and the size
    of the population; and, when the values of the population are
    numbers, no firefly has a value strictly below [bestValue]. *)
Theorem step_best_bounds_population
        (a : FireflyAlgorithm.t) (k : nat) (o : ObjectiveFunction) :
  objectiveFunction a = Some o ->
  fireflies a <> [] ->
  Forall evaluable (fireflies a) ->
  let a' := receiver (step a k) in
  exists s,
    getStats a' = Some s /\
    stat_generation s = (generation a + 1)%Z /\
    populationSize s = List.length (fireflies a) /\
    (allNumbers (fireflies a') = true ->
     forall f, In f (fireflies a') -> (Firefly.value f <? bestValue s) = false).
Proof.
  intros Ho Hne Hev a'.
  destruct (@step_runs a k o Ho Hne Hev)
    as (f0 & rest & c & Hs & Hv & _ & _ & Hstep).
  cbv zeta in Hstep. subst a'. rewrite Hstep. clear Hstep.
  pose proof (sweep_length (beta0 (params a)) (gamma (params a)) (alpha (params a))
                (domain o) (fireflies a) [] k) as Hlen.
  simpl in Hlen.
  assert (Hleast : forall f, In f (f0 :: rest) ->
              (Firefly.value f <? Firefly.value (findBest f0 (f0 :: rest))) = false).
  { intros f Hf. apply (@findBest_least (f0 :: rest) f0 []); [intros ? []|exact Hf]. }
  assert (Hin : In (findBest f0 (f0 :: rest)) (f0 :: rest)).
  { destruct (findBest_In (f0 :: rest) f0) as [E|Hin];
      [rewrite E; now left | exact Hin]. }
  set (best := findBest f0 (f0 :: rest)) in *. clearbody best.
  unfold receiver, getStats. simpl.
  destruct (bestFirefly a) as [b|] eqn:Hb; simpl.
  - destruct (_ <? Firefly.value b) eqn:Himp; simpl.
    + eexists. split; [reflexivity|]. simpl. rewrite Hs in *.
      split_all; trivial. intros _ f Hf. rewrite Hv. now apply Hleast.
    + rewrite Hb. eexists. split; [reflexivity|]. simpl. rewrite Hs in *.
      split_all; trivial. intros Hnum f Hf.
      destruct (Firefly.value f <? Firefly.value b) eqn:Hfb; [|reflexivity].
      unfold allNumbers in Hnum. rewrite forallb_forall in Hnum.
      pose proof (Hnum _ Hf) as Hnf. pose proof (Hnum _ Hin) as Hnb.
      apply negb_true_iff in Hnf, Hnb.
      rewrite (@not_ltb_ltb_trans _ _ _ Hnb Hnf (Hleast f Hf) Hfb) in Himp.
      discriminate.
  - eexists. split; [reflexivity|]. simpl. rewrite Hs in *.
    split_all; trivial. intros _ f Hf. rewrite Hv. now apply Hleast.
Qed.

End StepOutcome.

(** ** Construction, reset and their failures *)

Section Construction.
Context {RT : JsRuntime}.
Import FireflyAlgorithm.

(** [initialize()] on a bound algorithm of positive size: the new
    population, then the record of the best. *)
Lemma initialize_runs (a : FireflyAlgorithm.t) (k : nat) (o : ObjectiveFunction) :
  objectiveFunction a = Some o ->
  (0 < n (params a))%Z ->
  exists f0 rest c,
    Z.of_nat (List.length (f0 :: rest)) = n (params a) /\
    Forall (freshUnder o) (f0 :: rest) /\
    Firefly.value c = Firefly.value (findBest f0 (f0 :: rest)) /\
    Firefly.x c = Firefly.x (findBest f0 (f0 :: rest)) /\
    Firefly.y c = Firefly.y (findBest f0 (f0 :: rest)) /\
    Firefly.trail c = [] /\
    let a1 := mk (params a) 0%Z (f0 :: rest) (bestFirefly a) (objectiveFunction a) in
    let improves := match bestFirefly a with
                    | None => true
                    | Some b => Firefly.value (findBest f0 (f0 :: rest)) <? Firefly.value b
                    end in
    let count := Z.to_nat (n (params a)) in
    initialize a k =
    (Normal tt,
     (if improves then set_bestFirefly (Some c) a1 else a1),
     if improves then (k + 6 * count + 4)%nat else (k + 6 * count)%nat).
Proof.
  intros Ho Hn.
  set (a0 := set_generation 0%Z (set_fireflies [] a)).
  destruct (@populate_runs _ o (Z.to_nat (n (params a))) a0 k Ho)
    as (fresh & Hpop & Hlen & Hfresh).
  destruct fresh as [|f0 rest]; [simpl in Hlen; lia|].
  assert (Hob : Firefly.objectiveFunction (findBest f0 (f0 :: rest)) = Some o).
  { assert (Hin : In (findBest f0 (f0 :: rest)) (f0 :: rest)).
    { destruct (findBest_In (f0 :: rest) f0) as [E|Hin];
        [rewrite E; now left | exact Hin]. }
    rewrite Forall_forall in Hfresh. apply (Hfresh _ Hin). }
  destruct (clone_runs (findBest f0 (f0 :: rest))
              (k + 6 * Z.to_nat (n (params a)))%nat Hob)
    as (c & Hc & Hx & Hy & Hv & _ & _ & _ & _ & _ & _ & _ & _ & _ & _ & Htrail).
  exists f0, rest, c. split_all; trivial.
  - rewrite Hlen. lia.
  - intros a1 improves count.
    unfold initialize. unfold bind at 1. unfold assign at 1.
    unfold bind at 1. unfold assign at 1. unfold bind at 1. unfold this at 1.
    change (objectiveFunction (set_generation 0 (set_fireflies [] a)))
      with (objectiveFunction a).
    rewrite Ho. cbv beta iota zeta. unfold bind at 1.
    change (set_generation 0 (set_fireflies [] a)) with a0.
    change (params a0) with (params a). rewrite Hpop.
    change (set_fireflies (fireflies a0 ++ f0 :: rest) a0) with a1.
    unfold updateBest. js_unfold.
    change (fireflies a1) with (f0 :: rest). cbv beta iota zeta.
    change (bestFirefly a1) with (bestFirefly a). fold improves.
    destruct improves; [|reflexivity].
    rewrite Hc. reflexivity.
Qed.

(** [initialize()] when it fails: the population has been emptied and
    the generation reset before the TypeError. *)
Lemma initialize_fails (a : FireflyAlgorithm.t) (k : nat) :
  objectiveFunction a = None \/ (n (params a) <= 0)%Z ->
  initialize a k = (Throw TypeError, set_generation 0%Z (set_fireflies [] a), k).
Proof.
  intros H. unfold initialize. js_unfold. simpl.
  destruct (objectiveFunction a) as [o|] eqn:Ho; [|reflexivity].
  destruct H as [H|H]; [discriminate|].
  replace (Z.to_nat (n (params a))) with 0%nat by lia. reflexivity.
Qed.

Lemma new_initializes (given : PartialParams) (k : nat) :
  FireflyAlgorithm.new given tt k =
  match initialize (mk (defaulted given) 0%Z [] None
                       (objectiveFunctions (functionKey (defaulted given)))) k with
  | (Normal _, a, k') => (Normal a, tt, k')
  | (Throw e, _, k') => (Throw e, tt, k')
  end.
Proof.
  unfold FireflyAlgorithm.new, bind, on, ret.
  change (mk _ 0%Z [] None _)
    with (mk (defaulted given) 0%Z [] None
             (objectiveFunctions (functionKey (defaulted given)))).
  destruct (initialize _ k) as [[[u|e] a] k']; reflexivity.
Qed.

(** X8. What the constructor builds.  A falsy parameter (absent, zero,
    NaN, the empty string) is replaced by its default, so the size is never
    0.  With a registered key and a positive size the constructor returns,
    after six draws per firefly and four for the record of the best, an
    algorithm at generation 0 with exactly [n] fresh fireflies, whose
    recorded best copies value and position of a firefly of least value.
    With an unregistered key or a negative size it throws a TypeError
    without drawing. *)
Theorem constructor_outcome (given : PartialParams) (k : nat) :
  let p := defaulted given in
  let r := FireflyAlgorithm.new given tt k in
  n p <> 0%Z /\
  (forall o,
      objectiveFunctions (functionKey p) = Some o -> (0 < n p)%Z ->
      exists a best c,
        r = (Normal a, tt, (k + 6 * Z.to_nat (n p) + 4)%nat) /\
        params a = p /\ generation a = 0%Z /\ objectiveFunction a = Some o /\
        Z.of_nat (List.length (fireflies a)) = n p /\
        Forall (freshUnder o) (fireflies a) /\
        leastOf (fireflies a) best /\
        bestFirefly a = Some c /\
        Firefly.value c = Firefly.value best /\
        Firefly.x c = Firefly.x best /\ Firefly.y c = Firefly.y best /\
        Firefly.trail c = []) /\
  (objectiveFunctions (functionKey p) = None \/ (n p < 0)%Z ->
   r = (Throw TypeError, tt, k)).
Proof.
  intros p r. split_all.
  - unfold p, defaulted, orDefault. simpl.
    destruct (new_n given) as [v|]; [|discriminate].
    unfold truthy_Z. destruct (Z.eqb_spec v 0); simpl; [discriminate | assumption].
  - intros o Ho Hn. subst r. rewrite new_initializes. fold p. rewrite Ho.
    destruct (@initialize_runs (mk p 0%Z [] None (Some o)) k o eq_refl Hn)
      as (f0 & rest & c & Hlen & Hfresh & Hv & Hx & Hy & Htrail & Hrun).
    cbv zeta in Hrun. simpl in Hrun. rewrite Hrun.
    exists (set_bestFirefly (Some c) (mk p 0%Z (f0 :: rest) None (Some o))),
      (findBest f0 (f0 :: rest)), c.
    split_all; trivial; apply findBest_leastOf.
  - intros H. subst r. rewrite new_initializes. fold p.
    rewrite initialize_fails; [reflexivity|].
    destruct H as [H|H]; [left; exact H | right; change (n p <= 0)%Z; lia].
Qed.

(** X9. What [reset()] leaves.  However it ends, the generation is 0,
    parameters and objective function are unchanged, and the recorded best
    is the one of before or a strictly better one.  On a bound algorithm
    of positive size it returns with exactly [n] fresh fireflies in place
    of the population, and an algorithm without a record gets one from a
    firefly of least value.  On an unbound algorithm, or with [n <= 0], it
    throws a TypeError after emptying the population, without drawing. *)
Theorem reset_outcome (a : FireflyAlgorithm.t) (k : nat) :
  let r := reset a k in
  let a' := receiver r in
  generation a' = 0%Z /\ params a' = params a /\
  objectiveFunction a' = objectiveFunction a /\
  sameOrBetter (bestFirefly a) (bestFirefly a') /\
  (forall o,
      objectiveFunction a = Some o -> (0 < n (params a))%Z ->
      completion r = Normal tt /\
      Z.of_nat (List.length (fireflies a')) = n (params a) /\
      Forall (freshUnder o) (fireflies a') /\
      (cursor r = (k + 6 * Z.to_nat (n (params a)))%nat \/
       cursor r = (k + 6 * Z.to_nat (n (params a)) + 4)%nat) /\
      (bestFirefly a = None ->
       exists best c,
         leastOf (fireflies a') best /\ bestFirefly a' = Some c /\
         Firefly.value c = Firefly.value best)) /\
  (objectiveFunction a = None \/ (n (params a) <= 0)%Z ->
   completion r = Throw TypeError /\ fireflies a' = [] /\ cursor r = k).
Proof.
  intros r a'. subst a' r. unfold reset.
  destruct (objectiveFunction a) as [o|] eqn:Ho.
  - destruct (Z.ltb_spec 0 (n (params a))) as [Hn|Hn].
    + destruct (@initialize_runs a k o Ho Hn)
        as (f0 & rest & c & Hlen & Hfresh & Hv & Hx & Hy & Htrail & Hrun).
      cbv zeta in Hrun. rewrite Hrun. clear Hrun.
      unfold receiver, completion, cursor.
      destruct (bestFirefly a) as [b|] eqn:Hb; simpl.
      * destruct (_ <? Firefly.value b) eqn:Himp; simpl; split_all; trivial;
          try (intros; lia); try (intros [H|H]; [discriminate | lia]).
        -- exists c. rewrite Hv. auto.
        -- intros o' Ho'. injection Ho' as <-. intros _. split_all; auto.
           discriminate.
        -- exists b. auto.
        -- intros o' Ho'. injection Ho' as <-. intros _. split_all; auto.
           discriminate.
      * split_all; trivial; try (intros [H|H]; [discriminate | lia]).
        intros o' Ho'. injection Ho' as <-. intros _. split_all; auto.
        intros _. exists (findBest f0 (f0 :: rest)), c.
        split_all; trivial; apply findBest_leastOf.
    + rewrite initialize_fails by (right; exact Hn).
      unfold receiver, completion, cursor. simpl. split_all; trivial.
      * apply sameOrBetter_refl.
      * intros o' _ H. lia.
      * intros _. split_all; trivial.
  - rewrite initialize_fails by (left; exact Ho).
    unfold receiver, completion, cursor. simpl. split_all; trivial.
    + apply sameOrBetter_refl.
    + intros o' H. discriminate.
    + intros _. split_all; trivial.
Qed.

End Construction.

(** ** Sizes below zero *)

Section NegativeSize.
Context {RT : JsRuntime}.
Import FireflyAlgorithm.



End NegativeSize.

(** ** When [step()] returns *)

(** One step of a proof that a body fails with one error only. *)
Ltac fails_walk :=
  lazymatch goal with
  | |- failsOnlyWith _ (bind _ _) => apply fails_bind; [|intros ?]
  | |- failsOnlyWith _ (ret _) => apply fails_ret
  | |- failsOnlyWith _ (throw _) => apply fails_throw
  | |- failsOnlyWith _ this => apply fails_this
  | |- failsOnlyWith _ random => apply fails_random
  | |- failsOnlyWith _ (assign _) => apply fails_assign
  | |- failsOnlyWith _ (when _ _) => apply fails_when
  | |- failsOnlyWith _ (FireflyAlgorithm.onFirefly _ _) => apply fails_onFirefly
  | |- failsOnlyWith _ (if ?c then _ else _) => destruct c
  | |- failsOnlyWith _ (match ?o with Some _ => _ | None => _ end) => destruct o
  | |- failsOnlyWith _ (let _ := _ in _) => cbv zeta
  end.

Section StepReturns.
Context {RT : JsRuntime}.
Import FireflyAlgorithm.

Lemma sameFunction_refl f : sameFunction f f.
Proof. reflexivity. Qed.

Lemma sameFunction_trans f1 f2 f3 :
  sameFunction f1 f2 -> sameFunction f2 f3 -> sameFunction f1 f3.
Proof. unfold sameFunction. congruence. Qed.

Lemma sameFunction_moveTowards other b0 g al d :
  preserves sameFunction (Firefly.moveTowards other b0 g al d).
Proof. run_move; reflexivity. Qed.

Lemma sameFunction_randomWalk al d :
  preserves sameFunction (Firefly.randomWalk al d).
Proof. run_move; reflexivity. Qed.

(** A move on an unbound firefly throws (from its [evaluate()]). *)
Lemma moveTowards_unbound other b0 g al d (f : Firefly.t) (k : nat) :
  Firefly.objectiveFunction f = None ->
  completion (Firefly.moveTowards other b0 g al d f k) = Throw TypeError.
Proof.
  intros Ho.
  unfold Firefly.moveTowards, Firefly.addTrailPoint, Firefly.clampToDomain,
    Firefly.evaluate.
  js_unfold. cbv beta iota zeta.
  destruct (Nat.ltb _ _); cbv beta iota zeta;
    cbn [Firefly.objectiveFunction Firefly.set_x Firefly.set_y Firefly.set_trail];
    rewrite Ho; reflexivity.
Qed.

Lemma randomWalk_unbound al d (f : Firefly.t) (k : nat) :
  Firefly.objectiveFunction f = None ->
  completion (Firefly.randomWalk al d f k) = Throw TypeError.
Proof.
  intros Ho.
  unfold Firefly.randomWalk, Firefly.addTrailPoint, Firefly.clampToDomain,
    Firefly.evaluate.
  js_unfold. cbv beta iota zeta.
  destruct (Nat.ltb _ _); cbv beta iota zeta;
    cbn [Firefly.objectiveFunction Firefly.set_x Firefly.set_y Firefly.set_trail];
    rewrite Ho; reflexivity.
Qed.

Lemma fails_moveTowards other b0 g al d :
  failsOnlyWith TypeError (Firefly.moveTowards other b0 g al d).
Proof.
  unfold Firefly.moveTowards, Firefly.addTrailPoint, Firefly.clampToDomain.
  repeat fails_walk. apply fails_evaluate.
Qed.

Lemma fails_randomWalk al d : failsOnlyWith TypeError (Firefly.randomWalk al d).
Proof.
  unfold Firefly.randomWalk, Firefly.addTrailPoint, Firefly.clampToDomain.
  repeat fails_walk. apply fails_evaluate.
Qed.

Lemma fails_compareWithOthers b0 g al d i todo :
  forall j moved, failsOnlyWith TypeError (compareWithOthers b0 g al d i j todo moved).
Proof.
  induction todo as [|todo IH]; intros j moved; simpl; repeat fails_walk; auto.
  apply fails_moveTowards.
Qed.

Lemma fails_moveFireflies b0 g al d todo :
  forall i, failsOnlyWith TypeError (moveFireflies b0 g al d i todo).
Proof.
  induction todo as [|todo IH]; intros i; simpl; repeat fails_walk; auto.
  - apply fails_compareWithOthers.
  - apply fails_randomWalk.
Qed.

Lemma fails_step : failsOnlyWith TypeError step.
Proof.
  unfold step. repeat fails_walk.
  - apply fails_moveFireflies.
  - apply fails_updateBest.
Qed.

Lemma Forall2_nth_error (R : Firefly.t -> Firefly.t -> Prop) (l l' : list Firefly.t) :
  Forall2 R l l' ->
  forall j f, nth_error l j = Some f ->
              exists f', nth_error l' j = Some f' /\ R f f'.
Proof.
  induction 1 as [|a b l l' Hab _ IH]; intros [|j] f Hn; simpl in *; try discriminate.
  - injection Hn as <-. eauto.
  - eauto.
Qed.

(** A call on the firefly at [i] that returns: the method returned on
    that firefly. *)
Lemma onFirefly_normal {A} i (m : Js Firefly.t A) (a : FireflyAlgorithm.t) k v :
  completion (onFirefly i m a k) = Normal v ->
  exists f, nth_error (fireflies a) i = Some f /\ completion (m f k) = Normal v.
Proof.
  unfold onFirefly, completion.
  destruct (nth_error (fireflies a) i) as [f|]; simpl; [|discriminate].
  intros H. exists f. split; [reflexivity|].
  destruct (m f k) as [[c f'] k']. exact H.
Qed.

Lemma moved_evaluable other b0 g al d i (a : FireflyAlgorithm.t) k f v :
  nth_error (fireflies a) i = Some f ->
  completion (onFirefly i (Firefly.moveTowards other b0 g al d) a k) = Normal v ->
  evaluable f.
Proof.
  intros Hn H. apply onFirefly_normal in H. destruct H as (f' & Hn' & H).
  rewrite Hn in Hn'. injection Hn' as <-. unfold evaluable. intros Ho.
  rewrite (@moveTowards_unbound other b0 g al d f k Ho) in H. discriminate.
Qed.

Lemma walked_evaluable al d i (a : FireflyAlgorithm.t) k f v :
  nth_error (fireflies a) i = Some f ->
  completion (onFirefly i (Firefly.randomWalk al d) a k) = Normal v ->
  evaluable f.
Proof.
  intros Hn H. apply onFirefly_normal in H. destruct H as (f' & Hn' & H).
  rewrite Hn in Hn'. injection Hn' as <-. unfold evaluable. intros Ho.
  rewrite (@randomWalk_unbound al d f k Ho) in H. discriminate.
Qed.

Lemma sameFunction_evaluable f f' : sameFunction f f' -> evaluable f' -> evaluable f.
Proof. unfold sameFunction, evaluable. congruence. Qed.

(** The inner loop that returns with [moved] set has moved the firefly,
    which was therefore bound. *)
Lemma compareWithOthers_moved b0 g al d i todo :
  forall j moved (a : FireflyAlgorithm.t) k f,
    nth_error (fireflies a) i = Some f ->
    completion (compareWithOthers b0 g al d i j todo moved a k) = Normal true ->
    moved = true \/ evaluable f.
Proof.
  induction todo as [|todo IH]; intros j moved a k f Hn; simpl.
  - unfold ret, completion. simpl. intros [= ->]. now left.
  - destruct (Nat.eqb i j); [now apply IH|].
    unfold bind at 1. unfold this at 1. rewrite Hn.
    destruct (nth_error (fireflies a) j) as [other|];
      [|unfold throw, completion; simpl; discriminate].
    destruct (_ <? _); [|now apply IH].
    unfold bind.
    destruct (onFirefly i _ a k) as [[[u|e] a1] k1] eqn:E;
      [|unfold completion; simpl; discriminate].
    intros _. right. eapply moved_evaluable; [exact Hn|].
    rewrite E. reflexivity.
Qed.

(** The outer loop that returns has moved every firefly of its range,
    which were therefore bound. *)
Lemma moveFireflies_normal b0 g al d todo :
  forall i (a : FireflyAlgorithm.t) k,
    completion (moveFireflies b0 g al d i todo a k) = Normal tt ->
    forall j f, (i <= j < i + todo)%nat ->
                nth_error (fireflies a) j = Some f -> evaluable f.
Proof.
  induction todo as [|todo IH]; intros i a k Hc j f Hj Hn; [lia|].
  simpl in Hc. unfold bind at 1 in Hc. unfold this at 1 in Hc.
  unfold bind at 1 in Hc.
  pose proof (@preserves_compareWithOthers _ sameFunction sameFunction_refl
                sameFunction_trans sameFunction_moveTowards b0 g al d i
                (List.length (fireflies a)) 0 false a k) as Hsame.
  pose proof (@compareWithOthers_moved b0 g al d i (List.length (fireflies a))
                0 false a k) as Hmoved.
  unfold receiver in Hsame. unfold completion in Hmoved.
  destruct (compareWithOthers _ _ _ _ _ _ _ _ a k) as [[[moved|e] a1] k1];
    simpl in *; [|discriminate].
  unfold bind at 1 in Hc.
  pose proof (@preserves_onFirefly sameFunction sameFunction_refl _ i
                (Firefly.randomWalk (al * 0.1) d)
                (sameFunction_randomWalk (al * 0.1) d) a1 k1) as Hsame2.
  unfold receiver in Hsame2.
  destruct (Nat.eq_dec j i) as [->|Hne].
  - destruct moved; simpl in Hc.
    + destruct (Hmoved f Hn eq_refl) as [H|H]; [discriminate | exact H].
    + destruct (Forall2_nth_error Hsame i Hn) as (f1 & Hn1 & Hf1).
      apply (sameFunction_evaluable Hf1).
      destruct (onFirefly i _ a1 k1) as [[[u|e] a2] k2] eqn:E;
        [|discriminate].
      eapply walked_evaluable; [exact Hn1 | rewrite E; reflexivity].
  - destruct (Forall2_nth_error Hsame j Hn) as (f1 & Hn1 & Hf1).
    apply (sameFunction_evaluable Hf1).
    destruct moved; simpl in Hc.
    + unfold ret in Hc. apply (IH (S i) a1 k1 Hc j f1); [lia | exact Hn1].
    + destruct (onFirefly i _ a1 k1) as [[[u|e] a2] k2] eqn:E;
        [|discriminate].
      simpl in Hsame2.
      destruct (Forall2_nth_error Hsame2 j Hn1) as (f2 & Hn2 & Hf2).
      apply (sameFunction_evaluable Hf2).
      apply (IH (S i) a2 k2 Hc j f2); [lia | exact Hn2].
Qed.

Lemma step_unbound (a : FireflyAlgorithm.t) (k : nat) :
  objectiveFunction a = None -> step a k = (Throw TypeError, a, k).
Proof. intros Ho. unfold step. js_unfold. now rewrite Ho. Qed.

Lemma step_empty (a : FireflyAlgorithm.t) (k : nat) :
  objectiveFunction a <> None -> fireflies a = [] ->
  step a k = (Throw TypeError, set_generation (generation a + 1)%Z a, k).
Proof.
  intros Ho He. unfold step. js_unfold.
  destruct (objectiveFunction a); [|congruence].
  cbv beta iota zeta. rewrite He. simpl.
  unfold updateBest. js_unfold. simpl. rewrite He. reflexivity.
Qed.

(** X11. When [step()] returns.  It returns exactly when the algorithm
    is bound to an objective function, the population is not empty and
    every firefly is bound; otherwise, and only then, it throws a
    TypeError.  On an unbound algorithm nothing has changed; on an empty
    population the generation has been incremented before the error. *)
Theorem step_returns_exactly_when (a : FireflyAlgorithm.t) (k : nat) :
  (isNormal (completion (step a k)) = true <->
   objectiveFunction a <> None /\ fireflies a <> [] /\
   Forall evaluable (fireflies a)) /\
  (forall e, completion (step a k) = Throw e -> e = TypeError) /\
  (objectiveFunction a = None -> step a k = (Throw TypeError, a, k)) /\
  (objectiveFunction a <> None -> fireflies a = [] ->
   step a k = (Throw TypeError, set_generation (generation a + 1)%Z a, k)).
Proof.
  split_all.
  - split.
    + intros Hc.
      destruct (objectiveFunction a) as [o|] eqn:Ho;
        [|rewrite (step_unbound a k Ho) in Hc; discriminate].
      destruct (fireflies a) as [|f0 rest] eqn:Hl.
      { rewrite step_empty in Hc by congruence. discriminate. }
      split_all; try discriminate.
      rewrite <- Hl. apply Forall_forall. intros f Hf.
      apply In_nth_error in Hf. destruct Hf as (j & Hj).
      assert (Hlt : (j < List.length (fireflies a))%nat)
        by (apply nth_error_Some; congruence).
      revert Hc. unfold step. js_unfold. rewrite Ho. cbv beta iota zeta.
      pose proof (@moveFireflies_normal (beta0 (params a)) (gamma (params a))
                    (alpha (params a)) (domain o) (List.length (fireflies a))
                    0 a k) as Hmv.
      unfold completion in Hmv.
      destruct (moveFireflies _ _ _ _ _ _ a k) as [[[[]|e] a1] k1];
        simpl in *; [|discriminate].
      intros _. apply (Hmv eq_refl j f); [lia | exact Hj].
    + intros (Ho & Hne & Hev).
      destruct (objectiveFunction a) as [o|] eqn:Ho'; [|congruence].
      destruct (@step_runs _ a k o Ho' Hne Hev)
        as (f0 & rest & c & _ & _ & _ & _ & Hstep).
      cbv zeta in Hstep. rewrite Hstep. reflexivity.
  - intros e. apply fails_step.
  - apply step_unbound.
  - apply step_empty.
Qed.

End StepReturns.

(** ** The countdown of a response *)

Section ResponseCountdown.
Context {RT : JsRuntime}.

(** X12. A pending response.  For a firefly with [isResponding] set and
    a positive [responseDelay], [updateFlash(deltaTime)] returns without
    drawing and takes [deltaTime] off the delay.  While the delay stays
    positive the flash phase is frozen, and a firefly that is not flashing
    changes in nothing else.  In the call where the delay reaches zero or
    below, the response flash starts: the call continues as on the firefly
    with [isFlashing] set, phase 0 and delay 0, so the phase already
    advances by [deltaTime] and the envelope is evaluated there; the
    response ends ([isResponding] cleared) with the flash. *)
Theorem response_countdown (deltaTime : float) (f : Firefly.t) (k : nat) :
  Firefly.isResponding f = true ->
  (0 <? Firefly.responseDelay f) = true ->
  let remaining := Firefly.responseDelay f - deltaTime in
  let r := Firefly.updateFlash deltaTime f k in
  completion r = Normal tt /\ cursor r = k /\
  ((remaining <=? 0) = false ->
   Firefly.responseDelay (receiver r) = remaining /\
   Firefly.flashPhase (receiver r) = Firefly.flashPhase f /\
   (Firefly.isFlashing f = false ->
    receiver r = Firefly.set_responseDelay remaining f)) /\
  ((remaining <=? 0) = true ->
   let started :=
     Firefly.set_responseDelay 0
       (Firefly.set_flashPhase 0 (Firefly.set_isFlashing true f)) in
   let phase := advancedPhase deltaTime started in
   let t := phase / Firefly.flashDuration f in
   let f1 := Firefly.set_flashPhase phase started in
   r = Firefly.updateFlash deltaTime started k /\
   receiver r =
   (if t <? 0.2 then Firefly.set_flashIntensity (t / 0.2) f1
    else if t <? 1.0 then Firefly.set_flashIntensity (Math_exp (-3 * (t - 0.2))) f1
    else Firefly.set_isResponding false
           (Firefly.set_flashIntensity 0 (Firefly.set_isFlashing false f1)))).
Proof.
  intros Hr Hd remaining r.
  destruct (updateFlash_normal deltaTime f k) as (f' & Hf').
  split_all.
  - subst r. now rewrite Hf'.
  - subst r. now rewrite Hf'.
  - intros Hw. subst r remaining. clear Hf'.
    unfold Firefly.updateFlash. js_unfold. cbv beta iota zeta.
    rewrite Hr, Hd. simpl. rewrite Hw. simpl. rewrite Hr, Hw. simpl.
    destruct (Firefly.isFlashing f) eqn:Hfl; simpl.
    + destruct (_ <? 0.2); simpl; [split_all; trivial; discriminate|].
      destruct (_ <? 1.0); simpl; split_all; trivial; discriminate.
    + split_all; trivial.
  - intros Hdue started phase t f1.
    assert (Hsame : r = Firefly.updateFlash deltaTime started k).
    { subst r remaining started.
      unfold Firefly.updateFlash. js_unfold. cbv beta iota zeta.
      replace (0 <? 0) with false by reflexivity.
      replace (0 <=? 0) with true by reflexivity.
      repeat (progress (simpl; rewrite ?Hr, ?Hd, ?Hdue)).
      replace (0 <? 0) with false by reflexivity.
      replace (0 <=? 0) with true by reflexivity.
      repeat (progress (simpl; rewrite ?Hr, ?Hd, ?Hdue)).
      reflexivity. }
    split; [exact Hsame|]. rewrite Hsame.
    rewrite (@updateFlash_flashing _ deltaTime started k); try reflexivity.
    + right. reflexivity.
    + subst started. simpl. apply orb_true_r.
Qed.

End ResponseCountdown.

(** ** The range of a function over its sampling grid *)

Section FunctionRange.
Context {RT : JsRuntime}.

Lemma ltb_numbers (a b : float) :
  (a <? b) = true -> is_NaN a = false /\ is_NaN b = false.
Proof. intros H. apply leb_numbers. now apply ltb_leb. Qed.

Lemma widen_brackets_sample v r : brackets (widen v r) v.
Proof.
  unfold brackets, widen. simpl. split.
  - destruct (v <? range_min r) eqn:E; [apply ltb_irrefl | exact E].
  - destruct (range_max r <? v) eqn:E; [apply ltb_irrefl | exact E].
Qed.

Lemma widen_still_brackets v r w : brackets r w -> brackets (widen v r) w.
Proof.
  unfold brackets, widen. simpl. intros [Hlo Hhi]. split.
  - destruct (v <? range_min r) eqn:E; [|exact Hlo].
    destruct (w <? v) eqn:Ew; [|reflexivity].
    rewrite (ltb_trans Ew E) in Hlo. discriminate.
  - destruct (range_max r <? v) eqn:E; [|exact Hhi].
    destruct (v <? w) eqn:Ew; [|reflexivity].
    rewrite (ltb_trans E Ew) in Hhi. discriminate.
Qed.

Lemma widen_numeric v r : numeric r -> numeric (widen v r).
Proof.
  unfold numeric, widen. simpl. intros [Hlo Hhi]. split.
  - destruct (v <? range_min r) eqn:E; [|exact Hlo]. now apply ltb_numbers in E.
  - destruct (range_max r <? v) eqn:E; [|exact Hhi]. now apply ltb_numbers in E.
Qed.

Section Loops.
Variables (func : ObjectiveFunction) (resolution : nat).
Variables dx dy : float.
Hypothesis dx_step :
  dx = (xMax (domain func) - xMin (domain func)) / counted resolution.
Hypothesis dy_step :
  dy = (yMax (domain func) - yMin (domain func)) / counted resolution.

Lemma widen_attained v r i j :
  (i <= resolution)%nat -> (j <= resolution)%nat ->
  v = sampleAt func resolution i j ->
  attained func resolution infinity (range_min r) /\ attained func resolution neg_infinity (range_max r) ->
  attained func resolution infinity (range_min (widen v r)) /\
  attained func resolution neg_infinity (range_max (widen v r)).
Proof.
  intros Hi Hj Hv [Hlo Hhi]. unfold widen. simpl. split.
  - destruct (v <? range_min r); [|exact Hlo]. right. eauto.
  - destruct (range_max r <? v); [|exact Hhi]. right. eauto.
Qed.

Lemma scanColumns_spec i todo :
  forall j r,
    (i <= resolution)%nat -> (j + todo <= S resolution)%nat ->
    let r' := scanColumns func dx dy (counted i) todo (counted j) r in
    (forall w, brackets r w -> brackets r' w) /\
    (forall j', (j <= j' < j + todo)%nat ->
                brackets r' (sampleAt func resolution i j')) /\
    (numeric r -> numeric r') /\
    (attained func resolution infinity (range_min r) /\ attained func resolution neg_infinity (range_max r) ->
     attained func resolution infinity (range_min r') /\ attained func resolution neg_infinity (range_max r')).
Proof.
  induction todo as [|todo IH]; intros j r Hi Hj; simpl.
  - split_all; auto. intros j' H. lia.
  - change (counted j + 1) with (counted (S j)).
    replace (fn func _ _) with (sampleAt func resolution i j)
      by (unfold sampleAt; now rewrite <- dx_step, <- dy_step).
    destruct (IH (S j) (widen (sampleAt func resolution i j) r) Hi)
      as (Hmono & Hnew & Hnum & Hatt); [lia|].
    split_all.
    + intros w Hw. apply Hmono. now apply widen_still_brackets.
    + intros j' Hj'. destruct (Nat.eq_dec j' j) as [->|Hne].
      * apply Hmono. apply widen_brackets_sample.
      * apply Hnew. lia.
    + intros H. apply Hnum. now apply widen_numeric.
    + intros H. apply Hatt. apply (@widen_attained _ r i j); trivial. lia.
Qed.

Lemma scanRows_spec todo :
  forall i r,
    (i + todo <= S resolution)%nat ->
    let r' := scanRows func dx dy resolution todo (counted i) r in
    (forall w, brackets r w -> brackets r' w) /\
    (forall i' j', (i <= i' < i + todo)%nat -> (j' <= resolution)%nat ->
                   brackets r' (sampleAt func resolution i' j')) /\
    (numeric r -> numeric r') /\
    (attained func resolution infinity (range_min r) /\ attained func resolution neg_infinity (range_max r) ->
     attained func resolution infinity (range_min r') /\ attained func resolution neg_infinity (range_max r')).
Proof.
  induction todo as [|todo IH]; intros i r Hi; simpl.
  - split_all; auto. intros i' j' H. lia.
  - change (counted i + 1) with (counted (S i)).
    change 0 with (counted 0).
    destruct (@scanColumns_spec i (S resolution) 0 r)
      as (Hmono0 & Hnew0 & Hnum0 & Hatt0); [lia | lia |].
    destruct (IH (S i) (scanColumns func dx dy (counted i) (S resolution)
                                    (counted 0) r))
      as (Hmono & Hnew & Hnum & Hatt); [lia|].
    split_all.
    + intros w Hw. apply Hmono, Hmono0, Hw.
    + intros i' j' Hi' Hj'. destruct (Nat.eq_dec i' i) as [->|Hne].
      * apply Hmono, Hnew0. lia.
      * apply Hnew; lia.
    + intros H. apply Hnum, Hnum0, H.
    + intros H. apply Hatt, Hatt0, H.
Qed.
End Loops.

(** X13. [getFunctionRange] throws a TypeError on an unregistered key.
    On a registered one it returns [{min, max}] where both are numbers,
    no value sampled on the [(resolution + 1)²] grid is below [min] or
    above [max] (so every sample that is a number lies between them), and
    each bound is a sampled value, unless no sample ever passed its test
    and it is still [Infinity] or [-Infinity]. *)
Theorem getFunctionRange_brackets_grid (funcKey : string) (resolution : option nat) :
  let size := match resolution with Some v => v | None => 50%nat end in
  match objectiveFunctions funcKey with
  | None => getFunctionRange funcKey resolution = Throw TypeError
  | Some func =>
      exists r,
        getFunctionRange funcKey resolution = Normal r /\
        is_NaN (range_min r) = false /\ is_NaN (range_max r) = false /\
        (forall i j,
            (i <= size)%nat -> (j <= size)%nat ->
            brackets r (sampleAt func size i j) /\
            (is_NaN (sampleAt func size i j) = false ->
             (range_min r <=? sampleAt func size i j) = true /\
             (sampleAt func size i j <=? range_max r) = true)) /\
        attained func size infinity (range_min r) /\
        attained func size neg_infinity (range_max r)
  end.
Proof.
  intros size. unfold getFunctionRange. fold size.
  destruct (objectiveFunctions funcKey) as [func|]; [|reflexivity].
  eexists. split; [reflexivity|].
  change 0 with (counted 0).
  destruct (@scanRows_spec func size _ _ eq_refl eq_refl (S size) 0
              {| range_min := infinity; range_max := neg_infinity |})
    as (_ & Hnew & Hnum & Hatt); [lia|].
  destruct Hnum as [Hlo Hhi]; [split; reflexivity|].
  destruct Hatt as [Halo Hahi]; [split; left; reflexivity|].
  split_all; trivial.
  intros i j Hi Hj. destruct (Hnew i j) as [Hb1 Hb2]; [lia | exact Hj |].
  split; [split; assumption|]. intros Hn.
  split; apply not_ltb_leb; assumption.
Qed.

End FunctionRange.

(** ** The size of the population *)

Section PopulationSize.
Context {RT : JsRuntime}.
Import FireflyAlgorithm.

Lemma Forall2_length_eq (R : Firefly.t -> Firefly.t -> Prop) (l l' : list Firefly.t) :
  Forall2 R l l' -> List.length l' = List.length l.
Proof. induction 1; simpl; congruence. Qed.

Lemma anyFirefly_preserved {A} (m : Js Firefly.t A) : preserves anyFirefly m.
Proof. intros f k. exact I. Qed.

Lemma size_step (a : FireflyAlgorithm.t) (k : nat) :
  List.length (fireflies (receiver (step a k))) = List.length (fireflies a).
Proof.
  apply (@Forall2_length_eq anyFirefly).
  apply (@preserves_step _ anyFirefly); try (intros; exact I);
    intros; apply anyFirefly_preserved.
Qed.

Lemma size_render self timestamp timeScale (a : FireflyAlgorithm.t) (k : nat) :
  List.length (fireflies (receiver (Renderer.render self timestamp timeScale a k)))
  = List.length (fireflies a).
Proof.
  apply (@Forall2_length_eq anyFirefly).
  apply (@preserves_render _ anyFirefly); try (intros; exact I);
    intros; apply anyFirefly_preserved.
Qed.

Lemma size_rebindFireflies todo i (a : FireflyAlgorithm.t) (k : nat) :
  List.length (fireflies (receiver (rebindFireflies i todo a k)))
  = List.length (fireflies a).
Proof.
  apply (@Forall2_length_eq anyFirefly).
  apply (@preserves_rebindFireflies anyFirefly); try (intros; exact I);
    intros; apply anyFirefly_preserved.
Qed.

Lemma updateBest_fireflies (a : FireflyAlgorithm.t) (k : nat) :
  fireflies (receiver (updateBest a k)) = fireflies a.
Proof.
  unfold updateBest. js_unfold. destruct (fireflies a) as [|f0 rest] eqn:E;
    simpl; [exact E|].
  destruct (match bestFirefly a with Some _ => _ | None => _ end); simpl;
    [|exact E].
  destruct (Firefly.clone _ k) as [[[c|e] u] k']; simpl; exact E.
Qed.

Lemma keeps_step_params (a : FireflyAlgorithm.t) (k : nat) :
  params (receiver (step a k)) = params a.
Proof.
  revert a k. change (keeps params step). unfold step.
  apply keeps_bind; [apply keeps_this | intros a].
  destruct (objectiveFunction a); [|apply keeps_throw]. cbv zeta.
  apply keeps_bind; [apply keeps_moveFireflies, beside_params | intros _].
  apply keeps_bind; [apply keeps_assign; reflexivity | intros _].
  apply keeps_bind; [apply keeps_updateBest; reflexivity | intros _].
  apply keeps_bind; [apply keeps_this | intros ?]. apply keeps_ret.
Qed.

(** [adjustPopulation(newN)] with a positive [newN] on a bound
    algorithm: the population ends with [newN] fireflies. *)
Lemma adjustPopulation_size o newN (a : FireflyAlgorithm.t) k :
  objectiveFunction a = Some o ->
  (0 < newN)%Z ->
  Z.of_nat (List.length (fireflies (receiver (adjustPopulation newN a k)))) = newN.
Proof.
  intros Ho Hpos.
  destruct (Z.lt_trichotomy (Z.of_nat (List.length (fireflies a))) newN)
    as [Hlt|[Heq|Hgt]].
  - destruct (@adjustPopulation_grows _ o newN a k Ho Hlt) as (fresh & E & Hlen & _).
    rewrite E. exact Hlen.
  - unfold adjustPopulation. js_unfold. rewrite Ho. cbv zeta.
    destruct (Z.gtb_spec newN (Z.of_nat (List.length (fireflies a)))); [lia|].
    destruct (Z.ltb_spec newN (Z.of_nat (List.length (fireflies a)))); [lia|].
    simpl. exact Heq.
  - rewrite (@adjustPopulation_shrinks _ o newN a k Ho) by lia.
    unfold receiver. simpl. rewrite length_firstn, Array_sort_length. lia.
Qed.

Lemma adjustPopulation_unbound newN (a : FireflyAlgorithm.t) k :
  objectiveFunction a = None ->
  adjustPopulation newN a k = (Throw TypeError, a, k).
Proof. intros Ho. unfold adjustPopulation. js_unfold. now rewrite Ho. Qed.

(** X14. The population has the size the parameters say.  The
    constructor and a [reset()] that return leave [fireflies.length =
    params.n]; [step], a frame of [render] and [clearTrails], however they
    end, keep the equality; and so does a [setParams] that returns, when
    the size it is given, if any, is positive. *)
Theorem population_size_matches_parameter :
  (forall given k a,
      completion (FireflyAlgorithm.new given tt k) = Normal a -> sizeConsistent a) /\
  (forall a k,
      completion (reset a k) = Normal tt -> sizeConsistent (receiver (reset a k))) /\
  (forall a k, sizeConsistent a -> sizeConsistent (receiver (step a k))) /\
  (forall self timestamp timeScale a k,
      sizeConsistent a ->
      sizeConsistent (receiver (Renderer.render self timestamp timeScale a k))) /\
  (forall a k, sizeConsistent a -> sizeConsistent (receiver (clearTrails a k))) /\
  (forall p a k,
      sizeConsistent a ->
      (forall newN, new_n p = Some newN -> (0 < newN)%Z) ->
      completion (setParams p a k) = Normal tt ->
      sizeConsistent (receiver (setParams p a k))).
Proof.
  assert (Hinit : forall a k,
             completion (initialize a k) = Normal tt ->
             sizeConsistent (receiver (initialize a k))).
  { intros a k Hc.
    destruct (objectiveFunction a) as [o|] eqn:Ho;
      [|rewrite initialize_fails in Hc by (now left); discriminate].
    destruct (Z.ltb_spec 0 (n (params a))) as [Hn|Hn];
      [|rewrite initialize_fails in Hc by (now right); discriminate].
    destruct (@initialize_runs _ a k o Ho Hn)
      as (f0 & rest & c & Hlen & _ & _ & _ & _ & _ & Hrun).
    cbv zeta in Hrun. rewrite Hrun. unfold receiver, sizeConsistent.
    destruct (match bestFirefly a with Some _ => _ | None => _ end); exact Hlen. }
  split_all.
  - intros given k a. rewrite new_initializes.
    pose proof (Hinit (mk (defaulted given) 0%Z [] None
                          (objectiveFunctions (functionKey (defaulted given)))) k) as H.
    unfold completion, receiver in *.
    destruct (initialize _ k) as [[[[]|e] a1] k1]; simpl in *; [|discriminate].
    intros [= <-]. now apply H.
  - exact Hinit.
  - intros a k H. unfold sizeConsistent in *. now rewrite size_step, keeps_step_params.
  - intros self timestamp timeScale a k H. unfold sizeConsistent in *.
    rewrite size_render. rewrite (@keeps_render _ _ params); [exact H|].
    apply beside_params.
  - intros a k H. unfold sizeConsistent, clearTrails, assign, receiver in *. simpl.
    now rewrite length_map.
  - intros p a k H Hpos Hc. rewrite setParams_parts in *. cbv zeta in *.
    set (a0 := set_params (spread (params a) p) a) in *.
    assert (Hresize : forall a1 k1,
               params a1 = params a0 ->
               List.length (fireflies a1) = List.length (fireflies a) ->
               let r := match new_n p with
                        | Some newN =>
                            if changesSize p a then adjustPopulation newN a1 k1
                            else (Normal tt, a1, k1)
                        | None => (Normal tt, a1, k1)
                        end in
               completion r = Normal tt -> sizeConsistent (receiver r)).
    { intros a1 k1 Hp Hl r Hr. subst r. unfold sizeConsistent in *.
      destruct (new_n p) as [newN|] eqn:Hn.
      - specialize (Hpos newN eq_refl).
        destruct (changesSize p a) eqn:Hsz.
        + rewrite (@keeps_adjustPopulation _ _ params beside_params).
          rewrite Hp. subst a0. simpl. unfold spread. rewrite Hn. simpl.
          destruct (objectiveFunction a1) as [o|] eqn:Ho;
            [|rewrite adjustPopulation_unbound in Hr by assumption; discriminate].
          now apply (@adjustPopulation_size o).
        + unfold receiver. simpl. rewrite Hp, Hl. subst a0. simpl.
          unfold spread. rewrite Hn. simpl.
          unfold changesSize in Hsz. rewrite Hn in Hsz. unfold truthy_Z in Hsz.
          destruct (Z.eqb_spec newN 0) as [Hz|Hz]; [lia|]. simpl in Hsz.
          apply negb_false_iff in Hsz. apply Z.eqb_eq in Hsz. lia.
      - unfold receiver. simpl. rewrite Hp, Hl. subst a0. simpl.
        unfold spread. rewrite Hn. simpl. exact H. }
    destruct (changesFunction p a).
    + set (a1 := set_objectiveFunction _ a0) in *.
      pose proof (size_rebindFireflies (List.length (fireflies a1)) 0 a1 k) as Hsz.
      pose proof (@keeps_rebindFireflies _ params beside_params
                    (List.length (fireflies a1)) 0 a1 k) as Hpr.
      unfold receiver in Hsz, Hpr.
      destruct (rebindFireflies _ _ a1 k) as [[[[]|e] a2] k2]; simpl in *;
        [|discriminate].
      pose proof (updateBest_fireflies (set_bestFirefly None a2) k2) as Hub.
      pose proof (@keeps_updateBest _ _ params (fun _ _ => eq_refl)
                    (set_bestFirefly None a2) k2) as Hup.
      unfold receiver in Hub, Hup.
      destruct (updateBest _ k2) as [[[[]|e] a3] k3]; simpl in *; [|discriminate].
      apply Hresize; trivial; congruence.
    + apply Hresize; trivial.
Qed.

End PopulationSize.

(** ** The firefly [updateBest] picks *)

Section FirstLeast.

Lemma leb_ltb_trans (a b c : float) :
  (a <=? b) = true -> (b <? c) = true -> (a <? c) = true.
Proof.
  rewrite leb_spec, !ltb_spec. unfold SFleb, SFltb. intros H1 H2.
  destruct (SFcompare (Prim2SF b) (Prim2SF c)) as [[]|] eqn:E2; try discriminate.
  destruct (SFcompare (Prim2SF a) (Prim2SF b)) as [[]|] eqn:E1; try discriminate.
  - now rewrite (SFcompare_Eq_Lt_trans _ _ _ E1 E2).
  - now rewrite (SFcompare_Lt_trans _ _ _ E1 E2).
Qed.

Lemma ltb_not_leb (a b : float) : (a <? b) = true -> (b <=? a) = false.
Proof.
  intros H. destruct (b <=? a) eqn:E; [|reflexivity].
  apply leb_not_ltb in E. congruence.
Qed.

Lemma findBest_split (l : list Firefly.t) :
  forall pre best mid,
    Forall (fun p => (Firefly.value p <=? Firefly.value best) = false) pre ->
    Forall (fun q => (Firefly.value q <? Firefly.value best) = false) mid ->
    exists pre' post',
      pre ++ best :: mid ++ l =
      pre' ++ FireflyAlgorithm.findBest best l :: post' /\
      Forall (fun p => (Firefly.value p <=?
                        Firefly.value (FireflyAlgorithm.findBest best l)) = false) pre' /\
      Forall (fun q => (Firefly.value q <?
                        Firefly.value (FireflyAlgorithm.findBest best l)) = false) post'.
Proof.
  unfold FireflyAlgorithm.findBest.
  induction l as [|f l IH]; intros pre best mid Hpre Hmid; simpl.
  - exists pre, mid. rewrite app_nil_r. auto.
  - destruct (Firefly.value f <? Firefly.value best) eqn:E.
    + destruct (IH (pre ++ best :: mid) f []) as (pre' & post' & Heq & H1 & H2).
      * apply Forall_app. split; [|constructor].
        -- eapply Forall_impl; [|exact Hpre]. intros p Hp. simpl in Hp.
           destruct (Firefly.value p <=? Firefly.value f) eqn:Ep; [|reflexivity].
           rewrite (ltb_leb (leb_ltb_trans Ep E)) in Hp. discriminate.
        -- now apply ltb_not_leb.
        -- eapply Forall_impl; [|exact Hmid]. intros q Hq. simpl in Hq.
           destruct (Firefly.value q <=? Firefly.value f) eqn:Eq; [|reflexivity].
           rewrite (leb_ltb_trans Eq E) in Hq. discriminate.
      * constructor.
      * exists pre', post'. split_all; trivial.
        rewrite <- Heq. rewrite <- app_assoc. reflexivity.
    + destruct (IH pre best (mid ++ [f])) as (pre' & post' & Heq & H1 & H2);
        trivial.
      * apply Forall_app. split; [exact Hmid|]. constructor; [exact E|constructor].
      * exists pre', post'. split_all; trivial.
        rewrite <- Heq. rewrite <- app_assoc. reflexivity.
Qed.

Lemma findBest_first (f0 : Firefly.t) (rest : list Firefly.t) :
  FireflyAlgorithm.findBest f0 (f0 :: rest) = FireflyAlgorithm.findBest f0 rest.
Proof. unfold FireflyAlgorithm.findBest. simpl. now rewrite ltb_irrefl. Qed.

Lemma findBest_NaN (l : list Firefly.t) :
  forall best, is_NaN (Firefly.value best) = true ->
               FireflyAlgorithm.findBest best l = best.
Proof.
  unfold FireflyAlgorithm.findBest.
  induction l as [|f l IH]; intros best Hn; simpl; [reflexivity|].
  destruct (Firefly.value f <? Firefly.value best) eqn:E; [|now apply IH].
  apply ltb_numbers in E. destruct E as [_ E]. congruence.
Qed.

(** X15. Which firefly [updateBest] picks.  The search over a non-empty
    population returns its earliest firefly of least value: every firefly
    standing before it has a value that is not less than or equal to its
    value (strictly greater, or NaN), and no firefly standing after it has
    a value strictly below.  A first firefly whose value is NaN is
    returned whatever the others are. *)
Theorem updateBest_picks_first_least (f0 : Firefly.t) (rest : list Firefly.t) :
  let best := FireflyAlgorithm.findBest f0 (f0 :: rest) in
  (exists pre post,
      f0 :: rest = pre ++ best :: post /\
      Forall (fun p => (Firefly.value p <=? Firefly.value best) = false) pre /\
      Forall (fun q => (Firefly.value q <? Firefly.value best) = false) post) /\
  (is_NaN (Firefly.value f0) = true -> best = f0).
Proof.
  intros best. subst best. rewrite findBest_first. split.
  - destruct (@findBest_split rest [] f0 [])
      as (pre & post & Heq & H1 & H2); try constructor.
    exists pre, post. auto.
  - apply findBest_NaN.
Qed.

End FirstLeast.

(** ** A frame of the renderer *)

Section Frame.
Context {RT : JsRuntime}.
Import FireflyAlgorithm.

Lemma checkForNearbyFlash_draws i l d (f : Firefly.t) (k : nat) :
  (k <= cursor (Firefly.checkForNearbyFlash i l d f k) <= S k)%nat.
Proof.
  unfold Firefly.checkForNearbyFlash. js_unfold. cbv beta iota zeta.
  destruct (negb _ || _ || _); simpl; [lia|].
  destruct (_ <? 500); simpl; [lia|].
  rewrite scanForMale_spec. destruct (existsb _ _); simpl; lia.
Qed.

Lemma checkAgainst_draws d snapshot todo :
  forall i k,
    (k <= snd (checkAgainst d snapshot i todo k) <= k + females todo)%nat.
Proof.
  induction todo as [|f rest IH]; intros i k; simpl; [unfold females; simpl; lia|].
  unfold females. simpl.
  destruct (Firefly.gender f) eqn:Hg; simpl.
  - specialize (IH (S i) k). unfold cursor in *. simpl.
    destruct (checkAgainst d snapshot (S i) rest k) as [rest' k']. simpl in *.
    unfold females in IH. lia.
  - pose proof (checkForNearbyFlash_draws i snapshot d f k) as Hd.
    specialize (IH (S i) (cursor (Firefly.checkForNearbyFlash i snapshot d f k))).
    destruct (checkAgainst d snapshot (S i) rest _) as [rest' k']. simpl in *.
    unfold females in IH. lia.
Qed.

(** X16. A frame of [render], up to the drawing.  On an unbound
    algorithm it throws a TypeError and changes nothing.  On a bound one
    the simulation part returns and sets [lastFrameTime] to the
    timestamp; the clock advances by [(timestamp - lastFrameTime) *
    timeScale], or by [16 * timeScale] when [lastFrameTime] is 0 (the
    first frame, and the frame after a reset); the population becomes
    the one of that tick, and at most one random number per female is
    drawn. *)
Theorem render_outcome
        (self : Renderer.t) (timestamp timeScale : float)
        (a : FireflyAlgorithm.t) (k : nat) :
  let r := Renderer.render self timestamp timeScale a k in
  (objectiveFunction a = None -> r = (Throw TypeError, a, k)) /\
  (forall o,
      objectiveFunction a = Some o ->
      let raw := if truthy_float (Renderer.lastFrameTime self)
                 then timestamp - Renderer.lastFrameTime self else 16 in
      let ticked := tick (domain o) (raw * timeScale) (fireflies a) k in
      r = (Normal {| Renderer.lastFrameTime := timestamp |},
           set_fireflies (fst ticked) a, snd ticked) /\
      (k <= cursor r <= k + females (fireflies a))%nat).
Proof.
  intros r. subst r. split.
  - intros Ho. unfold Renderer.render. js_unfold. now rewrite Ho.
  - intros o Ho raw ticked.
    assert (Hadv : Renderer.advanceTime (domain o) (raw * timeScale) a k =
                   (Normal tt, set_fireflies (fst ticked) a, snd ticked)).
    { subst ticked. unfold Renderer.advanceTime, tick.
      unfold bind at 1. unfold this at 1. unfold bind at 1.
      pose proof (@checkResponses_snapshot _ (domain o) (fireflies a) [] [] a k
                    eq_refl (Forall2_nil _)) as H1.
      change (List.length (@nil Firefly.t)) with 0%nat in H1. simpl app in H1.
      rewrite H1. clear H1.
      destruct (checkAgainst (domain o) (fireflies a) 0 (fireflies a) k)
        as [checked k1].
      unfold bind at 1. unfold this at 1. simpl fst. simpl snd.
      pose proof (@updateFlashes_map _ (raw * timeScale) checked []
                    (set_fireflies checked a) k1 eq_refl) as H2.
      change (List.length (@nil Firefly.t)) with 0%nat in H2. simpl app in H2.
      simpl fireflies. rewrite H2. reflexivity. }
    assert (Hrun : Renderer.render self timestamp timeScale a k =
                   (Normal {| Renderer.lastFrameTime := timestamp |},
                    set_fireflies (fst ticked) a, snd ticked)).
    { unfold Renderer.render.
      unfold bind at 1. unfold this at 1. rewrite Ho. cbv beta iota zeta.
      fold raw. unfold bind. rewrite Hadv. reflexivity. }
    rewrite Hrun. split; [reflexivity|]. unfold cursor. simpl.
    subst ticked. unfold tick.
    pose proof (checkAgainst_draws (domain o) (fireflies a) (fireflies a) 0 k) as Hd.
    destruct (checkAgainst (domain o) (fireflies a) 0 (fireflies a) k)
      as [checked k1]. simpl in *. exact Hd.
Qed.

End Frame.

(** ** Clamping to the domain *)

Section Clamping.
Context {RT : JsRuntime}.

Lemma negative_zero_unique (a b : float) :
  is_negative_zero a = true -> is_negative_zero b = true -> a = b.
Proof.
  unfold is_negative_zero. rewrite !classify_spec.
  unfold SF64classify, SFclassify. intros Ha Hb. apply Prim2SF_inj.
  destruct (Prim2SF a) as [[|]|[|]| |[|] ma ea]; try discriminate;
    try (destruct (Z.eqb _ _); discriminate).
  destruct (Prim2SF b) as [[|]|[|]| |[|] mb eb]; try discriminate;
    try (destruct (Z.eqb _ _); discriminate).
  reflexivity.
Qed.

Lemma is_NaN_nan : is_NaN nan = true.
Proof. reflexivity. Qed.

Lemma Math_min_cases (a b : float) :
  is_NaN a = false -> is_NaN b = false -> Math_min a b = a \/ Math_min a b = b.
Proof.
  intros Ha Hb. unfold Math_min. rewrite Ha, Hb. simpl.
  destruct (a <? b); auto. destruct (b <? a); auto.
  destruct (is_negative_zero a); auto.
Qed.

Lemma Math_max_cases (a b : float) :
  is_NaN a = false -> is_NaN b = false -> Math_max a b = a \/ Math_max a b = b.
Proof.
  intros Ha Hb. unfold Math_max. rewrite Ha, Hb. simpl.
  destruct (a <? b); auto. destruct (b <? a); auto.
  destruct (is_negative_zero a); auto.
Qed.

Lemma Math_min_self (a : float) : is_NaN a = false -> Math_min a a = a.
Proof.
  intros Ha. unfold Math_min. rewrite Ha, ltb_irrefl. simpl.
  now destruct (is_negative_zero a).
Qed.

Lemma Math_max_self (a : float) : is_NaN a = false -> Math_max a a = a.
Proof.
  intros Ha. unfold Math_max. rewrite Ha, ltb_irrefl. simpl.
  now destruct (is_negative_zero a).
Qed.

Lemma Math_min_number (a b : float) :
  is_NaN a = false -> is_NaN b = false -> is_NaN (Math_min a b) = false.
Proof. intros Ha Hb. destruct (Math_min_cases _ _ Ha Hb) as [-> | ->]; assumption. Qed.

Lemma Math_max_absorbs (lo hi : float) :
  is_NaN lo = false -> is_NaN hi = false -> Math_max lo (Math_min hi lo) = lo.
Proof.
  intros Hlo Hhi. unfold Math_min. rewrite Hlo, Hhi. simpl.
  destruct (hi <? lo) eqn:E1.
  - unfold Math_max. rewrite Hlo, Hhi, E1, (ltb_asym E1). reflexivity.
  - destruct (lo <? hi) eqn:E2; [now apply Math_max_self|].
    destruct (is_negative_zero hi) eqn:Hz; [|now apply Math_max_self].
    unfold Math_max. rewrite Hlo, Hhi, E1, E2. simpl.
    destruct (is_negative_zero lo) eqn:Hz'; [|reflexivity].
    now apply negative_zero_unique.
Qed.

Lemma Math_min_idempotent (hi v : float) :
  is_NaN hi = false -> is_NaN v = false ->
  Math_min hi (Math_min hi v) = Math_min hi v.
Proof.
  intros Hhi Hv. destruct (Math_min_cases _ _ Hhi Hv) as [E|E]; rewrite E.
  - now apply Math_min_self.
  - exact E.
Qed.

(** Clamping twice is clamping once, for any bounds and any value. *)
Lemma clamp_idempotent (lo hi v : float) :
  Math_max lo (Math_min hi (Math_max lo (Math_min hi v))) =
  Math_max lo (Math_min hi v).
Proof.
  destruct (is_NaN lo) eqn:Hlo.
  { unfold Math_max at 1 3. now rewrite Hlo. }
  destruct (is_NaN hi) eqn:Hhi.
  { unfold Math_min. rewrite Hhi. reflexivity. }
  destruct (is_NaN v) eqn:Hv.
  { assert (E : Math_min hi v = nan)
      by (unfold Math_min; now rewrite Hv, orb_true_r).
    rewrite E.
    assert (E2 : Math_max lo nan = nan)
      by (unfold Math_max; now rewrite is_NaN_nan, orb_true_r).
    rewrite E2.
    assert (E3 : Math_min hi nan = nan)
      by (unfold Math_min; now rewrite is_NaN_nan, orb_true_r).
    now rewrite E3, E2. }
  pose proof (Math_min_number _ _ Hhi Hv) as Hm.
  destruct (Math_max_cases _ _ Hlo Hm) as [E|E]; rewrite E.
  - now apply Math_max_absorbs.
  - rewrite Math_min_idempotent by assumption. exact E.
Qed.

(** A value between the bounds comes back as the same number. *)
Lemma clamp_inside (lo hi v : float) :
  (lo <=? v) = true -> (v <=? hi) = true ->
  sameNumber (Math_max lo (Math_min hi v)) v.
Proof.
  intros Hlv Hvh.
  destruct (leb_numbers Hlv) as [Hlo Hv]. destruct (leb_numbers Hvh) as [_ Hhi].
  pose proof (leb_not_ltb Hlv) as Hvl. pose proof (leb_not_ltb Hvh) as Hhv.
  assert (Hm : sameNumber (Math_min hi v) v /\ is_NaN (Math_min hi v) = false).
  { split; [|now apply Math_min_number].
    unfold Math_min. rewrite Hhi, Hv, Hhv. simpl.
    destruct (v <? hi) eqn:E; [split; apply ltb_irrefl|].
    destruct (is_negative_zero hi); split; auto using ltb_irrefl. }
  destruct Hm as [[Hm1 Hm2] Hmn].
  assert (Hlv' : (lo <? Math_min hi v) = false -> (lo <? v) = false).
  { intros E1. destruct (lo <? v) eqn:E; [|reflexivity].
    rewrite (@not_ltb_ltb_trans (Math_min hi v) lo v Hmn Hlo E1 E) in Hm1.
    discriminate. }
  unfold Math_max. rewrite Hlo, Hmn. simpl.
  destruct (lo <? Math_min hi v) eqn:E1; [split; assumption|].
  destruct (Math_min hi v <? lo) eqn:E2.
  - rewrite (@not_ltb_ltb_trans v (Math_min hi v) lo Hv Hmn Hm1 E2) in Hvl.
    discriminate.
  - destruct (is_negative_zero lo); split; auto.
Qed.

(** X17. [clampToDomain] is a projection onto the domain.  Clamping a
    second time changes nothing, whatever the domain and the position
    (NaN included).  A position within the bounds comes back as the same
    numbers, neither below nor above the original coordinates.  With
    bounds in order, every coordinate that is a number ends within
    them. *)
Theorem clampToDomain_projects (d : Domain) (f : Firefly.t) (k : nat) :
  let f' := receiver (Firefly.clampToDomain d f k) in
  Firefly.clampToDomain d f' k = (Normal tt, f', k) /\
  (inDomain d (Firefly.x f) (Firefly.y f) ->
   sameNumber (Firefly.x f') (Firefly.x f) /\
   sameNumber (Firefly.y f') (Firefly.y f)) /\
  (wellFormed d ->
   (is_NaN (Firefly.x f) = false ->
    (xMin d <=? Firefly.x f') = true /\ (Firefly.x f' <=? xMax d) = true) /\
   (is_NaN (Firefly.y f) = false ->
    (yMin d <=? Firefly.y f') = true /\ (Firefly.y f' <=? yMax d) = true)).
Proof.
  intros f'. subst f'. rewrite !clampToDomain_runs. unfold receiver. simpl.
  split_all.
  - rewrite !clamp_idempotent. reflexivity.
  - intros (H1 & H2 & H3 & H4). split; now apply clamp_inside.
  - intros [Hx Hy]. split; intros Hn; now apply clamp_between.
Qed.

End Clamping.

(** ** The registry of objective functions *)

Section RegistryData.
Context {RT : JsRuntime}.


End RegistryData.

(** ** A failed change of function, and its repair *)

Section Repair.
Context {RT : JsRuntime}.
Import FireflyAlgorithm.



End Repair.

(** ** The further statements at work *)

Section MoreScenarios.
Import FireflyAlgorithm Scenario Cases.

Lemma all_check (P : Firefly.t -> Prop) (l : list Firefly.t) :
  (forall i, (i < List.length l)%nat -> P (nth i l flasher)) -> Forall P l.
Proof.
  intros H. apply Forall_forall. intros f Hf.
  destruct (In_nth l f flasher Hf) as (i & Hi & <-). now apply H.
Qed.

Lemma swarm_bound :
  Forall (fun f => Firefly.objectiveFunction f = Some sphere) (fireflies swarm).
Proof.
  apply all_check. intros i Hi. change (List.length (fireflies swarm)) with 3%nat in Hi.
  destruct i as [|[|[|i]]]; try lia; reflexivity.
Qed.

Lemma trails_stay_bounded_witness :
  Forall trailBounded (fireflies swarm) /\
  Forall trailBounded (fireflies (receiver (step (RT := engine) swarm swarmCursor))) /\
  Forall trailBounded
         (fireflies (receiver (setParams (RT := engine) (resizeTo 5) swarm swarmCursor))).
Proof.
  destruct (@trails_stay_bounded engine) as (Hnew & Hstep & Hset & _).
  assert (H0 : Forall trailBounded (fireflies swarm)).
  { apply (Hnew (onSphere 3) 0%nat). vm_compute. reflexivity. }
  split_all.
  - exact H0.
  - apply Hstep. exact H0.
  - apply Hset. exact H0.
Defined.

Lemma no_light_without_flash_witness :
  Forall quiet (fireflies swarm) /\
  Forall quiet
         (fireflies (receiver (Renderer.render (RT := engine) firstFrame 1000 1
                                               swarm swarmCursor))) /\
  Firefly.isFlashing caller = true.
Proof.
  destruct (@no_light_without_flash engine) as ((Hnew & _ & _ & _ & _ & Hrender) & Hlit).
  assert (H0 : Forall quiet (fireflies swarm)).
  { apply (Hnew (onSphere 3) 0%nat). vm_compute. reflexivity. }
  split_all.
  - exact H0.
  - apply Hrender. exact H0.
  - apply (Hlit listener 2 caller); [intros H; discriminate | vm_compute; reflexivity].
Defined.

Lemma random_walk_iff_none_brighter_witness :
  completion (compareWithOthers (RT := engine) 1 1 0.2 (domain sphere) 1 0 3 false
                                swarm swarmCursor) = Normal false /\
  completion (compareWithOthers (RT := engine) 1 1 0.2 (domain sphere) 0 0 3 false
                                swarm swarmCursor) = Normal true.
Proof.
  destruct (@random_walk_iff_none_brighter engine 1 1 0.2 (domain sphere)
              [swarmMember 0] [swarmMember 2] (swarmMember 1) swarm swarmCursor)
    as (H1 & _); [reflexivity | vm_compute; discriminate |].
  destruct (@random_walk_iff_none_brighter engine 1 1 0.2 (domain sphere)
              [] [swarmMember 1; swarmMember 2] (swarmMember 0) swarm swarmCursor)
    as (H0 & _); [reflexivity | vm_compute; discriminate |].
  split; [exact H1 | exact H0].
Defined.

Lemma step_settles_population_witness :
  isNormal (completion (step (RT := engine) swarm swarmCursor)) = true /\
  List.length (fireflies (receiver (step (RT := engine) swarm swarmCursor))) = 3%nat /\
  Forall (settledUnder sphere)
         (fireflies (receiver (step (RT := engine) swarm swarmCursor))).
Proof.
  apply (@step_settles_population engine swarm swarmCursor sphere).
  - reflexivity.
  - split; reflexivity.
  - vm_compute. discriminate.
  - exact swarm_bound.
Defined.

Lemma step_best_bounds_population_witness :
  exists s,
    getStats (receiver (step (RT := engine) swarm swarmCursor)) = Some s /\
    stat_generation s = (generation swarm + 1)%Z /\
    populationSize s = List.length (fireflies swarm) /\
    forall f, In f (fireflies (receiver (step (RT := engine) swarm swarmCursor))) ->
              (Firefly.value f <? bestValue s) = false.
Proof.
  destruct (@step_best_bounds_population engine swarm swarmCursor sphere)
    as (s & Hs & Hg & Hp & Hlow).
  - vm_compute. reflexivity.
  - vm_compute. discriminate.
  - apply (bound_evaluable swarm_bound).
  - exists s. split; [exact Hs|]. split; [exact Hg|]. split; [exact Hp|].
    apply Hlow. vm_compute. reflexivity.
Defined.

Lemma constructor_outcome_witness :
  (exists a, FireflyAlgorithm.new (RT := engine) (onSphere 3) tt 0%nat
             = (Normal a, tt,
                (0 + 6 * Z.to_nat (n (defaulted (onSphere 3))) + 4)%nat) /\
             Z.of_nat (List.length (fireflies a)) = n (defaulted (onSphere 3))) /\
  FireflyAlgorithm.new (RT := engine) unknownKey tt 0%nat = (Throw TypeError, tt, 0%nat) /\
  FireflyAlgorithm.new (RT := engine) (onSphere (-1)) tt 0%nat
  = (Throw TypeError, tt, 0%nat).
Proof.
  destruct (@constructor_outcome engine (onSphere 3) 0%nat) as (_ & Hok & _).
  destruct (Hok sphere) as (a & best & c & Hrun & _ & _ & _ & Hlen & _);
    [vm_compute; reflexivity | vm_compute; reflexivity |].
  destruct (@constructor_outcome engine unknownKey 0%nat) as (_ & _ & Hbad).
  destruct (@constructor_outcome engine (onSphere (-1)) 0%nat) as (_ & _ & Hneg).
  split; [|split].
  - exists a. split; [exact Hrun | exact Hlen].
  - apply Hbad. left. vm_compute. reflexivity.
  - apply Hneg. right. vm_compute. reflexivity.
Defined.

Lemma reset_outcome_witness :
  completion (reset (RT := engine) swarm swarmCursor) = Normal tt /\
  Z.of_nat (List.length (fireflies (receiver (reset (RT := engine) swarm swarmCursor))))
  = n (params swarm) /\
  completion (reset (RT := engine)
                    (receiver (setParams (RT := engine) zeroSize swarm swarmCursor))
                    swarmCursor) = Throw TypeError /\
  fireflies (receiver (reset (RT := engine)
                         (receiver (setParams (RT := engine) zeroSize swarm swarmCursor))
                         swarmCursor)) = [].
Proof.
  destruct (@reset_outcome engine swarm swarmCursor) as (_ & _ & _ & _ & Hok & _).
  destruct (Hok sphere) as (Hc & Hlen & _);
    [vm_compute; reflexivity | vm_compute; reflexivity |].
  destruct (@reset_outcome engine
              (receiver (setParams (RT := engine) zeroSize swarm swarmCursor))
              swarmCursor) as (_ & _ & _ & _ & _ & Hbad).
  destruct Hbad as (Hthrow & Hempty & _);
    [right; vm_compute; intros H; discriminate H|].
  split; [exact Hc|]. split; [exact Hlen|]. split; [exact Hthrow | exact Hempty].
Defined.


Lemma step_returns_exactly_when_witness :
  isNormal (completion (step (RT := engine) swarm swarmCursor)) = true /\
  step (RT := engine)
       (receiver (setParams (RT := engine) unknownKey swarm swarmCursor)) swarmCursor
  = (Throw TypeError,
     receiver (setParams (RT := engine) unknownKey swarm swarmCursor), swarmCursor).
Proof.
  destruct (@step_returns_exactly_when engine swarm swarmCursor) as ((_ & Hif) & _).
  destruct (@step_returns_exactly_when engine
              (receiver (setParams (RT := engine) unknownKey swarm swarmCursor))
              swarmCursor) as (_ & _ & Hun & _).
  split.
  - apply Hif. split; [|split].
    + vm_compute. discriminate.
    + vm_compute. discriminate.
    + apply (bound_evaluable swarm_bound).
  - apply Hun. vm_compute. reflexivity.
Defined.

Lemma response_countdown_witness :
  receiver (Firefly.updateFlash (RT := engine) 100 waiting 0%nat)
  = Firefly.set_responseDelay (Firefly.responseDelay waiting - 100) waiting /\
  Firefly.updateFlash (RT := engine) 510 waiting 0%nat
  = Firefly.updateFlash (RT := engine) 510
      (Firefly.set_responseDelay 0
         (Firefly.set_flashPhase 0 (Firefly.set_isFlashing true waiting))) 0%nat.
Proof.
  destruct (@response_countdown engine 100 waiting 0%nat)
    as (_ & _ & Hwait & _);
    [vm_compute; reflexivity | vm_compute; reflexivity |].
  destruct Hwait as (_ & _ & Hsame); [vm_compute; reflexivity|].
  destruct (@response_countdown engine 510 waiting 0%nat)
    as (_ & _ & _ & Hdue);
    [vm_compute; reflexivity | vm_compute; reflexivity |].
  destruct Hdue as (H2 & _); [vm_compute; reflexivity|].
  split; [apply Hsame; vm_compute; reflexivity | exact H2].
Defined.

Lemma getFunctionRange_brackets_grid_witness :
  (exists r,
      getFunctionRange (RT := engine) "sphere" (Some 2%nat) = Normal r /\
      (range_min r <=? sampleAt sphere 2 1 2) = true /\
      (sampleAt sphere 2 1 2 <=? range_max r) = true) /\
  getFunctionRange (RT := engine) "banana" None = Throw TypeError.
Proof.
  split.
  - destruct (@getFunctionRange_brackets_grid engine "sphere" (Some 2%nat))
      as (r & Hr & _ & _ & Hall & _).
    exists r. split; [exact Hr|].
    apply (Hall 1%nat 2%nat); [lia | lia | vm_compute; reflexivity].
  - exact (@getFunctionRange_brackets_grid engine "banana" None).
Defined.

Lemma population_size_matches_parameter_witness :
  sizeConsistent swarm /\
  sizeConsistent (receiver (setParams (RT := engine) (resizeTo 5) swarm swarmCursor)).
Proof.
  destruct (@population_size_matches_parameter engine) as (Hnew & _ & _ & _ & _ & Hset).
  assert (Hs : sizeConsistent swarm) by (vm_compute; reflexivity).
  split; [exact Hs|].
  apply Hset.
  - exact Hs.
  - intros newN HnewN. vm_compute in HnewN. injection HnewN as <-. lia.
  - vm_compute. reflexivity.
Defined.

Lemma updateBest_picks_first_least_witness :
  findBest (Firefly.set_value nan flasher)
           (Firefly.set_value nan flasher :: fireflies swarm)
  = Firefly.set_value nan flasher.
Proof.
  apply (proj2 (updateBest_picks_first_least (Firefly.set_value nan flasher)
                                             (fireflies swarm))).
  vm_compute. reflexivity.
Defined.

Lemma render_outcome_witness :
  Renderer.render (RT := engine) firstFrame 1000 1 swarm swarmCursor
  = (Normal {| Renderer.lastFrameTime := 1000 |},
     set_fireflies
       (fst (tick (RT := engine) (domain sphere) (16 * 1) (fireflies swarm) swarmCursor))
       swarm,
     snd (tick (RT := engine) (domain sphere) (16 * 1) (fireflies swarm) swarmCursor)) /\
  Renderer.render (RT := engine) firstFrame 1000 1
                  (receiver (setParams (RT := engine) unknownKey swarm swarmCursor))
                  swarmCursor
  = (Throw TypeError,
     receiver (setParams (RT := engine) unknownKey swarm swarmCursor), swarmCursor).
Proof.
  destruct (@render_outcome engine firstFrame 1000 1 swarm swarmCursor) as (_ & Hok).
  destruct (Hok sphere) as (Hrun & _); [vm_compute; reflexivity|].
  destruct (@render_outcome engine firstFrame 1000 1
              (receiver (setParams (RT := engine) unknownKey swarm swarmCursor))
              swarmCursor) as (Hun & _).
  split; [exact Hrun|]. apply Hun. vm_compute. reflexivity.
Defined.

Lemma clampToDomain_projects_witness :
  (xMin (domain sphere)
   <=? Firefly.x (receiver (Firefly.clampToDomain (domain sphere) stray 0%nat)))
  = true /\
  (Firefly.x (receiver (Firefly.clampToDomain (domain sphere) stray 0%nat))
   <=? xMax (domain sphere)) = true /\
  sameNumber
    (Firefly.x (receiver (Firefly.clampToDomain (domain sphere) flasher 0%nat)))
    (Firefly.x flasher).
Proof.
  destruct (@clampToDomain_projects (domain sphere) stray 0%nat) as (_ & _ & Hin).
  destruct Hin as (Hx & _); [vm_compute; split; reflexivity|].
  destruct Hx as (Hlo & Hhi); [vm_compute; reflexivity|].
  destruct (@clampToDomain_projects (domain sphere) flasher 0%nat)
    as (_ & Hsame & _).
  destruct Hsame as (Hsx & _); [vm_compute; repeat split; reflexivity|].
  split; [exact Hlo|]. split; [exact Hhi | exact Hsx].
Defined.



End MoreScenarios.
(** ** Who responds *)

Section Responders.
Context {RT : JsRuntime}.
Import FireflyAlgorithm.

Lemma sameFlashState_femaleResponder f f' :
  sameFlashState f f' -> keptBy femaleResponder f f'.
Proof.
  unfold sameFlashState, keptBy, femaleResponder.
  intros (Hg & _ & _ & _ & _ & _ & _ & Hr). rewrite Hg, Hr. tauto.
Qed.

Lemma femaleResponder_scanForMale selfIndex rd others :
  forall j f k,
    Firefly.gender f = female ->
    femaleResponder (receiver (Firefly.scanForMale selfIndex j others rd f k)).
Proof.
  induction others as [|other rest IH]; intros j f k Hfem; simpl.
  - intros _. exact Hfem.
  - destruct (Nat.eqb j selfIndex || negb (Gender_eqb (Firefly.gender other) male));
      [now apply IH|].
    destruct (0.5 <? Firefly.flashIntensity other); [|now apply IH].
    js_unfold. cbv beta iota zeta.
    destruct (Firefly.distanceTo f other <? rd); [|now apply IH].
    simpl. intros _. exact Hfem.
Qed.

Lemma femaleResponder_checkForNearbyFlash i l d :
  preserves (keptBy femaleResponder) (Firefly.checkForNearbyFlash i l d).
Proof.
  intros f k. unfold Firefly.checkForNearbyFlash. js_unfold. cbv beta iota zeta.
  destruct (Gender_eqb (Firefly.gender f) female) eqn:Hg; simpl;
    [|intros H; exact H].
  destruct (_ || _); [intros H; exact H|].
  destruct (_ <? 500); [intros H; exact H|].
  intros _. apply femaleResponder_scanForMale.
  destruct (Firefly.gender f); [discriminate Hg | reflexivity].
Qed.

Lemma femaleResponder_updateFlash dt :
  preserves (keptBy femaleResponder) (Firefly.updateFlash dt).
Proof.
  intros f k; unfold Firefly.updateFlash; js_unfold; cbv beta iota zeta;
    repeat match goal with
           | |- context [if ?c then _ else _] =>
               lazymatch c with
               | context [if _ then _ else _] => fail
               | _ => destruct c eqn:?
               end; simpl in *
           end;
    unfold keptBy, femaleResponder; simpl; intros Hq; try tauto;
    try discriminate; auto; intros; congruence.
Qed.

(** X20. Only females respond.  The constructor builds fireflies that
    are not responding, and [step], [setParams], [reset], [clearTrails]
    and a frame of [render], however they end, leave a population in
    which every responding firefly is a female as one: no male is ever
    put in the responding state.  [checkForNearbyFlash] on a male returns
    at once, changing nothing and drawing nothing. *)
Theorem only_females_respond :
  simulationInvariant femaleResponder /\
  (forall i l d (f : Firefly.t) k,
      Firefly.gender f = male ->
      Firefly.checkForNearbyFlash i l d f k = (Normal tt, f, k)).
Proof.
  split.
  - apply simulationInvariant_intro.
    + intros x0 y0 [o|] t k f.
      * destruct (new_normal x0 y0 o t k)
          as (g & Hg & _ & _ & _ & _ & _ & _ & _ & _ & _ & _ & Hr).
        rewrite Hg. unfold completion. simpl. intros [= <-].
        unfold femaleResponder. rewrite Hr. discriminate.
      * rewrite new_undefined. discriminate.
    + intros other b0 g al d f k.
      apply sameFlashState_femaleResponder, sameFlashState_moveTowards.
    + intros al d f k.
      apply sameFlashState_femaleResponder, sameFlashState_randomWalk.
    + exact femaleResponder_checkForNearbyFlash.
    + exact femaleResponder_updateFlash.
    + intros o f k. apply sameFlashState_femaleResponder, sameFlashState_bound.
    + intros d f k. apply sameFlashState_femaleResponder, sameFlashState_clampToDomain.
    + intros f k. apply sameFlashState_femaleResponder, sameFlashState_evaluate.
    + intros f Hq. exact Hq.
  - intros i l d f k Hm. unfold Firefly.checkForNearbyFlash. js_unfold.
    cbv beta iota zeta. rewrite Hm. reflexivity.
Qed.

End Responders.
(** ** Repeating a call of setParams *)

Section Repeating.
Context {RT : JsRuntime}.
Import FireflyAlgorithm.

Lemma spread_twice (P : Params) (p : PartialParams) :
  spread (spread P p) p = spread P p.
Proof.
  unfold spread. destruct p as [[?|] [?|] [?|] [?|] [?|]]; reflexivity.
Qed.

Lemma changesFunction_stored (p : PartialParams) (a : FireflyAlgorithm.t) :
  params a = spread (params a) p -> changesFunction p a = false.
Proof.
  intros H. unfold changesFunction.
  destruct (new_functionKey p) as [key|] eqn:Hk; [|reflexivity].
  assert (Hf : functionKey (params a) = key)
    by (rewrite H; unfold spread; rewrite Hk; reflexivity).
  rewrite Hf, String.eqb_refl. apply andb_false_r.
Qed.

Lemma changesSize_stored (p : PartialParams) (a : FireflyAlgorithm.t) :
  params a = spread (params a) p -> changesSize p a = false.
Proof.
  intros H. unfold changesSize.
  destruct (new_n p) as [newN|] eqn:Hn; [|reflexivity].
  assert (Hf : n (params a) = newN)
    by (rewrite H; unfold spread; rewrite Hn; reflexivity).
  rewrite Hf, Z.eqb_refl. apply andb_false_r.
Qed.

(** X21. Repeating a call of [setParams] changes nothing.  After
    [setParams(p)], however it ended, a second [setParams(p)] with the
    same argument returns normally, draws nothing and leaves the
    algorithm exactly as the first call left it: a change that failed
    is not attempted again, and the error is not reported a second
    time. *)
Theorem setParams_repeated_is_silent
        (p : PartialParams) (a : FireflyAlgorithm.t) (k k' : nat) :
  let a' := receiver (setParams p a k) in
  setParams p a' k' = (Normal tt, a', k').
Proof.
  intros a'.
  assert (Hstored : params a' = spread (params a') p).
  { subst a'. rewrite setParams_stores. symmetry. apply spread_twice. }
  rewrite setParams_parts. cbv zeta.
  rewrite (@changesFunction_stored p a' Hstored), (@changesSize_stored p a' Hstored).
  rewrite <- Hstored.
  assert (Heta : set_params (params a') a' = a') by (destruct a'; reflexivity).
  rewrite Heta. destruct (new_n p); reflexivity.
Qed.

End Repeating.
(** ** The optimisation does not read the flash state *)

Section NonInterference.
Context {RT : JsRuntime}.
Import FireflyAlgorithm.

Ltac same_places :=
  repeat match goal with
         | H : samePlace ?f _ |- _ =>
             destruct H as (? & ? & ? & ? & ? & ? & ?)
         end.

Lemma samePlace_value f f' : samePlace f f' -> Firefly.value f' = Firefly.value f.
Proof. intros H. apply H. Qed.

Lemma moveTowards_samePlace other other' b0 g al d f f' k :
  samePlace f f' -> samePlace other other' ->
  samePlace (receiver (Firefly.moveTowards other b0 g al d f k))
            (receiver (Firefly.moveTowards other' b0 g al d f' k)) /\
  cursor (Firefly.moveTowards other' b0 g al d f' k)
  = cursor (Firefly.moveTowards other b0 g al d f k).
Proof.
  intros Hf Ho. destruct f, f', other, other'. unfold samePlace in *. simpl in *.
  destruct Hf as (? & ? & ? & ? & ? & ? & ?).
  destruct Ho as (? & ? & ? & ? & ? & ? & ?). subst.
  unfold Firefly.moveTowards, Firefly.addTrailPoint, Firefly.clampToDomain,
    Firefly.evaluate, Firefly.distanceTo.
  js_unfold. cbv beta iota zeta. simpl.
  destruct (Nat.ltb _ _); simpl;
    match goal with
    | |- context [match ?o with Some _ => _ | None => _ end] => destruct o
    end; simpl; repeat split.
Qed.

Lemma randomWalk_samePlace al d f f' k :
  samePlace f f' ->
  samePlace (receiver (Firefly.randomWalk al d f k))
            (receiver (Firefly.randomWalk al d f' k)) /\
  cursor (Firefly.randomWalk al d f' k) = cursor (Firefly.randomWalk al d f k).
Proof.
  intros Hf. destruct f, f'. unfold samePlace in *. simpl in *.
  destruct Hf as (? & ? & ? & ? & ? & ? & ?). subst.
  unfold Firefly.randomWalk, Firefly.addTrailPoint, Firefly.clampToDomain,
    Firefly.evaluate.
  js_unfold. cbv beta iota zeta. simpl.
  destruct (Nat.ltb _ _); simpl;
    match goal with
    | |- context [match ?o with Some _ => _ | None => _ end] => destruct o
    end; simpl; repeat split.
Qed.

Section Sweeping.
Variables (b0 g al : float) (d : Domain).

Lemma meetOthers_samePlace others others' :
  Forall2 samePlace others others' ->
  forall moved f f' k,
    samePlace f f' ->
    let r := meetOthers b0 g al d others moved f k in
    let r' := meetOthers b0 g al d others' moved f' k in
    fst (fst r') = fst (fst r) /\ samePlace (snd (fst r)) (snd (fst r')) /\
    snd r' = snd r.
Proof.
  induction 1 as [|other other' rest rest' Ho Hrest IH]; intros moved f f' k Hf; simpl.
  - auto.
  - rewrite (samePlace_value Ho), (samePlace_value Hf).
    destruct (Firefly.value other <? Firefly.value f).
    + destruct (@moveTowards_samePlace other other' b0 g al d f f' k Hf Ho) as [Hm Hc].
      rewrite Hc. apply IH. exact Hm.
    + apply IH. exact Hf.
Qed.

Lemma turnOf_samePlace others others' f f' k :
  Forall2 samePlace others others' -> samePlace f f' ->
  samePlace (fst (turnOf b0 g al d others f k)) (fst (turnOf b0 g al d others' f' k)) /\
  snd (turnOf b0 g al d others' f' k) = snd (turnOf b0 g al d others f k).
Proof.
  intros Ho Hf. unfold turnOf.
  destruct (meetOthers_samePlace Ho false k Hf) as (Hm & Hp & Hk).
  destruct (meetOthers b0 g al d others false f k) as [[m f1] k1].
  destruct (meetOthers b0 g al d others' false f' k) as [[m' f1'] k1'].
  simpl in *. subst m' k1'.
  destruct m; simpl; [auto|].
  apply randomWalk_samePlace. exact Hp.
Qed.

Lemma sweep_samePlace todo todo' :
  Forall2 samePlace todo todo' ->
  forall done done' k,
    Forall2 samePlace done done' ->
    Forall2 samePlace (fst (sweep b0 g al d done todo k))
            (fst (sweep b0 g al d done' todo' k)) /\
    snd (sweep b0 g al d done' todo' k) = snd (sweep b0 g al d done todo k).
Proof.
  induction 1 as [|f f' rest rest' Hf Hrest IH]; intros done done' k Hd; simpl.
  - auto.
  - assert (Ho : Forall2 samePlace (done ++ rest) (done' ++ rest'))
      by (apply Forall2_app; assumption).
    destruct (turnOf_samePlace k Ho Hf) as [Hp Hk].
    destruct (turnOf b0 g al d (done ++ rest) f k) as [f1 k1].
    destruct (turnOf b0 g al d (done' ++ rest') f' k) as [f1' k1'].
    simpl in *. subst k1'.
    apply IH. apply Forall2_app; [exact Hd|]. constructor; [exact Hp | constructor].
Qed.
End Sweeping.

Lemma findBest_samePlace l l' :
  Forall2 samePlace l l' ->
  forall best best',
    samePlace best best' -> samePlace (findBest best l) (findBest best' l').
Proof.
  unfold findBest.
  induction 1 as [|f f' rest rest' Hf Hrest IH]; intros best best' Hb; simpl.
  - exact Hb.
  - rewrite (samePlace_value Hf), (samePlace_value Hb).
    destruct (Firefly.value f <? Firefly.value best); apply IH; assumption.
Qed.

(** X22. The optimisation does not read the flash state.  Take two
    states of the algorithm that differ at most in the gender and the
    flash and response state of their fireflies (same positions, values,
    trails and objective functions, same parameters and generation,
    records of the same value and position), bound and with a non-empty
    population of bound fireflies.  From the same point of the random
    stream, [step()] returns on both, draws as many random numbers, and
    leaves two states that again differ at most in that way. *)
Theorem step_ignores_flash_state
        (a a2 : FireflyAlgorithm.t) (k : nat) (o : ObjectiveFunction) :
  objectiveFunction a = Some o ->
  fireflies a <> [] ->
  Forall evaluable (fireflies a) ->
  sameOptimisation a a2 ->
  isNormal (completion (step a k)) = true /\
  isNormal (completion (step a2 k)) = true /\
  cursor (step a2 k) = cursor (step a k) /\
  sameOptimisation (receiver (step a k)) (receiver (step a2 k)).
Proof.
  intros Ho Hne Hev (Hpop & Hpar & Hgen & Hobj & Hbest).
  unfold pointwise in Hpop.
  assert (Ho2 : objectiveFunction a2 = Some o) by congruence.
  assert (Hne2 : fireflies a2 <> []).
  { intros He. rewrite He in Hpop. inversion Hpop. congruence. }
  assert (Hev2 : Forall evaluable (fireflies a2)).
  { clear - Hpop Hev. induction Hpop as [|f f' l l' Hf Hl IH]; [constructor|].
    inversion Hev; subst. constructor; [|auto].
    unfold evaluable in *. destruct Hf as (_ & _ & _ & _ & _ & _ & Hfo). congruence. }
  destruct (@step_runs RT a k o Ho Hne Hev) as (f0 & rest & c & Hs & Hcv & Hcx & Hcy & Hrun).
  destruct (@step_runs RT a2 k o Ho2 Hne2 Hev2)
    as (f0' & rest' & c' & Hs' & Hcv' & Hcx' & Hcy' & Hrun').
  cbv zeta in Hrun, Hrun'. rewrite Hpar in Hrun', Hs'.
  destruct (@sweep_samePlace (beta0 (params a)) (gamma (params a)) (alpha (params a))
              (domain o) _ _ Hpop [] [] k (Forall2_nil _)) as [Hswept Hcur].
  rewrite Hs, Hs' in Hswept.
  assert (Hfb : samePlace (findBest f0 (f0 :: rest)) (findBest f0' (f0' :: rest'))).
  { apply findBest_samePlace; [exact Hswept|]. inversion Hswept; subst. assumption. }
  destruct Hfb as (Hfx & Hfy & Hfv & _).
  assert (Himp : match bestFirefly a2 with
                 | None => true
                 | Some b => Firefly.value (findBest f0' (f0' :: rest')) <? Firefly.value b
                 end
                 = match bestFirefly a with
                   | None => true
                   | Some b => Firefly.value (findBest f0 (f0 :: rest)) <? Firefly.value b
                   end).
  { unfold sameRecord in Hbest.
    destruct (bestFirefly a) as [b|], (bestFirefly a2) as [b2|]; try tauto.
    destruct Hbest as (Hbv & _). rewrite Hfv, Hbv. reflexivity. }
  rewrite Himp, Hcur in Hrun'. rewrite Hrun, Hrun'.
  destruct (match bestFirefly a with
            | None => true
            | Some b => Firefly.value (findBest f0 (f0 :: rest)) <? Firefly.value b
            end).
  - unfold completion, receiver, cursor, sameOptimisation, pointwise. simpl.
    rewrite Hs, Hs'. split_all; try reflexivity; try assumption; congruence.
  - unfold completion, receiver, cursor, sameOptimisation, pointwise. simpl.
    rewrite Hs, Hs'. split_all; try reflexivity; try assumption; congruence.
Qed.

End NonInterference.
(** ** The further properties on concrete cases *)

Section FurtherScenarios.
Import FireflyAlgorithm Scenario Cases.

Lemma only_females_respond_witness :
  Firefly.checkForNearbyFlash (RT := engine) 0 [] (domain sphere) caller 0%nat
  = (Normal tt, caller, 0%nat).
Proof.
  apply (proj2 (@only_females_respond engine)). vm_compute. reflexivity.
Defined.

Lemma flashing_sameOptimisation (a : FireflyAlgorithm.t) :
  sameOptimisation a (set_fireflies (map (Firefly.set_isFlashing true) (fireflies a)) a).
Proof.
  destruct a as [p g l b o]. unfold sameOptimisation, pointwise. simpl.
  split_all; try reflexivity.
  - induction l as [|f l IH]; simpl; constructor; [|exact IH].
    unfold samePlace. simpl. tauto.
  - unfold sameRecord. destruct b; tauto.
Qed.

Lemma step_ignores_flash_state_witness :
  isNormal (completion (step (RT := engine) swarm swarmCursor)) = true /\
  isNormal (completion (step (RT := engine) lit swarmCursor)) = true /\
  cursor (step (RT := engine) lit swarmCursor)
  = cursor (step (RT := engine) swarm swarmCursor) /\
  sameOptimisation (receiver (step (RT := engine) swarm swarmCursor))
                   (receiver (step (RT := engine) lit swarmCursor)).
Proof.
  apply (@step_ignores_flash_state engine swarm lit swarmCursor sphere).
  - vm_compute. reflexivity.
  - vm_compute. discriminate.
  - apply (bound_evaluable swarm_bound).
  - exact (flashing_sameOptimisation swarm).
Defined.

End FurtherScenarios.
